(** * vinylcollection-enricher: the identifier-resolution pipeline

    A shallow embedding of the worker script (v4.2.4): seed parsing, barcode
    canonicalisation, the JSON fetch helper, the four resolver stages, the
    Wikipedia extractors and the canonical finalisation, followed by the
    properties of the specification that are stated about them.

    Conventions.
    - A JavaScript string is a [string]: a sequence of 8-bit units holding
      ASCII/UTF-8 text.  The en dash of the Discogs title separator is its
      three UTF-8 octets.  The class [\s], [trim] and [parseInt] know the
      white space of JavaScript, inside and outside ASCII; [.] excludes LF
      and CR, and is only applied to text without white space.  [\d], [\w]
      and [a-z] are ASCII in JavaScript as well, also under the [i] flag.
      Case mapping is that of the ASCII letters, which is all that the
      tests of the script on lowered text can see; letters outside ASCII
      are left as they are.
    - A provider document is decoded into the fields the script reads
      (module by module below); the query flags arrive parsed.
    - [None] stands for [undefined], and for [null] wherever the script
      tests the value for truthiness before it uses it.  The identifier of
      a MusicBrainz release or release group is printed into a URL without
      such a test: there [None] is the absent key, printed [undefined].
    - The script mutates one output object and talks to the network.  Both
      are threaded through a state-and-exception monad [M]; the network and
      the timer are an oracle [Env] that answers each request from the
      history of events so far. *)

From Stdlib Require Import String Ascii List Arith Bool Lia DecimalString.
Import ListNotations.
Local Open Scope string_scope.
Local Open Scope list_scope.
Local Open Scope nat_scope.

Set Implicit Arguments.

(* ===================================================================== *)
(** ** Characters and strings *)
(* ===================================================================== *)

Module Chars.

Definition code (c : ascii) : nat := nat_of_ascii c.

Definition between (lo hi : nat) (c : ascii) : bool :=
  (lo <=? code c) && (code c <=? hi).

(** [\d] *)
Definition is_digit (c : ascii) : bool := between 48 57 c.
Definition is_upper (c : ascii) : bool := between 65 90 c.
Definition is_lower (c : ascii) : bool := between 97 122 c.
Definition is_alpha (c : ascii) : bool := is_upper c || is_lower c.
(** [\w] *)
Definition is_word (c : ascii) : bool :=
  is_alpha c || is_digit c || (code c =? 95).
(** The white space of one unit: TAB, LF, VT, FF, CR, SPACE. *)
Definition is_space (c : ascii) : bool := between 9 13 c || (code c =? 32).
(** The white space of two and of three units, by its UTF-8 octets:
    U+00A0; U+1680, U+2000 to U+200A, U+2028, U+2029, U+202F, U+205F,
    U+3000 and U+FEFF. *)
Definition wide_space2 (a b : ascii) : bool :=
  (code a =? 194) && (code b =? 160).
Definition wide_space3_end (c : ascii) : bool :=
  between 128 138 c || (code c =? 168) || (code c =? 169) || (code c =? 175).
Definition wide_space3 (a b c : ascii) : bool :=
  ((code a =? 225) && (code b =? 154) && (code c =? 128))
  || ((code a =? 226) && (code b =? 128) && wide_space3_end c)
  || ((code a =? 226) && (code b =? 129) && (code c =? 159))
  || ((code a =? 227) && (code b =? 128) && (code c =? 128))
  || ((code a =? 239) && (code b =? 187) && (code c =? 191)).
(** Line terminators, which [.] does not match. *)
Definition is_newline (c : ascii) : bool := (code c =? 10) || (code c =? 13).

Definition to_lower (c : ascii) : ascii :=
  if is_upper c then ascii_of_nat (code c + 32) else c.
Definition to_upper (c : ascii) : ascii :=
  if is_lower c then ascii_of_nat (code c - 32) else c.

(** The double quote, U+0022. *)
Definition dquote : ascii := "034"%char.

End Chars.
Import Chars.

Module Str.

Fixpoint map (f : ascii -> ascii) (s : string) : string :=
  match s with
  | EmptyString => EmptyString
  | String c r => String (f c) (map f r)
  end.

Fixpoint filter (p : ascii -> bool) (s : string) : string :=
  match s with
  | EmptyString => EmptyString
  | String c r => if p c then String c (filter p r) else filter p r
  end.

Fixpoint drop_while (p : ascii -> bool) (s : string) : string :=
  match s with
  | EmptyString => EmptyString
  | String c r => if p c then drop_while p r else s
  end.

Fixpoint forallb (p : ascii -> bool) (s : string) : bool :=
  match s with
  | EmptyString => true
  | String c r => p c && forallb p r
  end.

Fixpoint rev_onto (s acc : string) : string :=
  match s with
  | EmptyString => acc
  | String c r => rev_onto r (String c acc)
  end.
Definition rev (s : string) : string := rev_onto s "".

Definition take (n : nat) (s : string) : string := substring 0 n s.

Definition is_empty (s : string) : bool :=
  match s with EmptyString => true | _ => false end.

(** [s.toLowerCase()] and [s.toUpperCase()] on the ASCII letters.  The
    script compares lowered text with ASCII words only and raises the case
    of ASCII word characters only; a letter outside ASCII in the flags
    [images] and [lang] is echoed as it came. *)
Definition toLowerCase : string -> string := map to_lower.
Definition toUpperCase : string -> string := map to_upper.

(** [s] without the white space at its start; [two] and [three] tell the
    white space of two and of three units. *)
Fixpoint drop_spaces (two : ascii -> ascii -> bool)
         (three : ascii -> ascii -> ascii -> bool) (s : string) : string :=
  match s with
  | EmptyString => EmptyString
  | String a r1 =>
      if is_space a then drop_spaces two three r1 else
      match r1 with
      | String b r2 =>
          if two a b then drop_spaces two three r2 else
          match r2 with
          | String c r3 =>
              if three a b c then drop_spaces two three r3 else s
          | EmptyString => s
          end
      | EmptyString => s
      end
  end.

(** [s.trimStart()] *)
Definition trimStart (s : string) : string :=
  drop_spaces wide_space2 wide_space3 s.

(** [s.trim()]: the end is stripped on the reversed text, where the units
    of a character come last to first. *)
Definition trim (s : string) : string :=
  rev (drop_spaces (fun a b => wide_space2 b a)
                   (fun a b c => wide_space3 c b a)
                   (rev (trimStart s))).

(** [arr.join(sep)] *)
Fixpoint join (sep : string) (l : list string) : string :=
  match l with
  | [] => ""
  | [x] => x
  | x :: r => x ++ sep ++ join sep r
  end.

Definition str1 (c : ascii) : string := String c "".

End Str.

(** Truthiness of a possibly absent string: [undefined], [null] and the
    empty string are falsy. *)
Definition truthy (v : option string) : bool :=
  match v with
  | Some s => negb (Str.is_empty s)
  | None => false
  end.

(** [a || b] on possibly absent strings. *)
Definition or_else (a b : option string) : option string :=
  if truthy a then a else b.

(* ===================================================================== *)
(** ** Regular expressions

    A backtracking matcher with the priorities of the JavaScript engine:
    alternatives left to right, greedy and lazy repetition, an iteration of
    a repetition that consumes nothing is rejected.  The cursor remembers
    the unit before it, for [^] and [\b]. *)
(* ===================================================================== *)

Module Regex.

Inductive re : Type :=
| Eps
| Chr (p : ascii -> bool)
| Seq (a b : re)
| Alt (a b : re)
| Star (greedy : bool) (a : re)
| Grp (n : nat) (a : re)
| Bol
| Eol
| WordB
| Ahead (a : re).

(** The unit before the cursor (if any) and the text after it. *)
Definition cursor : Type := option ascii * string.
Definition caps : Type := list (nat * string).

Definition start (s : string) : cursor := (None, s).
Definition rest (c : cursor) : string := snd c.

Definition advance (c : cursor) : option cursor :=
  match rest c with
  | EmptyString => None
  | String a r => Some (Some a, r)
  end.

(** The text between two cursors of one string. *)
Definition between (c c' : cursor) : string :=
  Str.take (String.length (rest c) - String.length (rest c')) (rest c).

Fixpoint group (n : nat) (cs : caps) : option string :=
  match cs with
  | [] => None
  | (m, s) :: r => if n =? m then Some s else group n r
  end.

Definition at_word_boundary (c : cursor) : bool :=
  let before := match fst c with Some a => is_word a | None => false end in
  let after := match rest c with String a _ => is_word a | EmptyString => false end in
  xorb before after.

Section Star.
Variable R : Type.
Variable body : cursor -> caps -> (cursor -> caps -> option R) -> option R.
Variable greedy : bool.

Fixpoint star_loop (fuel : nat) (c : cursor) (cs : caps)
         (k : cursor -> caps -> option R) : option R :=
  match fuel with
  | 0 => k c cs
  | S fuel' =>
      let more (_ : unit) :=
        body c cs (fun c' cs' =>
          if String.length (rest c') <? String.length (rest c)
          then star_loop fuel' c' cs' k
          else None) in
      if greedy
      then match more tt with Some x => Some x | None => k c cs end
      else match k c cs with Some x => Some x | None => more tt end
  end.
End Star.

Fixpoint rmatch (r : re) (R : Type) (c : cursor) (cs : caps)
         (k : cursor -> caps -> option R) {struct r} : option R :=
  match r with
  | Eps => k c cs
  | Chr p =>
      match rest c with
      | String a s => if p a then k (Some a, s) cs else None
      | EmptyString => None
      end
  | Seq a b => rmatch a c cs (fun c' cs' => rmatch b c' cs' k)
  | Alt a b =>
      match rmatch a c cs k with
      | Some x => Some x
      | None => rmatch b c cs k
      end
  | Star g a =>
      star_loop (fun c' cs' k' => rmatch a c' cs' k') g
                (String.length (rest c)) c cs k
  | Grp n a =>
      rmatch a c cs (fun c' cs' => k c' ((n, between c c') :: cs'))
  | Bol => match fst c with None => k c cs | Some _ => None end
  | Eol => match rest c with EmptyString => k c cs | _ => None end
  | WordB => if at_word_boundary c then k c cs else None
  | Ahead a =>
      match rmatch a c cs (fun _ cs' => Some cs') with
      | Some cs' => k c cs'
      | None => None
      end
  end.

(** One attempt at the cursor: the end of the match and its groups. *)
Definition match_here (r : re) (c : cursor) : option (cursor * caps) :=
  rmatch r c [] (fun c' cs => Some (c', cs)).

(** *** Building expressions *)

Definition chr (a : ascii) : re := Chr (Ascii.eqb a).
(** A literal unit under the [i] flag. *)
Definition chri (a : ascii) : re :=
  Chr (fun b => Ascii.eqb (to_lower a) (to_lower b)).
Definition notc (a : ascii) : re := Chr (fun b => negb (Ascii.eqb a b)).
Definition any : re := Chr (fun _ => true).          (* [\s\S] *)
Definition dot : re := Chr (fun a => negb (is_newline a)).
Definition plus (a : re) : re := Seq a (Star true a).

(** [\s]: one white space character, of one, two or three units. *)
Definition byte (n : nat) : re := Chr (fun a => code a =? n).
Definition space : re :=
  Alt (Chr is_space)
 (Alt (Seq (byte 194) (byte 160))
 (Alt (Seq (byte 225) (Seq (byte 154) (byte 128)))
 (Alt (Seq (byte 226) (Seq (byte 128) (Chr wide_space3_end)))
 (Alt (Seq (byte 226) (Seq (byte 129) (byte 159)))
 (Alt (Seq (byte 227) (Seq (byte 128) (byte 128)))
      (Seq (byte 239) (Seq (byte 187) (byte 191)))))))).
Definition opt (a : re) : re := Alt a Eps.

Fixpoint lit (s : string) : re :=
  match s with
  | EmptyString => Eps
  | String a r => Seq (chr a) (lit r)
  end.
Fixpoint liti (s : string) : re :=
  match s with
  | EmptyString => Eps
  | String a r => Seq (chri a) (liti r)
  end.

(** *** The string methods that take an expression *)

(** [re.test(s)]: a match at some position, the end included. *)
Fixpoint test_from (r : re) (fuel : nat) (c : cursor) : bool :=
  match match_here r c with
  | Some _ => true
  | None =>
      match fuel, advance c with
      | S fuel', Some c' => test_from r fuel' c'
      | _, _ => false
      end
  end.
Definition test (r : re) (s : string) : bool :=
  test_from r (String.length s) (start s).

(** [s.match(re)] and [s.matchAll(re)] with the [g] flag: the successive
    matches, each with its groups.  After an empty match the search
    resumes one unit further. *)
Fixpoint match_all_from (r : re) (fuel : nat) (c : cursor)
  : list (string * caps) :=
  match fuel with
  | 0 => []
  | S fuel' =>
      let next (_ : unit) :=
        match advance c with
        | Some c' => match_all_from r fuel' c'
        | None => []
        end in
      match match_here r c with
      | Some (c', cs) =>
          (between c c', cs)
            :: (if String.length (rest c') <? String.length (rest c)
                then match_all_from r fuel' c'
                else next tt)
      | None => next tt
      end
  end.
Definition match_all (r : re) (s : string) : list (string * caps) :=
  match_all_from r (S (String.length s)) (start s).

(** [s.replace(re, f)] with the [g] flag. *)
Fixpoint replace_all_from (r : re) (f : string -> caps -> string)
         (fuel : nat) (c : cursor) : string :=
  match fuel with
  | 0 => rest c
  | S fuel' =>
      let copy (_ : unit) :=
        match rest c with
        | String a s => String a (replace_all_from r f fuel' (Some a, s))
        | EmptyString => ""
        end in
      match match_here r c with
      | Some (c', cs) =>
          f (between c c') cs
            ++ (if String.length (rest c') <? String.length (rest c)
                then replace_all_from r f fuel' c'
                else copy tt)
      | None => copy tt
      end
  end.
Definition replace_all (r : re) (f : string -> caps -> string) (s : string)
  : string :=
  replace_all_from r f (S (String.length s)) (start s).

(** [s.replace(re, f)] without the [g] flag: the first match only. *)
Fixpoint replace_first_from (r : re) (f : string -> caps -> string)
         (fuel : nat) (c : cursor) : string :=
  match match_here r c with
  | Some (c', cs) => f (between c c') cs ++ rest c'
  | None =>
      match fuel, rest c with
      | S fuel', String a s =>
          String a (replace_first_from r f fuel' (Some a, s))
      | _, _ => rest c
      end
  end.
Definition replace_first (r : re) (f : string -> caps -> string)
           (s : string) : string :=
  replace_first_from r f (String.length s) (start s).

(** [s.split(re)]: [piece] is the text since the last separator.  A match
    that ends where the current piece starts is skipped. *)
Fixpoint split_from (r : re) (fuel : nat) (piece : string) (c : cursor)
  : list string :=
  match fuel with
  | 0 => [piece]
  | S fuel' =>
      match rest c with
      | EmptyString => [piece]
      | String a s =>
          let skip (_ : unit) :=
            split_from r fuel' (piece ++ Str.str1 a) (Some a, s) in
          match match_here r c with
          | Some (c', _) =>
              if (String.length (rest c') =? String.length (rest c))
                 && Str.is_empty piece
              then skip tt
              else piece :: split_from r fuel' "" c'
          | None => skip tt
          end
      end
  end.
Definition split (r : re) (s : string) : list string :=
  match s with
  | EmptyString =>
      match match_here r (start s) with Some _ => [] | None => [s] end
  | _ => split_from r (2 * String.length s + 2) "" (start s)
  end.

(** [s.includes(t)], [s.startsWith(t)] and splitting at a string. *)
Definition includes (t s : string) : bool := test (lit t) s.
Definition startsWith (t s : string) : bool :=
  match match_here (lit t) (start s) with Some _ => true | None => false end.
Definition split_str (sep s : string) : list string := split (lit sep) s.

End Regex.
Import Regex.

(* ===================================================================== *)
(** ** Utilities of the script *)
(* ===================================================================== *)

(** [/\D+/g] *)
Definition re_nondigits : re := plus (Chr (fun c => negb (is_digit c))).
(** [/^0+/] *)
Definition re_leading_zeros : re := Seq Bol (plus (chr "0")).

Definition erase : string -> caps -> string := fun _ _ => "".

(** [normalizeBarcode(b)] *)
Definition normalizeBarcode (b : option string) : option string :=
  match b with
  | None => None
  | Some b =>
      if Str.is_empty b then None else
      let digits := replace_all re_nondigits erase b in
      if Str.is_empty digits then None else
      if String.length digits =? 12 then Some digits else
      if String.length digits =? 13 then Some digits else
      let trimmed := replace_first re_leading_zeros erase digits in
      Some (if Str.is_empty trimmed then digits else trimmed)
  end.

(** A JavaScript [Set] of strings: its elements in insertion order. *)
Module JSSet.
Definition t : Type := list string.
Definition empty : t := [].
Definition has (x : string) (s : t) : bool := existsb (String.eqb x) s.
Definition add (s : t) (x : string) : t := if has x s then s else s ++ [x].
(** [new Set(arr)] *)
Definition of_list (l : list string) : t := fold_left add l empty.
(** [Array.from(set)] *)
Definition to_list (s : t) : list string := s.
End JSSet.

(** [dedupe(arr)]: [Array.from(new Set((arr || []).filter(Boolean)))] *)
Definition dedupe (arr : list string) : list string :=
  JSSet.to_list
    (JSSet.of_list (List.filter (fun x => negb (Str.is_empty x)) arr)).

(** [/<[^>]+>/g] *)
Definition re_tag : re := Seq (chr "<") (Seq (plus (notc ">")) (chr ">")).

(** [stripHtml(s)] *)
Definition stripHtml (s : string) : string := replace_all re_tag erase s.

(** [titleCase(s)]: [s.replace(/\b\w/g, c => c.toUpperCase())] *)
Definition titleCase (s : option string) : string :=
  replace_all (Seq WordB (Chr is_word)) (fun m _ => Str.toUpperCase m)
              (match s with Some s => s | None => "" end).

(** *** Percent encoding *)

Definition hex_digit (n : nat) : ascii :=
  if n <? 10 then ascii_of_nat (48 + n) else ascii_of_nat (55 + n).

Definition percent (c : ascii) : string :=
  String "%" (String (hex_digit (code c / 16))
                     (String (hex_digit (code c mod 16)) "")).

Definition is_alnum (c : ascii) : bool := is_alpha c || is_digit c.

Definition one_of (set : string) (c : ascii) : bool :=
  negb (Str.is_empty (Str.filter (Ascii.eqb c) set)).

Fixpoint encode_with (keep : ascii -> bool) (space : string) (s : string)
  : string :=
  match s with
  | EmptyString => ""
  | String c r =>
      (if keep c then Str.str1 c
       else if Ascii.eqb c " " then space
       else percent c) ++ encode_with keep space r
  end.

(** [encodeURIComponent(s)] *)
Definition encodeURIComponent (s : string) : string :=
  encode_with (fun c => is_alnum c || one_of "-_.!~*'()" c) "%20" s.

(** [new URLSearchParams({...}).toString()] *)
Definition form_urlencode (kvs : list (string * string)) : string :=
  let enc := encode_with (fun c => is_alnum c || one_of "*-._" c) "+" in
  Str.join "&" (List.map (fun kv => (enc (fst kv) ++ "=" ++ enc (snd kv))%string) kvs).

Definition hex_value (c : ascii) : option nat :=
  if is_digit c then Some (code c - 48)
  else if Chars.between 65 70 c then Some (code c - 55)
  else if Chars.between 97 102 c then Some (code c - 87)
  else None.

(** The octet that the two hexadecimal digits of an escape denote. *)
Definition octet (h l : ascii) : option nat :=
  match hex_value h, hex_value l with
  | Some a, Some b => Some (16 * a + b)
  | _, _ => None
  end.

(** How many octets follow the first octet [b] of a UTF-8 sequence:
    none after [0xxxxxxx], one to three after [110xxxxx], [1110xxxx] and
    [11110xxx]; any other octet starts no sequence. *)
Definition utf8_more (b : nat) : option nat :=
  if b <? 128 then Some 0
  else if b <? 192 then None
  else if b <? 224 then Some 1
  else if b <? 240 then Some 2
  else if b <? 248 then Some 3
  else None.

Definition in_range (lo hi n : nat) : bool := (lo <=? n) && (n <=? hi).

(** The octets [b :: more] are the UTF-8 encoding of a code point: no
    overlong form, no surrogate, nothing above U+10FFFF. *)
Definition utf8_valid (b : nat) (more : list nat) : bool :=
  match more with
  | [b1] => in_range 194 223 b && in_range 128 191 b1
  | [b1; b2] =>
      ((b =? 224) && in_range 160 191 b1
       || in_range 225 236 b && in_range 128 191 b1
       || (b =? 237) && in_range 128 159 b1
       || in_range 238 239 b && in_range 128 191 b1)
      && in_range 128 191 b2
  | [b1; b2; b3] =>
      ((b =? 240) && in_range 144 191 b1
       || in_range 241 243 b && in_range 128 191 b1
       || (b =? 244) && in_range 128 143 b1)
      && in_range 128 191 b2 && in_range 128 191 b3
  | _ => false
  end.

Definition string_of_octets (l : list nat) : string :=
  fold_right (fun b r => String (ascii_of_nat b) r) "" l.

(** The loop of [decodeURIComponent].  [pending] is the number of escapes
    that must follow to complete the sequence that [lead] started, [seen]
    the octets of the escapes met since.  With nothing pending, a unit
    other than [%] is copied, an escape below 128 gives its character and
    an escape that starts a sequence is remembered; with escapes pending,
    only an escape may follow, and the completed sequence is checked and
    copied.  [None] is the [URIError]. *)
Fixpoint decode (pending lead : nat) (seen : list nat) (s : string)
  : option string :=
  match pending, s with
  | 0, EmptyString => Some ""
  | 0, String "%" (String h (String l r)) =>
      match octet h l with
      | None => None
      | Some b =>
          match utf8_more b with
          | None => None
          | Some 0 => option_map (String (ascii_of_nat b)) (decode 0 0 [] r)
          | Some n => decode n b [] r
          end
      end
  | 0, String "%" _ => None
  | 0, String c r => option_map (String c) (decode 0 0 [] r)
  | S p, String "%" (String h (String l r)) =>
      match octet h l with
      | None => None
      | Some b =>
          let seen := seen ++ [b] in
          match p with
          | 0 =>
              if utf8_valid lead seen
              then option_map
                     (fun t => string_of_octets (lead :: seen) ++ t)%string
                     (decode 0 0 [] r)
              else None
          | S _ => decode p lead seen r
          end
      end
  | S _, _ => None
  end.

(** [decodeURIComponent(s)]: [None] is the [URIError] of an escape that is
    cut short or not hexadecimal, or of escapes that are not the UTF-8
    encoding of a character.  A decoded character stands in the result as
    its UTF-8 octets, as every character of a string does. *)
Definition decodeURIComponent (s : string) : option string :=
  decode 0 0 [] s.

(* ===================================================================== *)
(** ** The seed *)
(* ===================================================================== *)

Module Seed.
Record t : Type := mk {
  upc : option string;
  mbid : option string;
  mb_release_mbid : option string;
  mb_release_group : option string;
  mb_artist_id : option string;
  discogs : option string;
  discogs_master_id : option string;
  qid : option string;
  title : option string;
  artist : option string
}.

Definition set_upc (v : option string) (s : t) : t :=
  mk v (mbid s) (mb_release_mbid s) (mb_release_group s) (mb_artist_id s)
     (discogs s) (discogs_master_id s) (qid s) (title s) (artist s).
Definition set_mbid (v : option string) (s : t) : t :=
  mk (upc s) v (mb_release_mbid s) (mb_release_group s) (mb_artist_id s)
     (discogs s) (discogs_master_id s) (qid s) (title s) (artist s).
Definition set_mb_release_group (v : option string) (s : t) : t :=
  mk (upc s) (mbid s) (mb_release_mbid s) v (mb_artist_id s)
     (discogs s) (discogs_master_id s) (qid s) (title s) (artist s).
Definition set_mb_artist_id (v : option string) (s : t) : t :=
  mk (upc s) (mbid s) (mb_release_mbid s) (mb_release_group s) v
     (discogs s) (discogs_master_id s) (qid s) (title s) (artist s).
Definition set_discogs (v : option string) (s : t) : t :=
  mk (upc s) (mbid s) (mb_release_mbid s) (mb_release_group s)
     (mb_artist_id s) v (discogs_master_id s) (qid s) (title s) (artist s).
Definition set_discogs_master_id (v : option string) (s : t) : t :=
  mk (upc s) (mbid s) (mb_release_mbid s) (mb_release_group s)
     (mb_artist_id s) (discogs s) v (qid s) (title s) (artist s).
Definition set_qid (v : option string) (s : t) : t :=
  mk (upc s) (mbid s) (mb_release_mbid s) (mb_release_group s)
     (mb_artist_id s) (discogs s) (discogs_master_id s) v (title s)
     (artist s).
Definition set_title (v : option string) (s : t) : t :=
  mk (upc s) (mbid s) (mb_release_mbid s) (mb_release_group s)
     (mb_artist_id s) (discogs s) (discogs_master_id s) (qid s) v
     (artist s).
Definition set_artist (v : option string) (s : t) : t :=
  mk (upc s) (mbid s) (mb_release_mbid s) (mb_release_group s)
     (mb_artist_id s) (discogs s) (discogs_master_id s) (qid s) (title s)
     v.

(** The seed of a request without parameters. *)
Definition empty : t :=
  mk None None None None None None None None None None.
End Seed.

(** [url.searchParams]: the query parameters in order; [get] returns the
    first value of a name, or [null]. *)
Definition SearchParams : Type := list (string * string).

Fixpoint searchParams_get (ps : SearchParams) (name : string)
  : option string :=
  match ps with
  | [] => None
  | (k, v) :: r => if String.eqb k name then Some v else searchParams_get r name
  end.

(** [/^([a-z_]+):(.{0,})$/i], the source writing the last repetition
    with a star. *)
Definition re_token : re :=
  Seq Bol
    (Seq (Grp 1 (plus (Chr (fun c => is_alpha c || Ascii.eqb c "_"))))
       (Seq (chr ":") (Seq (Grp 2 (Star true dot)) Eol))).

(** [/^"(.+)"$/] *)
Definition re_quoted : re :=
  Seq Bol (Seq (chr dquote) (Seq (Grp 1 (plus dot)) (Seq (chr dquote) Eol))).

(** [v.replace(re, "$1")] *)
Definition group1 : string -> caps -> string :=
  fun _ cs => match group 1 cs with Some g => g | None => "" end.

(** One iteration of the token loop of [parseSeed]. *)
Definition parseToken (seed : Seed.t) (p : string) : Seed.t :=
  match match_here re_token (start p) with
  | None => seed
  | Some (_, m) =>
      let k := Str.toLowerCase (group1 "" m) in
      let v := replace_first re_quoted group1
                 (match group 2 m with Some g => g | None => "" end) in
      let seed :=
        if String.eqb k "upc" || String.eqb k "ean" || String.eqb k "barcode"
        then Seed.set_upc (Some v) seed else seed in
      let seed := if String.eqb k "mbid" then Seed.set_mbid (Some v) seed else seed in
      let seed := if String.eqb k "discogs" then Seed.set_discogs (Some v) seed else seed in
      let seed := if String.eqb k "qid" then Seed.set_qid (Some v) seed else seed in
      let seed := if String.eqb k "artist" then Seed.set_artist (Some v) seed else seed in
      let seed := if String.eqb k "title" then Seed.set_title (Some v) seed else seed in
      seed
  end.

(** [parseSeed(url, cmd)] *)
Definition parseSeed (url : SearchParams) (cmd : option string) : Seed.t :=
  let get := searchParams_get url in
  let seed :=
    Seed.mk (or_else (or_else (get "upc") (get "ean")) (get "barcode"))
            (get "mbid")
            (get "mb_release_mbid")
            (get "mb_release_group")
            (get "mb_artist_id")
            (or_else (get "discogs") (get "discogs_release_id"))
            (get "discogs_master_id")
            (get "qid")
            (get "title")
            (get "artist") in
  if truthy cmd then
    let lower := Str.trim (match cmd with Some c => c | None => "" end) in
    let parts := split (plus space) lower in
    fold_left parseToken parts seed
  else seed.

(* ===================================================================== *)
(** ** The output document *)
(* ===================================================================== *)

(** [{id, url}] *)
Record IdRef : Type := mkIdRef { id : option string; url : string }.

(** A template literal prints an absent value as [undefined]. *)
Definition tmpl (v : option string) : string :=
  match v with Some s => s | None => "undefined" end.

Definition string_of_nat (n : nat) : string :=
  DecimalString.NilZero.string_of_uint (Nat.to_uint n).

(** A value that a provider sends as a number or as a string: the
    identifiers and the year of a Discogs hit. *)
Inductive Scalar : Type :=
| Num (n : nat)
| Text (s : string).

(** Truthiness of a possibly absent scalar: zero and the empty string are
    falsy. *)
Definition scalar_truthy (v : option Scalar) : bool :=
  match v with
  | Some (Num n) => negb (n =? 0)
  | Some (Text s) => negb (Str.is_empty s)
  | None => false
  end.

(** [String(v)], which is also what a template literal prints. *)
Definition scalar_string (v : option Scalar) : string :=
  match v with
  | Some (Num n) => string_of_nat n
  | Some (Text s) => s
  | None => "undefined"
  end.

(** The label of a release as the document holds it: MusicBrainz gives
    the name of the label, a string, and Discogs the names of the labels
    of the release, an array. *)
Inductive Label : Type :=
| LabelName (name : string)
| LabelNames (names : list string).

(** Truthiness of a possibly absent label: an array is truthy, also when
    it is empty. *)
Definition label_truthy (v : option Label) : bool :=
  match v with
  | Some (LabelName name) => negb (Str.is_empty name)
  | Some (LabelNames _) => true
  | None => false
  end.

Module Canonical.
Record t : Type := mk {
  title : option string;
  artist : option string;
  label : option Label;
  catalog_number : option string;
  year : option string;
  country : option string;
  format : list string;
  genre : list string;
  cover_url : option string;
  upc : option string
}.
Definition set_title v (c : t) :=
  mk v (artist c) (label c) (catalog_number c) (year c) (country c)
     (format c) (genre c) (cover_url c) (upc c).
Definition set_artist v (c : t) :=
  mk (title c) v (label c) (catalog_number c) (year c) (country c)
     (format c) (genre c) (cover_url c) (upc c).
Definition set_label v (c : t) :=
  mk (title c) (artist c) v (catalog_number c) (year c) (country c)
     (format c) (genre c) (cover_url c) (upc c).
Definition set_catalog_number v (c : t) :=
  mk (title c) (artist c) (label c) v (year c) (country c)
     (format c) (genre c) (cover_url c) (upc c).
Definition set_year v (c : t) :=
  mk (title c) (artist c) (label c) (catalog_number c) v (country c)
     (format c) (genre c) (cover_url c) (upc c).
Definition set_country v (c : t) :=
  mk (title c) (artist c) (label c) (catalog_number c) (year c) v
     (format c) (genre c) (cover_url c) (upc c).
Definition set_format v (c : t) :=
  mk (title c) (artist c) (label c) (catalog_number c) (year c) (country c)
     v (genre c) (cover_url c) (upc c).
Definition set_genre v (c : t) :=
  mk (title c) (artist c) (label c) (catalog_number c) (year c) (country c)
     (format c) v (cover_url c) (upc c).
Definition set_cover_url v (c : t) :=
  mk (title c) (artist c) (label c) (catalog_number c) (year c) (country c)
     (format c) (genre c) v (upc c).
Definition set_upc v (c : t) :=
  mk (title c) (artist c) (label c) (catalog_number c) (year c) (country c)
     (format c) (genre c) (cover_url c) v.
(** [canonical: { format: [], genre: [] }] *)
Definition init : t := mk None None None None None None [] [] None None.
End Canonical.

Module Ids.
Record t : Type := mk {
  discogs_release_id : option IdRef;
  discogs_master_id : option IdRef;
  mb_release_mbid : option IdRef;
  mb_release_group : option IdRef;
  mb_artist_id : option IdRef;
  wikidata_qid : option IdRef;
  artist_wikidata_qid : option IdRef;
  wikipedia_title : option IdRef
}.
Definition set_discogs_release_id v (i : t) :=
  mk v (discogs_master_id i) (mb_release_mbid i) (mb_release_group i)
     (mb_artist_id i) (wikidata_qid i) (artist_wikidata_qid i)
     (wikipedia_title i).
Definition set_discogs_master_id v (i : t) :=
  mk (discogs_release_id i) v (mb_release_mbid i) (mb_release_group i)
     (mb_artist_id i) (wikidata_qid i) (artist_wikidata_qid i)
     (wikipedia_title i).
Definition set_mb_release_mbid v (i : t) :=
  mk (discogs_release_id i) (discogs_master_id i) v (mb_release_group i)
     (mb_artist_id i) (wikidata_qid i) (artist_wikidata_qid i)
     (wikipedia_title i).
Definition set_mb_release_group v (i : t) :=
  mk (discogs_release_id i) (discogs_master_id i) (mb_release_mbid i) v
     (mb_artist_id i) (wikidata_qid i) (artist_wikidata_qid i)
     (wikipedia_title i).
Definition set_mb_artist_id v (i : t) :=
  mk (discogs_release_id i) (discogs_master_id i) (mb_release_mbid i)
     (mb_release_group i) v (wikidata_qid i) (artist_wikidata_qid i)
     (wikipedia_title i).
Definition set_wikidata_qid v (i : t) :=
  mk (discogs_release_id i) (discogs_master_id i) (mb_release_mbid i)
     (mb_release_group i) (mb_artist_id i) v (artist_wikidata_qid i)
     (wikipedia_title i).
Definition set_artist_wikidata_qid v (i : t) :=
  mk (discogs_release_id i) (discogs_master_id i) (mb_release_mbid i)
     (mb_release_group i) (mb_artist_id i) (wikidata_qid i) v
     (wikipedia_title i).
Definition set_wikipedia_title v (i : t) :=
  mk (discogs_release_id i) (discogs_master_id i) (mb_release_mbid i)
     (mb_release_group i) (mb_artist_id i) (wikidata_qid i)
     (artist_wikidata_qid i) v.
(** [ids: {}] *)
Definition init : t := mk None None None None None None None None.

(** [ref?.id], tested for truthiness. *)
Definition id_of (r : option IdRef) : option string :=
  match r with Some r => if truthy (id r) then id r else None | None => None end.
End Ids.

(** [{license, artist, caption}] *)
Record ImageCredit : Type := mkImageCredit {
  credit_license : string;
  credit_artist : string;
  credit_caption : string
}.

(** One gallery entry.  [url] is what [it?.url] reads. *)
Module GalleryItem.
Record t : Type := mk {
  source : string;
  role : string;
  title : string;
  url : option string;
  width : option nat;
  height : option nat;
  mime : option string;
  credit : option ImageCredit
}.
End GalleryItem.

Module Wiki.
Record t : Type := mk {
  article_gallery : list GalleryItem.t;
  album_gallery : list GalleryItem.t;
  artist_gallery : list GalleryItem.t
}.
Definition init : t := mk [] [] [].
End Wiki.

(** [{no, title}] *)
Record Track : Type := mkTrack { no : string; track_title : string }.

(** The extraction fields of [out.wikipedia]; an absent field is [None]. *)
Module Wikipedia.
Section Doc.
(** The type of a stored response document (the infobox). *)
Variable Doc : Type.
Record t : Type := mk {
  title : option string;
  summary : option string;
  infobox : option Doc;
  tracklist : option (list Track);
  personnel : option (list string);
  awards : option (list string);
  certifications : option (list string);
  landmarks : option (list string)
}.
Definition set_summary_title ti su (w : t) :=
  mk ti su (infobox w) (tracklist w) (personnel w) (awards w)
     (certifications w) (landmarks w).
Definition set_infobox v (w : t) :=
  mk (title w) (summary w) v (tracklist w) (personnel w) (awards w)
     (certifications w) (landmarks w).
Definition set_tracklist v (w : t) :=
  mk (title w) (summary w) (infobox w) v (personnel w) (awards w)
     (certifications w) (landmarks w).
Definition set_personnel v (w : t) :=
  mk (title w) (summary w) (infobox w) (tracklist w) v (awards w)
     (certifications w) (landmarks w).
Definition set_awards v (w : t) :=
  mk (title w) (summary w) (infobox w) (tracklist w) (personnel w) v
     (certifications w) (landmarks w).
Definition set_certifications v (w : t) :=
  mk (title w) (summary w) (infobox w) (tracklist w) (personnel w)
     (awards w) v (landmarks w).
Definition set_landmarks v (w : t) :=
  mk (title w) (summary w) (infobox w) (tracklist w) (personnel w)
     (awards w) (certifications w) v.
(** [wikipedia: {}] *)
Definition init : t := mk None None None None None None None None.
End Doc.
End Wikipedia.

(** A line of an HTTP log: [{url, status}]. *)
Record HttpLog : Type := mkHttpLog { log_url : string; log_status : nat }.

(** The four HTTP logs of the diagnostics; a caller of [GETjson] passes one
    of them. *)
Inductive LogName : Type := MbHttp | DiscogsHttp | WikiHttp | WdHttp.

Module Diagnostics.
Record t : Type := mk {
  matched_on : option string;
  notes : list string;
  tried_barcodes : list string;
  mb_http : list HttpLog;
  discogs_http : list HttpLog;
  wiki_http : list HttpLog;
  wd_http : list HttpLog
}.
Definition set_matched_on v (d : t) :=
  mk v (notes d) (tried_barcodes d) (mb_http d) (discogs_http d)
     (wiki_http d) (wd_http d).
Definition set_notes v (d : t) :=
  mk (matched_on d) v (tried_barcodes d) (mb_http d) (discogs_http d)
     (wiki_http d) (wd_http d).
Definition set_tried_barcodes v (d : t) :=
  mk (matched_on d) (notes d) v (mb_http d) (discogs_http d)
     (wiki_http d) (wd_http d).
Definition http (l : LogName) (d : t) : list HttpLog :=
  match l with
  | MbHttp => mb_http d
  | DiscogsHttp => discogs_http d
  | WikiHttp => wiki_http d
  | WdHttp => wd_http d
  end.
(** [log.push(entry)] on the log named [l]. *)
Definition push_http (l : LogName) (e : HttpLog) (d : t) : t :=
  match l with
  | MbHttp =>
      mk (matched_on d) (notes d) (tried_barcodes d) (mb_http d ++ [e])
         (discogs_http d) (wiki_http d) (wd_http d)
  | DiscogsHttp =>
      mk (matched_on d) (notes d) (tried_barcodes d) (mb_http d)
         (discogs_http d ++ [e]) (wiki_http d) (wd_http d)
  | WikiHttp =>
      mk (matched_on d) (notes d) (tried_barcodes d) (mb_http d)
         (discogs_http d) (wiki_http d ++ [e]) (wd_http d)
  | WdHttp =>
      mk (matched_on d) (notes d) (tried_barcodes d) (mb_http d)
         (discogs_http d) (wiki_http d) (wd_http d ++ [e])
  end.
Definition init : t := mk None [] [] [] [] [] [].
End Diagnostics.

(** [{all, images, lang, max_images}] *)
Record Flags : Type := mkFlags {
  all : bool;
  images : string;
  lang : string;
  max_images : nat
}.

(* ===================================================================== *)
(** ** Provider documents

    A response body is decoded into the fields the script reads; a field
    that is absent or [null] is [None] (or the empty list).  The
    identifiers and the year of a Discogs hit, which Discogs sends as
    numbers, are scalars; its label is a [Label]. *)
(* ===================================================================== *)

Module Discogs.
(** An element of [data.results]. *)
Record Hit : Type := mkHit {
  hit_id : option Scalar;
  master_id : option Scalar;
  country : option string;
  label : option Label;
  genre : list string;
  style : list string;
  title : option string;
  year : option Scalar;
  thumb : option string
}.
End Discogs.

Module MB.
(** An element of [full["artist-credit"]]: [ac.name] and [ac.artist.id]. *)
Record ArtistCredit : Type := mkArtistCredit {
  name : option string;
  artist_id : option string
}.
(** An element of [full["label-info"]]: [li.label.name] and
    [li.catalog_number]. *)
Record LabelInfo : Type := mkLabelInfo {
  label_name : option string;
  catalog_number : option string
}.
(** [full["release-group"]] *)
Record ReleaseGroup : Type := mkReleaseGroup { rg_id : option string }.
(** A release, as a search result or as the detail document.  [tags]
    holds each [t.name]; [relations] holds each [rel.url.resource]. *)
Record Release : Type := mkRelease {
  rel_id : option string;
  title : option string;
  release_group : option ReleaseGroup;
  artist_credit : list ArtistCredit;
  country : option string;
  date : option string;
  label_info : list (option LabelInfo);
  tags : list (option string);
  relations : list (option string)
}.
(** A document with none of these fields. *)
Definition no_fields : Release := mkRelease None None None [] None None [] [] [].
End MB.

Module WD.
(** [sn.mainsnak.datavalue.value]: a string, or an object with its [id]. *)
Inductive DataValue : Type :=
| DvString (s : string)
| DvObject (id : option string).
(** An entity: its claims by property and [sitelinks.enwiki.title]. *)
Record Entity : Type := mkEntity {
  claims : list (string * list (option DataValue));
  enwiki_title : option string
}.
End WD.

Module WP.
(** The page summary: [title], [extract], [thumbnail.source]. *)
Record Summary : Type := mkSummary {
  title : option string;
  extract : option string;
  thumbnail_source : option string
}.
(** An element of [mediaList.items]: [title] and the [src] of each entry
    of [srcset] ([None] when [srcset] is absent or no array). *)
Record MediaItem : Type := mkMediaItem {
  item_title : option string;
  srcset : option (list (option string))
}.
End WP.

Module Commons.
(** [imageinfo[0]] with the [value] of each [extmetadata] entry read. *)
Record ImageInfo : Type := mkImageInfo {
  ii_url : option string;
  ii_width : option nat;
  ii_height : option nat;
  ii_mime : option string;
  LicenseShortName : option string;
  License : option string;
  Artist : option string;
  Credit : option string;
  AttributionRequired : option string;
  ImageDescription : option string
}.
(** A value of [query.pages]. *)
Record Page : Type := mkPage {
  page_title : option string;
  imageinfo : list ImageInfo
}.
End Commons.

(** The body of a response, as [r.json()] sees it.  A body that is not
    JSON makes [json()] throw a [SyntaxError]; [why] is its message, which
    the parser of the runtime words. *)
Inductive Body : Type :=
| BInvalid (why : string)                     (* not JSON *)
| BFalsy                                      (* null, false, 0, the empty string *)
| BScalar                                     (* any other value that is no object *)
| BObject                                     (* an object with none of the fields read *)
| BDiscogsSearch (results : list Discogs.Hit)
| BMBSearch (releases : list MB.Release)
| BMBRelease (full : MB.Release)
| BEntities (entities : list (string * WD.Entity))
| BSparql (bindings : list (option string))   (* each [binding.item.value] *)
| BSummary (sum : WP.Summary)
| BMediaList (items : list WP.MediaItem)
| BCommons (pages : list Commons.Page).

(** [!data] for what [GETjson] returns. *)
Definition doc_truthy (d : option Body) : bool :=
  match d with
  | None | Some BFalsy | Some (BInvalid _) => false
  | Some _ => true
  end.

(** [typeof info === "object"] for a truthy value. *)
Definition doc_is_object (d : option Body) : bool :=
  match d with
  | None | Some BFalsy | Some (BInvalid _) | Some BScalar => false
  | Some _ => true
  end.

(* ===================================================================== *)
(** ** The world: network, timer, clock *)
(* ===================================================================== *)

(** What the script throws or what a failed [fetch] rejects with. *)
Record Exn : Type := mkExn { exn_name : string; exn_message : string }.

(** [String(e)], the [toString] of an error: the name alone when the
    message is empty, the message alone when the name is empty, and the
    two around a colon otherwise. *)
Definition Exn_toString (e : Exn) : string :=
  if Str.is_empty (exn_name e) then exn_message e
  else if Str.is_empty (exn_message e) then exn_name e
  else (exn_name e ++ ": " ++ exn_message e)%string.

Record Request : Type := mkRequest {
  rq_url : string;
  rq_method : string;
  rq_headers : list (string * string);
  rq_body : option string
}.

Record Response : Type := mkResponse {
  status : nat;
  text : string;
  body : Body
}.

(** [r.ok] *)
Definition ok (r : Response) : bool := (200 <=? status r) && (status r <=? 299).

Inductive Event : Type :=
| EvFetch (rq : Request)
| EvSleep (ms : nat)
| EvNow.

Inductive Outcome : Type :=
| NetFail (e : Exn)
| Reply (r : Response).

(** The environment answers a request, and tells the time, from the events
    that happened before. *)
Record Env : Type := mkEnv {
  net : list Event -> Request -> Outcome;
  clock : list Event -> string
}.

(** The output document.  The constant fields [wikidata: {}] and
    [personnel: []] of [initOut] are never touched and are left out. *)
Module Out.
Record t : Type := mk {
  schema_version : string;
  timestamp : string;
  flags : Flags;
  canonical : Canonical.t;
  ids : Ids.t;
  wikipedia : Wikipedia.t Body;
  wiki : Wiki.t;
  image_urls : list string;             (* downloads.image_urls *)
  diagnostics : Diagnostics.t;
  ts_start : option string;
  ts_done : option string
}.
Definition upd_canonical (f : Canonical.t -> Canonical.t) (o : t) :=
  mk (schema_version o) (timestamp o) (flags o) (f (canonical o)) (ids o)
     (wikipedia o) (wiki o) (image_urls o) (diagnostics o) (ts_start o)
     (ts_done o).
Definition upd_ids (f : Ids.t -> Ids.t) (o : t) :=
  mk (schema_version o) (timestamp o) (flags o) (canonical o) (f (ids o))
     (wikipedia o) (wiki o) (image_urls o) (diagnostics o) (ts_start o)
     (ts_done o).
Definition upd_wikipedia (f : Wikipedia.t Body -> Wikipedia.t Body) (o : t) :=
  mk (schema_version o) (timestamp o) (flags o) (canonical o) (ids o)
     (f (wikipedia o)) (wiki o) (image_urls o) (diagnostics o) (ts_start o)
     (ts_done o).
Definition upd_wiki (f : Wiki.t -> Wiki.t) (o : t) :=
  mk (schema_version o) (timestamp o) (flags o) (canonical o) (ids o)
     (wikipedia o) (f (wiki o)) (image_urls o) (diagnostics o) (ts_start o)
     (ts_done o).
Definition set_image_urls (v : list string) (o : t) :=
  mk (schema_version o) (timestamp o) (flags o) (canonical o) (ids o)
     (wikipedia o) (wiki o) v (diagnostics o) (ts_start o) (ts_done o).
Definition upd_diagnostics (f : Diagnostics.t -> Diagnostics.t) (o : t) :=
  mk (schema_version o) (timestamp o) (flags o) (canonical o) (ids o)
     (wikipedia o) (wiki o) (image_urls o) (f (diagnostics o)) (ts_start o)
     (ts_done o).
Definition set_ts_start (v : option string) (o : t) :=
  mk (schema_version o) (timestamp o) (flags o) (canonical o) (ids o)
     (wikipedia o) (wiki o) (image_urls o) (diagnostics o) v (ts_done o).
Definition set_ts_done (v : option string) (o : t) :=
  mk (schema_version o) (timestamp o) (flags o) (canonical o) (ids o)
     (wikipedia o) (wiki o) (image_urls o) (diagnostics o) (ts_start o) v.
End Out.

(* ===================================================================== *)
(** ** The monad of the script *)
(* ===================================================================== *)

(** The mutable output object and the events so far. *)
Record St : Type := mkSt { out : Out.t; trace : list Event }.

Inductive Res (A : Type) : Type :=
| Ok (a : A)
| Throw (e : Exn).
Arguments Ok {A} a.
Arguments Throw {A} e.

Definition M (A : Type) : Type := St -> Res A * St.

Definition ret {A} (a : A) : M A := fun s => (Ok a, s).

Definition bind {A B} (m : M A) (f : A -> M B) : M B :=
  fun s =>
    match m s with
    | (Ok a, s') => f a s'
    | (Throw e, s') => (Throw e, s')
    end.

Definition throw {A} (e : Exn) : M A := fun s => (Throw e, s).

(** [try { m } catch (e) { h e }] *)
Definition try_catch {A} (m : M A) (h : Exn -> M A) : M A :=
  fun s =>
    match m s with
    | (Ok a, s') => (Ok a, s')
    | (Throw e, s') => h e s'
    end.

Declare Scope monad_scope.
Delimit Scope monad_scope with monad.
Notation "x <- m ;; k" := (bind m (fun x => k))
  (at level 61, m at next level, right associativity) : monad_scope.
Notation "m ;; k" := (bind m (fun _ => k))
  (at level 61, right associativity) : monad_scope.
Local Open Scope monad_scope.

(** Reading and mutating [out]. *)
Definition gets {A} (f : Out.t -> A) : M A := fun s => (Ok (f (out s)), s).
Definition modify (f : Out.t -> Out.t) : M unit :=
  fun s => (Ok tt, mkSt (f (out s)) (trace s)).

(** [if (b) m] *)
Definition when (b : bool) (m : M unit) : M unit := if b then m else ret tt.
(** [if (c) m], the condition reading [out]. *)
Definition whenS (c : Out.t -> bool) (m : M unit) : M unit :=
  fun s => if c (out s) then m s else (Ok tt, s).

(** [for (const x of l) f(x)] *)
Fixpoint forM_ {A} (l : list A) (f : A -> M unit) : M unit :=
  match l with
  | [] => ret tt
  | x :: r => f x ;; forM_ r f
  end.

Definition modify_canonical (f : Canonical.t -> Canonical.t) : M unit :=
  modify (Out.upd_canonical f).
Definition modify_ids (f : Ids.t -> Ids.t) : M unit :=
  modify (Out.upd_ids f).
Definition modify_wikipedia (f : Wikipedia.t Body -> Wikipedia.t Body)
  : M unit :=
  modify (Out.upd_wikipedia f).

(** [out.diagnostics.notes.push(msg)] *)
Definition push_note (msg : string) : M unit :=
  modify (Out.upd_diagnostics
            (fun d => Diagnostics.set_notes (Diagnostics.notes d ++ [msg]) d)).
(** [diagArr.push({url, status})] *)
Definition push_http (l : LogName) (u : string) (st : nat) : M unit :=
  modify (Out.upd_diagnostics (Diagnostics.push_http l (mkHttpLog u st))).

(** [r.json()] *)
Definition json (r : Response) : M Body :=
  match body r with
  | BInvalid why => throw (mkExn "SyntaxError" why)
  | b => ret b
  end.

Definition UA : string :=
  "vinylcollection-enricher/4.3.0 (contact: https://vinylcollection.vip; bot: true)".
Definition JSON_H : list (string * string) :=
  [("accept", "application/json"); ("user-agent", UA)].

Definition GET (u : string) (headers : list (string * string)) : Request :=
  mkRequest u "GET" headers None.

Definition nonempty (s : string) : bool := negb (Str.is_empty s).

Section World.

Variable env : Env.

(** [await fetch(url, init)] *)
Definition fetch (rq : Request) : M Response :=
  fun s =>
    let s' := mkSt (out s) (trace s ++ [EvFetch rq]) in
    match net env (trace s) rq with
    | NetFail e => (Throw e, s')
    | Reply r => (Ok r, s')
    end.

(** [await new Promise(res => setTimeout(res, ms))] *)
Definition sleep (ms : nat) : M unit :=
  fun s => (Ok tt, mkSt (out s) (trace s ++ [EvSleep ms])).

(** [new Date().toISOString()] *)
Definition now : M string :=
  fun s => (Ok (clock env (trace s)), mkSt (out s) (trace s ++ [EvNow])).

(** [GETjson(base, path, diagArr, qs = "")] *)
Definition GETjson (base path : string) (diagArr : LogName) (qs : string)
  : M (option Body) :=
  let url :=
    (base ++ path ++
       (if nonempty qs
        then (if includes "?" path then "&" else "?") ++ qs
        else ""))%string in
  r <- fetch (GET url JSON_H) ;;
  push_http diagArr (path ++ (if nonempty qs then "?" ++ qs else ""))%string
            (status r) ;;
  if status r =? 429 then
    (* single backoff retry *)
    sleep 2000 ;;
    retry <- fetch (GET url JSON_H) ;;
    push_http diagArr (path ++ " (retry)")%string (status retry) ;;
    if negb (ok retry) then ret None
    else (b <- json retry ;; ret (Some b))
  else if ok r then (b <- json r ;; ret (Some b))
  else ret None.

End World.

(* ===================================================================== *)
(** ** Normalising the seed *)
(* ===================================================================== *)

(** [s.padStart(n, "0")] *)
Fixpoint zeros (n : nat) : string :=
  match n with 0 => "" | S k => String "0" (zeros k) end.
Definition padStart0 (n : nat) (s : string) : string :=
  (zeros (n - String.length s) ++ s)%string.

(** [out.diagnostics.tried_barcodes.push(bc)] *)
Definition push_tried (bc : string) : M unit :=
  modify (Out.upd_diagnostics
            (fun d => Diagnostics.set_tried_barcodes
                        (Diagnostics.tried_barcodes d ++ [bc]) d)).

(** [normalizeSeed(seed, out)]: the seed with its canonical barcode; the
    variants to try are pushed on [out.diagnostics.tried_barcodes]. *)
Definition normalizeSeed (seed : Seed.t) : M Seed.t :=
  let seed := Seed.set_upc (normalizeBarcode (Seed.upc seed)) seed in
  when (truthy (Seed.upc seed)) (push_tried (tmpl (Seed.upc seed))) ;;
  (* also test leading-0 13-digit if we have a 12-digit UPC *)
  when (truthy (Seed.upc seed)
        && (String.length (tmpl (Seed.upc seed)) =? 12))
       (let upc13 := padStart0 13 ("0" ++ tmpl (Seed.upc seed)) in
        push_tried upc13) ;;
  ret seed.

(* ===================================================================== *)
(** ** Discogs *)
(* ===================================================================== *)

(** The separator of a Discogs title: space, en dash (U+2013), space. *)
Definition en_dash_sep : string :=
  String " " (String "226" (String "128" (String "147" (String " " "")))).

(** [data.results], the empty list when it is absent. *)
Definition discogs_results (data : option Body) : list Discogs.Hit :=
  match data with
  | Some (BDiscogsSearch results) => results
  | _ => []
  end.

Definition is_nil {A} (l : list A) : bool :=
  match l with [] => true | _ => false end.

Section Stages.

Variable env : Env.

(** [resolveDiscogsByUPC(seed, out)] *)
Definition resolveDiscogsByUPC (seed : Seed.t) : M unit :=
  if negb (truthy (Seed.upc seed)) then ret tt else
  data <- GETjson env "https://api.discogs.com" "/database/search"
            DiscogsHttp
            (form_urlencode [("type", "release");
                             ("barcode", tmpl (Seed.upc seed));
                             ("per_page", "1");
                             ("page", "1")]) ;;
  if negb (doc_truthy data)
  then push_note "discogs query failed or rate-limited"
  else
  match discogs_results data with
  | [] => ret tt
  | hit :: _ =>
    let hid := Discogs.hit_id hit in
    modify_ids (Ids.set_discogs_release_id
      (if scalar_truthy hid
       then Some (mkIdRef (Some (scalar_string hid))
                    ("https://www.discogs.com/release/" ++ scalar_string hid))
       else None)) ;;
    when (scalar_truthy (Discogs.master_id hit))
      (modify_ids (Ids.set_discogs_master_id
         (Some (mkIdRef (Some (scalar_string (Discogs.master_id hit)))
                  ("https://www.discogs.com/master/"
                     ++ scalar_string (Discogs.master_id hit)))))) ;;
    (* canonical hints *)
    when (truthy (Discogs.country hit))
      (modify_canonical (Canonical.set_country (Discogs.country hit))) ;;
    whenS (fun o => label_truthy (Discogs.label hit)
                    && negb (label_truthy (Canonical.label (Out.canonical o))))
      (modify_canonical (Canonical.set_label (Discogs.label hit))) ;;
    when (negb (is_nil (Discogs.genre hit)))
      (modify_canonical (fun c =>
         Canonical.set_genre
           (dedupe (Canonical.genre c ++ Discogs.genre hit)) c)) ;;
    when (negb (is_nil (Discogs.style hit)))
      (modify_canonical (fun c =>
         Canonical.set_genre
           (dedupe (Canonical.genre c ++ Discogs.style hit)) c)) ;;
    whenS (fun o => truthy (Discogs.title hit)
                    && negb (truthy (Canonical.title (Out.canonical o))))
      ((* Discogs title is often "Artist - Title" (with an en dash) *)
       let m := split_str en_dash_sep (tmpl (Discogs.title hit)) in
       if List.length m =? 2 then
         modify_canonical (fun c =>
           Canonical.set_artist
             (or_else (Canonical.artist c) (nth_error m 0)) c) ;;
         modify_canonical (fun c =>
           Canonical.set_title
             (or_else (Canonical.title c) (nth_error m 1)) c)
       else
         modify_canonical (fun c =>
           Canonical.set_title
             (or_else (Canonical.title c) (Discogs.title hit)) c)) ;;
    whenS (fun o => scalar_truthy (Discogs.year hit)
                    && negb (truthy (Canonical.year (Out.canonical o))))
      (modify_canonical
         (Canonical.set_year (Some (scalar_string (Discogs.year hit))))) ;;
    whenS (fun o => truthy (Discogs.thumb hit)
                    && negb (truthy (Canonical.cover_url (Out.canonical o))))
      (modify_canonical (Canonical.set_cover_url (Discogs.thumb hit))) ;;
    when (truthy (Seed.upc seed))
      (modify_canonical (Canonical.set_upc (Seed.upc seed)))
  end.

(* =================================================================== *)
(** ** MusicBrainz *)
(* =================================================================== *)

(** What the detail request gives as a release: a falsy document is no
    release; an object of another shape has none of the fields. *)
Definition as_release (b : Body) : option MB.Release :=
  match b with
  | BMBRelease full => Some full
  | BFalsy | BInvalid _ => None
  | _ => Some MB.no_fields
  end.

(** [hydrateMBRelease(id, out)] *)
Definition hydrateMBRelease (id : option string) : M (option MB.Release) :=
  let qs := form_urlencode
              [("fmt", "json");
               ("inc", "url-rels+tags+artist-credits+label-info+release-group")] in
  try_catch
    (r <- fetch env (GET ("https://musicbrainz.org/ws/2/release/"
                            ++ tmpl id ++ "?" ++ qs) JSON_H) ;;
     push_http MbHttp ("/release/" ++ tmpl id) (status r) ;;
     if negb (ok r) then
       push_note ("musicbrainz release detail failed with status "
                    ++ string_of_nat (status r)) ;;
       ret None
     else
       (b <- json r ;; ret (as_release b)))
    (fun e =>
       push_note ("musicbrainz release fetch error: " ++ Exn_toString e) ;;
       ret None).

(** [search.releases], the empty list when it is absent. *)
Definition mb_releases (search : option Body) : list MB.Release :=
  match search with
  | Some (BMBSearch releases) => releases
  | _ => []
  end.

Definition set_matched_on (tag : string) : M unit :=
  modify (Out.upd_diagnostics (Diagnostics.set_matched_on (Some tag))).

Definition mb_search (query : string) : M (option Body) :=
  GETjson env "https://musicbrainz.org/ws/2" "/release/" MbHttp
          (form_urlencode [("query", query); ("fmt", "json")]).

(** The barcode loop of [resolveMusicBrainz]: the first search with a
    result ends it. *)
Fixpoint mb_barcode_loop (barcodes : list string) : M (option MB.Release) :=
  match barcodes with
  | [] => ret None
  | bc :: more =>
      search <- mb_search ("barcode:" ++ bc) ;;
      match mb_releases search with
      | first :: _ =>
          (* Pick the first high-score *)
          set_matched_on "upc" ;;
          ret (Some first)
      | [] => mb_barcode_loop more
      end
  end.

(** [u.split(sep)[1]?.split(/[?#]/)[0]] *)
Definition id_after (sep u : string) : option string :=
  match nth_error (split_str sep u) 1 with
  | Some r => nth_error (split (Chr (one_of "?#")) r) 0
  | None => None
  end.

Definition is_set {A} (v : option A) : bool :=
  match v with Some _ => true | None => false end.

(** One iteration of the loop over [full.relations]. *)
Definition mb_relation (rel : option string) : M unit :=
  match rel with
  | None => ret tt
  | Some u =>
      if Str.is_empty u then ret tt else
      whenS (fun o => includes "discogs.com/release/" u
                      && negb (is_set (Ids.discogs_release_id (Out.ids o))))
        (let id := id_after "/release/" u in
         when (truthy id)
           (modify_ids (Ids.set_discogs_release_id
              (Some (mkIdRef id ("https://www.discogs.com/release/" ++ tmpl id)))))) ;;
      when (includes "wikidata.org/wiki/Q" u)
        (let qid := id_after "/wiki/" u in
         whenS (fun o => truthy qid
                         && negb (is_set (Ids.wikidata_qid (Out.ids o))))
           (modify_ids (Ids.set_wikidata_qid
              (Some (mkIdRef qid ("https://www.wikidata.org/wiki/" ++ tmpl qid)))))) ;;
      whenS (fun o => includes "en.wikipedia.org/wiki/" u
                      && negb (is_set (Ids.wikipedia_title (Out.ids o))))
        (match decodeURIComponent
                 (tmpl (nth_error (split_str "/wiki/" u) 1)) with
         | None => throw (mkExn "URIError" "URI malformed")
         | Some title =>
             modify_ids (Ids.set_wikipedia_title
               (Some (mkIdRef (Some title)
                        ("https://en.wikipedia.org/wiki/" ++ title))))
         end)
  end.

(** [resolveMusicBrainz(seed, out)] *)
Definition resolveMusicBrainz (seed : Seed.t) : M unit :=
  (* 3a) if we have UPC, use search endpoint to find releases *)
  mbRel <-
    (if truthy (Seed.upc seed) then
       barcodes <- gets (fun o =>
         dedupe (List.filter nonempty
                   (Diagnostics.tried_barcodes (Out.diagnostics o)))) ;;
       mb_barcode_loop barcodes
     else ret None) ;;
  (* 3b) or direct MBIDs provided *)
  mbRel <-
    (if negb (is_set mbRel) && truthy (Seed.mbid seed)
     then hydrateMBRelease (Seed.mbid seed) else ret mbRel) ;;
  mbRel <-
    (if negb (is_set mbRel) && truthy (Seed.mb_release_mbid seed)
     then hydrateMBRelease (Seed.mb_release_mbid seed) else ret mbRel) ;;
  (* 3c) artist+title fallback *)
  canon <- gets Out.canonical ;;
  mbRel <-
    (if negb (is_set mbRel)
        && truthy (or_else (Seed.artist seed) (Canonical.artist canon))
        && truthy (or_else (Seed.title seed) (Canonical.title canon))
     then
       let artist := or_else (Seed.artist seed) (Canonical.artist canon) in
       let title := or_else (Seed.title seed) (Canonical.title canon) in
       search <- mb_search (tmpl title ++ " AND artist:" ++ tmpl artist) ;;
       match mb_releases search with
       | first :: _ => set_matched_on "artist+title" ;; ret (Some first)
       | [] => ret mbRel
       end
     else ret mbRel) ;;
  match mbRel with
  | None => ret tt
  | Some mbRel =>
  (* hydrate detailed release data *)
  full <- hydrateMBRelease (MB.rel_id mbRel) ;;
  match full with
  | None => ret tt
  | Some full =>
  (* set IDs *)
  modify_ids (Ids.set_mb_release_mbid
    (Some (mkIdRef (MB.rel_id full)
             ("https://musicbrainz.org/release/" ++ tmpl (MB.rel_id full))))) ;;
  match MB.release_group full with
  | Some rg =>
      modify_ids (Ids.set_mb_release_group
        (Some (mkIdRef (MB.rg_id rg)
                 ("https://musicbrainz.org/release-group/"
                    ++ tmpl (MB.rg_id rg)))))
  | None => ret tt
  end ;;
  match MB.artist_credit full with
  | ac :: _ =>
      when (truthy (MB.artist_id ac))
        (modify_ids (Ids.set_mb_artist_id
           (Some (mkIdRef (MB.artist_id ac)
                    ("https://musicbrainz.org/artist/"
                       ++ tmpl (MB.artist_id ac))))))
  | [] => ret tt
  end ;;
  (* canonical fields from MB *)
  whenS (fun o => negb (truthy (Canonical.title (Out.canonical o))))
    (modify_canonical (Canonical.set_title (or_else (MB.title full) None))) ;;
  whenS (fun o => negb (truthy (Canonical.artist (Out.canonical o)))
                  && negb (is_nil (MB.artist_credit full)))
    (modify_canonical (Canonical.set_artist
       (Some (Str.join " & "
                (List.map (fun ac => match MB.name ac with
                                     | Some n => n
                                     | None => ""
                                     end)
                          (MB.artist_credit full)))))) ;;
  whenS (fun o => truthy (MB.country full)
                  && negb (truthy (Canonical.country (Out.canonical o))))
    (modify_canonical (Canonical.set_country (MB.country full))) ;;
  whenS (fun o => truthy (MB.date full)
                  && negb (truthy (Canonical.year (Out.canonical o))))
    (modify_canonical (Canonical.set_year
       (Some (Str.take 4 (tmpl (MB.date full)))))) ;;
  match MB.label_info full with
  | li :: _ =>
      whenS (fun o =>
               match li with
               | Some li => truthy (MB.label_name li)
               | None => false
               end && negb (label_truthy (Canonical.label (Out.canonical o))))
        (modify_canonical (Canonical.set_label
           (match li with
            | Some li => option_map LabelName (MB.label_name li)
            | None => None
            end))) ;;
      whenS (fun o =>
               match li with
               | Some li => truthy (MB.catalog_number li)
               | None => false
               end
               && negb (truthy (Canonical.catalog_number (Out.canonical o))))
        (modify_canonical (Canonical.set_catalog_number
           (match li with Some li => MB.catalog_number li | None => None end)))
  | [] => ret tt
  end ;;
  (* tags -> genre *)
  when (negb (is_nil (MB.tags full)))
    (let g := List.map titleCase (MB.tags full) in
     modify_canonical (fun c =>
       Canonical.set_genre (dedupe (Canonical.genre c ++ g)) c)) ;;
  (* url-rels -> try Discogs + Wikidata + enwiki links *)
  forM_ (MB.relations full) mb_relation ;;
  (* Also hydrate release-group + artist to improve cache hits *)
  rg <- gets (fun o => Ids.id_of (Ids.mb_release_group (Out.ids o))) ;;
  when (truthy rg)
    (GETjson env "https://musicbrainz.org/ws/2"
             ("/release-group/" ++ tmpl rg) MbHttp "fmt=json" ;; ret tt) ;;
  ar <- gets (fun o => Ids.id_of (Ids.mb_artist_id (Out.ids o))) ;;
  when (truthy ar)
    (GETjson env "https://musicbrainz.org/ws/2"
             ("/artist/" ++ tmpl ar) MbHttp "fmt=json" ;; ret tt)
  end
  end.

End Stages.

(* ===================================================================== *)
(** ** Wikidata *)
(* ===================================================================== *)

Definition nl : string := String "010" "".
Definition dq : string := String dquote "".

(** [json?.results?.bindings?.[0]?.item?.value] *)
Definition sparql_first (j : Body) : option string :=
  match j with
  | BSparql (b :: _) => b
  | _ => None
  end.

(** [data?.entities?.[qid] || null] *)
Fixpoint assoc {A} (k : string) (l : list (string * A)) : option A :=
  match l with
  | [] => None
  | (k', v) :: r => if String.eqb k k' then Some v else assoc k r
  end.

Definition entity_of (data : option Body) (qid : string) : option WD.Entity :=
  match data with
  | Some (BEntities entities) => assoc qid entities
  | _ => None
  end.

(** [pickClaimId(entity, prop)] *)
Fixpoint first_object_id (c : list (option WD.DataValue)) : option string :=
  match c with
  | [] => None
  | Some (WD.DvObject id) :: r => if truthy id then id else first_object_id r
  | _ :: r => first_object_id r
  end.

Definition pickClaimId (entity : option WD.Entity) (prop : string)
  : option string :=
  match entity with
  | None => None
  | Some e =>
      match assoc prop (WD.claims e) with
      | None => None
      | Some c => first_object_id c
      end
  end.

Definition wikidata_ref (q : option string) : option IdRef :=
  Some (mkIdRef q ("https://www.wikidata.org/wiki/" ++ tmpl q)).

Section Wikidata.

Variable env : Env.

(** The request shared by the three SPARQL helpers: one POST, one log
    line, the last path segment of the first binding. *)
Definition sparql (query tag : string) : M (option string) :=
  r <- fetch env
         (mkRequest "https://query.wikidata.org/sparql" "POST"
            [("accept", "application/sparql-results+json");
             ("content-type", "application/sparql-query");
             ("user-agent", UA)]
            (Some query)) ;;
  push_http WdHttp tag (status r) ;;
  if negb (ok r) then ret None else
  j <- json r ;;
  let b := sparql_first j in
  if negb (truthy b) then ret None
  else ret (Some (List.last (split_str "/" (tmpl b)) "")).

(** [sparqlFirstQIDForMBRG(mbRGid, out)] *)
Definition sparqlFirstQIDForMBRG (mbRGid : string) : M (option string) :=
  sparql (nl ++ "SELECT ?item WHERE {" ++ nl
             ++ "  ?item wdt:P436 ?mbRG ." ++ nl
             ++ "  FILTER(?mbRG = " ++ dq ++ mbRGid ++ dq ++ ")" ++ nl
             ++ "} LIMIT 1")
         "SPARQL:MBRG->Q".

(** [s.replace(/"/g, '\\"')] *)
Definition escape_quotes (s : string) : string :=
  replace_all (chr dquote) (fun _ _ => String "\" dq) s.

(** [sparqlFirstQIDByTitleArtist(title, artist, out)] *)
Definition sparqlFirstQIDByTitleArtist (title artist : string)
  : M (option string) :=
  let escTitle := escape_quotes title in
  let escArtist := escape_quotes artist in
  sparql (nl ++ "SELECT ?item WHERE {" ++ nl
             ++ "  ?item rdfs:label " ++ dq ++ escTitle ++ dq ++ "@en;" ++ nl
             ++ "        wdt:P175 ?a." ++ nl
             ++ "  ?a rdfs:label " ++ dq ++ escArtist ++ dq ++ "@en." ++ nl
             ++ "} LIMIT 1")
         "SPARQL:title+artist->Q".

(** [sparqlFirstArtistQIDByMBArtist(mbArtistId, out)] *)
Definition sparqlFirstArtistQIDByMBArtist (mbArtistId : string)
  : M (option string) :=
  sparql (nl ++ "SELECT ?item WHERE {" ++ nl
             ++ "  ?item wdt:P434 " ++ dq ++ mbArtistId ++ dq ++ " ." ++ nl
             ++ "} LIMIT 1")
         "SPARQL:MBArtist->Q".

(** [fetchWikidataEntity(qid, out)] *)
Definition fetchWikidataEntity (qid : string) : M (option WD.Entity) :=
  data <- GETjson env "https://www.wikidata.org/wiki/Special:EntityData"
            ("/" ++ qid ++ ".json") WdHttp "" ;;
  ret (entity_of data qid).

(** [resolveWikidataAndWikipedia(seed, out)] *)
Definition resolveWikidataAndWikipedia (seed : Seed.t) : M unit :=
  ids <- gets Out.ids ;;
  (* If we already have album Q-id and artist Q-id, we are done *)
  if is_set (Ids.wikidata_qid ids) && is_set (Ids.artist_wikidata_qid ids)
     && is_set (Ids.wikipedia_title ids)
  then ret tt else
  when (negb (is_set (Ids.wikidata_qid ids)))
    ((* SPARQL by MB release-group if we have it *)
     rg <- gets (fun o => Ids.id_of (Ids.mb_release_group (Out.ids o))) ;;
     when (truthy rg)
       (q <- sparqlFirstQIDForMBRG (tmpl rg) ;;
        when (truthy q) (modify_ids (Ids.set_wikidata_qid (wikidata_ref q)))) ;;
     (* Fallback by title+artist *)
     o <- gets (fun o => o) ;;
     when (negb (is_set (Ids.wikidata_qid (Out.ids o)))
           && truthy (Canonical.title (Out.canonical o))
           && truthy (Canonical.artist (Out.canonical o)))
       (q <- sparqlFirstQIDByTitleArtist
               (tmpl (Canonical.title (Out.canonical o)))
               (tmpl (Canonical.artist (Out.canonical o))) ;;
        when (truthy q) (modify_ids (Ids.set_wikidata_qid (wikidata_ref q))))) ;;
  ids <- gets Out.ids ;;
  when (negb (is_set (Ids.artist_wikidata_qid ids)))
    ((* From MB artist relations *)
     ar <- gets (fun o => Ids.id_of (Ids.mb_artist_id (Out.ids o))) ;;
     when (truthy ar)
       (qa <- sparqlFirstArtistQIDByMBArtist (tmpl ar) ;;
        when (truthy qa)
          (modify_ids (Ids.set_artist_wikidata_qid (wikidata_ref qa)))) ;;
     (* From album Q-id claims P175 *)
     ids <- gets Out.ids ;;
     when (negb (is_set (Ids.artist_wikidata_qid ids))
           && truthy (Ids.id_of (Ids.wikidata_qid ids)))
       (entity <- fetchWikidataEntity (tmpl (Ids.id_of (Ids.wikidata_qid ids))) ;;
        let performer := pickClaimId entity "P175" in
        when (truthy performer)
          (modify_ids (Ids.set_artist_wikidata_qid (wikidata_ref performer))))) ;;
  (* enwiki sitelink *)
  ids <- gets Out.ids ;;
  when (negb (is_set (Ids.wikipedia_title ids))
        && truthy (Ids.id_of (Ids.wikidata_qid ids)))
    (entity <- fetchWikidataEntity (tmpl (Ids.id_of (Ids.wikidata_qid ids))) ;;
     let enTitle := match entity with
                    | Some e => WD.enwiki_title e
                    | None => None
                    end in
     when (truthy enTitle)
       (modify_ids (Ids.set_wikipedia_title
          (Some (mkIdRef enTitle
                   ("https://en.wikipedia.org/wiki/"
                      ++ encodeURIComponent (tmpl enTitle)))))))%string.

End Wikidata.

(* ===================================================================== *)
(** ** HTML content extraction *)
(* ===================================================================== *)

Fixpoint seqs (l : list re) : re :=
  match l with
  | [] => Eps
  | [a] => a
  | a :: r => Seq a (seqs r)
  end.

(** [s.match(re)] without the [g] flag: the text of the first match. *)
Fixpoint match_first_from (r : re) (fuel : nat) (c : cursor) : option string :=
  match match_here r c with
  | Some (c', _) => Some (Regex.between c c')
  | None =>
      match fuel, advance c with
      | S fuel', Some c' => match_first_from r fuel' c'
      | _, _ => None
      end
  end.
Definition match_first (r : re) (s : string) : option string :=
  match_first_from r (String.length s) (start s).

Module Html.

Definition spaces0 : re := Star true space.                 (* \s, starred *)
Definition lazy_any : re := Star false any.                 (* [\s\S], lazily starred *)
Definition not_gt0 : re := Star true (notc ">").            (* [^>], starred *)

(** A [table] element whose class starts with [wikitable], flags [gi]. *)
Definition re_table : re :=
  seqs [liti "<table"; not_gt0; liti "class="; chr dquote; liti "wikitable";
        Star true (notc dquote); chr dquote; not_gt0; chr ">";
        lazy_any; liti "</table>"].

(** [/Track listing|Track\s{0,}list/i] *)
Definition re_track_listing : re :=
  Alt (liti "Track listing") (seqs [liti "Track"; spaces0; liti "list"]).
(** [/Track\s{0,}No\.?/i] *)
Definition re_track_no : re :=
  seqs [liti "Track"; spaces0; liti "No"; opt (chr ".")].

(** A [tr] element, flags [gi]. *)
Definition re_tr : re := seqs [liti "<tr"; lazy_any; liti "</tr>"].

(** A [th] or [td] element with its content as group 1, flags [gi]. *)
Definition th_or_td : re :=
  Chr (fun c => Ascii.eqb (to_lower c) "h" || Ascii.eqb (to_lower c) "d").
Definition re_cell : re :=
  seqs [liti "<t"; th_or_td; not_gt0; chr ">"; Grp 1 lazy_any;
        liti "</t"; th_or_td; chr ">"].

(** [/^\d+/] *)
Definition re_leading_digits : re := Seq Bol (plus (Chr is_digit)).

(** An [h2] heading with what follows it up to the next one, flags [gi]. *)
Definition re_section : re :=
  seqs [liti "<h2"; not_gt0; chr ">"; lazy_any; liti "</h2>"; lazy_any;
        Ahead (Alt (liti "<h2") Eol)].

(** An [li] element with its content as group 1, flags [gi]. *)
Definition re_li : re :=
  seqs [liti "<li"; not_gt0; chr ">"; Grp 1 lazy_any; liti "</li>"].

Definition re_personnel : re := Alt (liti "Personnel") (liti "Credits").
Definition re_awards : re := Alt (liti "Awards") (liti "Accolades").
Definition re_certifications : re := liti "Certifications".

Definition re_landmarks : list re :=
  [liti "Grammy Hall of Fame";
   liti "National Recording Registry";
   seqs [liti "RIAA"; plus space; liti "certified"];
   liti "most influential";
   liti "landmark album"].

(** The cells of a row: each group 1, stripped of tags and trimmed. *)
Definition row_cols (r : string) : list string :=
  List.map (fun m => Str.trim (stripHtml (group1 (fst m) (snd m))))
           (match_all re_cell r).

(** The test on the cells of a row. *)
Definition row_captured (cols : list string) : bool :=
  (2 <=? List.length cols) && test re_leading_digits (nth 0 cols "").

(** The body of the loop over the rows of a table. *)
Definition push_row (rows : list Track) (r : string) : list Track :=
  let cols := row_cols r in
  if row_captured cols
  then rows ++ [mkTrack (nth 0 cols "") (nth 1 cols "")]
  else rows.

(** The test on a table. *)
Definition is_track_table (tb : string) : bool :=
  test re_track_listing tb || test re_track_no tb.

Definition table_rows (tb : string) : list string :=
  List.map fst (match_all re_tr tb).

(** The body of the loop over the tables. *)
Definition scan_table (rows : list Track) (tb : string) : list Track :=
  if negb (test re_track_listing tb) && negb (test re_track_no tb)
  then rows
  else fold_left push_row (table_rows tb) rows.

Definition tables (html : string) : list string :=
  List.map fst (match_all re_table html).

(** The [rows] of [extractTracklistFromHTML] when its loops end. *)
Definition tracklist_rows (html : string) : list Track :=
  fold_left scan_table (tables html) [].

(** The list items of the sections that match [heading]; [clean] is
    applied to each item and empty lines are dropped. *)
Definition section_items (heading : re) (clean : string -> string)
           (html : string) : list string :=
  let sec := List.map fst (match_all re_section html) in
  fold_left
    (fun found s =>
       if negb (test heading s) then found
       else fold_left
              (fun found li =>
                 let line := clean li in
                 if nonempty line then found ++ [line] else found)
              (List.map fst (match_all re_li s)) found)
    sec [].

Definition squash_spaces (s : string) : string :=
  replace_all (plus space) (fun _ _ => " ") s.

Definition personnel_lines (html : string) : list string :=
  section_items re_personnel
                (fun li => Str.trim (squash_spaces (stripHtml li))) html.
Definition award_lines (html : string) : list string :=
  section_items re_awards (fun l => Str.trim (stripHtml l)) html.
Definition certification_lines (html : string) : list string :=
  section_items re_certifications (fun l => Str.trim (stripHtml l)) html.

Definition landmark_hits (html : string) : list string :=
  let text := squash_spaces (stripHtml html) in
  fold_left
    (fun hits rx =>
       match match_first rx text with
       | Some m => hits ++ [m]
       | None => hits
       end)
    re_landmarks [].

End Html.

(** [extractTracklistFromHTML(html, out)] *)
Definition extractTracklistFromHTML (html : string) : M unit :=
  let rows := Html.tracklist_rows html in
  when (negb (is_nil rows))
       (modify_wikipedia (Wikipedia.set_tracklist (Some rows))).

(** [extractPersonnelFromHTML(html, out)] *)
Definition extractPersonnelFromHTML (html : string) : M unit :=
  let found := Html.personnel_lines html in
  when (negb (is_nil found))
       (modify_wikipedia (Wikipedia.set_personnel (Some found))).

(** [extractAwardsFromHTML(html, out)] *)
Definition extractAwardsFromHTML (html : string) : M unit :=
  let aw := Html.award_lines html in
  when (negb (is_nil aw)) (modify_wikipedia (Wikipedia.set_awards (Some aw))).

(** [extractCertificationsFromHTML(html, out)] *)
Definition extractCertificationsFromHTML (html : string) : M unit :=
  let cf := Html.certification_lines html in
  when (negb (is_nil cf))
       (modify_wikipedia (Wikipedia.set_certifications (Some cf))).

(** [extractLandmarksFromHTML(html, out)] *)
Definition extractLandmarksFromHTML (html : string) : M unit :=
  let hits := Html.landmark_hits html in
  when (negb (is_nil hits))
       (modify_wikipedia (Wikipedia.set_landmarks (Some (dedupe hits)))).

(* ===================================================================== *)
(** ** Wikipedia enrichment and image galleries *)
(* ===================================================================== *)

(** [pickLargestSrc(srcset)] *)
Definition pickLargestSrc (srcset : option (list (option string)))
  : option string :=
  match srcset with
  | None | Some [] => None
  | Some (x :: r) =>
      let cand := List.last (x :: r) None in
      if negb (truthy cand) then None
      else Some (if startsWith "//" (tmpl cand)
                 then "https:" ++ tmpl cand
                 else tmpl cand)%string
  end.

Definition push_article_gallery (it : GalleryItem.t) : M unit :=
  modify (Out.upd_wiki (fun w =>
    Wiki.mk (Wiki.article_gallery w ++ [it]) (Wiki.album_gallery w)
            (Wiki.artist_gallery w))).
Definition push_artist_gallery (it : GalleryItem.t) : M unit :=
  modify (Out.upd_wiki (fun w =>
    Wiki.mk (Wiki.article_gallery w) (Wiki.album_gallery w)
            (Wiki.artist_gallery w ++ [it]))).

(** What [commonsImageInfo] returns. *)
Record FileInfo : Type := mkFileInfo {
  fi_url : option string;
  fi_width : option nat;
  fi_height : option nat;
  fi_mime : option string;
  fi_license : string;
  fi_artist : string;
  fi_credit : string;
  fi_attributionRequired : bool;
  fi_creditLine : string;
  fi_description : string;
  fi_title : string
}.

Definition strip_or_empty (v : option string) : string :=
  if truthy v then stripHtml (tmpl v) else "".

(** [buildImageCredit(fi)] *)
Definition buildImageCredit (fi : FileInfo) : ImageCredit :=
  let caption := fi_description fi in
  mkImageCredit (fi_license fi) (fi_artist fi) caption.

(** [`${f}`] for a claim value. *)
Definition DataValue_toString (v : WD.DataValue) : string :=
  match v with
  | WD.DvString s => s
  | WD.DvObject _ => "[object Object]"
  end.

Definition DataValue_truthy (v : option WD.DataValue) : bool :=
  match v with
  | Some (WD.DvString s) => nonempty s
  | Some (WD.DvObject _) => true
  | None => false
  end.

Section Enrichment.

Variable env : Env.

Definition REST : string := "https://en.wikipedia.org/api/rest_v1/page".

(** [enrichFromWikipedia(seed, out)] *)
Definition enrichFromWikipedia (seed : Seed.t) : M unit :=
  wt <- gets (fun o => Ids.id_of (Ids.wikipedia_title (Out.ids o))) ;;
  if negb (truthy wt) then ret tt else
  let title := tmpl wt in
  (* Summary *)
  sum <- GETjson env REST ("/summary/" ++ encodeURIComponent title) WikiHttp "" ;;
  match sum with
  | Some (BSummary sum) =>
      when (truthy (WP.title sum))
        (modify_wikipedia
           (Wikipedia.set_summary_title (WP.title sum)
              (Some (tmpl (or_else (WP.extract sum) (Some ""))))) ;;
         (* lead image *)
         whenS (fun o => truthy (WP.thumbnail_source sum)
                         && negb (truthy (Canonical.cover_url (Out.canonical o))))
           (modify_canonical (Canonical.set_cover_url (WP.thumbnail_source sum))))
  | _ => ret tt
  end ;;
  (* Infobox (if exposed) *)
  info <- GETjson env REST ("/infobox/" ++ encodeURIComponent title) WikiHttp "" ;;
  when (doc_is_object info) (modify_wikipedia (Wikipedia.set_infobox info)) ;;
  (* Media-list for gallery candidates *)
  mediaList <- GETjson env REST ("/media-list/" ++ encodeURIComponent title)
                 WikiHttp "" ;;
  match mediaList with
  | Some (BMediaList items) =>
      forM_ items (fun it =>
        if negb (truthy (WP.item_title it)) || negb (is_set (WP.srcset it))
        then ret tt
        else
          let best := pickLargestSrc (WP.srcset it) in
          when (truthy best)
            (push_article_gallery
               (GalleryItem.mk "enwiki:media-list" "gallery"
                  (tmpl (WP.item_title it)) best None None None None)))
  | _ => ret tt
  end ;;
  (* Sections via Parsoid HTML *)
  html <- fetch env (GET ("https://en.wikipedia.org/api/rest_v1/page/html/"
                            ++ encodeURIComponent title) JSON_H) ;;
  push_http WikiHttp ("/html/" ++ title) (status html) ;;
  when (ok html)
    (let text := text html in
     extractTracklistFromHTML text ;;
     extractPersonnelFromHTML text ;;
     extractAwardsFromHTML text ;;
     extractLandmarksFromHTML text ;;
     extractCertificationsFromHTML text).

(** [commonsImageInfo(filename, out)] *)
Definition commonsImageInfo (filename : string) : M (option FileInfo) :=
  let api := "https://commons.wikimedia.org/w/api.php" in
  let qs := form_urlencode
              [("action", "query");
               ("titles", ("File:" ++ filename)%string);
               ("prop", "imageinfo");
               ("iiprop", "url|user|extmetadata|size|mime");
               ("format", "json");
               ("origin", "*")] in
  r <- fetch env (GET (api ++ "?" ++ qs) [("user-agent", UA)]) ;;
  push_http WikiHttp "/commons:imageinfo" (status r) ;;
  if negb (ok r) then ret None else
  j <- json r ;;
  match j with
  | BCommons (first :: _) =>
      match Commons.imageinfo first with
      | [] => ret None
      | ii :: _ =>
          ret (Some (mkFileInfo
            (Commons.ii_url ii) (Commons.ii_width ii) (Commons.ii_height ii)
            (Commons.ii_mime ii)
            (tmpl (or_else (or_else (Commons.LicenseShortName ii)
                                    (Commons.License ii)) (Some "")))
            (strip_or_empty (Commons.Artist ii))
            (strip_or_empty (Commons.Credit ii))
            (match Commons.AttributionRequired ii with
             | Some v => String.eqb v "true"
             | None => false
             end)
            (strip_or_empty (Commons.Credit ii))
            (strip_or_empty (Commons.ImageDescription ii))
            (tmpl (or_else (Commons.page_title first) (Some "")))))
      end
  | _ => ret None
  end.

(** [buildImageGalleries(seed, out)] *)
Definition buildImageGalleries (seed : Seed.t) : M unit :=
  (* Artist P18 images *)
  aq <- gets (fun o => Ids.id_of (Ids.artist_wikidata_qid (Out.ids o))) ;;
  when (truthy aq)
    (ent <- fetchWikidataEntity env (tmpl aq) ;;
     let p18 := match ent with
                | Some e => match assoc "P18" (WD.claims e) with
                            | Some c => c
                            | None => []
                            end
                | None => []
                end in
     let files :=
       List.flat_map (fun sn => match sn with
                                | Some v => if DataValue_truthy sn
                                            then [DataValue_toString v]
                                            else []
                                | None => []
                                end) p18 in
     max <- gets (fun o => max_images (Out.flags o)) ;;
     forM_ (firstn max files) (fun f =>
       fi <- commonsImageInfo f ;;
       match fi with
       | Some fi =>
           when (truthy (fi_url fi))
             (push_artist_gallery
                (GalleryItem.mk "wikidata:P18" "image" ("File:" ++ f)
                   (fi_url fi) (fi_width fi) (fi_height fi) (fi_mime fi)
                   (Some (buildImageCredit fi))))
       | None => ret tt
       end)).

End Enrichment.

(* ===================================================================== *)
(** ** Finalisation and the handler *)
(* ===================================================================== *)

(** [finalizeCanonical(out)] *)
Definition finalizeCanonical : M unit :=
  whenS (fun o => is_nil (Canonical.format (Out.canonical o)))
    (let guess := [] ++ ["Album"] in
     modify_canonical (Canonical.set_format (dedupe guess))).

(** The URLs pushed by the loops of [aggregateDownloadList], in order. *)
Definition gallery_urls (g : list GalleryItem.t) : list string :=
  List.flat_map (fun it => if truthy (GalleryItem.url it)
                           then [tmpl (GalleryItem.url it)] else []) g.

Definition collected_urls (w : Wiki.t) : list string :=
  List.flat_map gallery_urls
    [Wiki.article_gallery w; Wiki.album_gallery w; Wiki.artist_gallery w].

(** [aggregateDownloadList(out)] *)
Definition aggregateDownloadList : M unit :=
  modify (fun o => Out.set_image_urls (dedupe (collected_urls (Out.wiki o))) o).

(** [initOut(flags)], with the time read for [timestamp]. *)
Definition initOut (flags : Flags) (timestamp : string) : Out.t :=
  Out.mk "4.3.0" timestamp flags Canonical.init Ids.init
         (Wikipedia.init Body) Wiki.init [] Diagnostics.init None None.

Section Handler.

Variable env : Env.

(** [stamp(out, name)] for the two names in use. *)
Definition stamp_start : M unit :=
  t <- now env ;; modify (Out.set_ts_start (Some t)).
Definition stamp_done : M unit :=
  t <- now env ;; modify (Out.set_ts_done (Some t)).

(** The body of the [try] block of the handler. *)
Definition pipeline (flags : Flags) (seed : Seed.t) : M unit :=
  (* 1) Normalize primary keys *)
  seed <- normalizeSeed seed ;;
  (* 2) Resolve Discogs by UPC if available; [seed.barcode] is never
        defined *)
  when (truthy (Seed.upc seed)) (resolveDiscogsByUPC env seed) ;;
  (* 3) Resolve MusicBrainz *)
  resolveMusicBrainz env seed ;;
  (* 4) Wikidata Q-ids and the enwiki sitelink *)
  resolveWikidataAndWikipedia env seed ;;
  (* 5) Wikipedia enrichment *)
  enrichFromWikipedia env seed ;;
  (* 6) Images *)
  when (negb (String.eqb (images flags) "none"))
       (buildImageGalleries env seed) ;;
  (* 7) Canonical fields finalization *)
  finalizeCanonical ;;
  (* 8) Aggregate image URLs *)
  aggregateDownloadList ;;
  stamp_done.

(** [String(e && e.message ? e.message : e)] *)
Definition fatal_text (e : Exn) : string :=
  if nonempty (exn_message e) then exn_message e else Exn_toString e.

(** The [try] block with its [catch]. *)
Definition enrich (flags : Flags) (seed : Seed.t) : M unit :=
  try_catch (pipeline flags seed)
            (fun e => push_note ("fatal:" ++ fatal_text e)).

(** The state when the [try] block is entered: [initOut(flags)] and
    [stamp(out, "start")] are done. *)
Definition entry (flags : Flags) : St :=
  snd (stamp_start (mkSt (initOut flags (clock env [])) [EvNow])).

(** How the [try] block ends for a request. *)
Definition try_outcome (flags : Flags) (url : SearchParams) : Res unit :=
  fst (pipeline flags (parseSeed url (searchParams_get url "cmd"))
                (entry flags)).

(** [fetch(req, env, ctx)] for a parsed flag set: the final state, whose
    [out] is the document sent back. *)
Definition handle (flags : Flags) (url : SearchParams) : St :=
  snd (enrich flags (parseSeed url (searchParams_get url "cmd"))
              (entry flags)).

End Handler.

(* ===================================================================== *)
(** ** The query flags and the response *)
(* ===================================================================== *)

From Stdlib Require Import ZArith.

(** [toBool(v)] *)
Definition toBool (v : option string) : bool :=
  match v with
  | None => false
  | Some v =>
      if Str.is_empty v then false
      else String.eqb v "1"
           || String.eqb (Str.toLowerCase v) "true"
           || String.eqb (Str.toLowerCase v) "yes"
  end.

Fixpoint take_while (p : ascii -> bool) (s : string) : string :=
  match s with
  | EmptyString => EmptyString
  | String c r => if p c then String c (take_while p r) else EmptyString
  end.

(** The value of a string of decimal digits. *)
Fixpoint digits_value (acc : Z) (s : string) : Z :=
  match s with
  | EmptyString => acc
  | String c r => digits_value (10 * acc + Z.of_nat (code c - 48))%Z r
  end.

(** [parseInt(v, 10)]: leading white space, an optional sign, then the
    longest run of digits; [None] is [NaN].  [null] reads as the text
    [null], which has no digit. *)
Definition parseInt10 (v : option string) : option Z :=
  let s := Str.trimStart (match v with Some s => s | None => "null" end) in
  let signed :=
    match s with
    | String "-" r => (true, r)
    | String "+" r => (false, r)
    | _ => (false, s)
    end in
  let digits := take_while is_digit (snd signed) in
  if Str.is_empty digits then None
  else Some (if fst signed then (- digits_value 0 digits)%Z
             else digits_value 0 digits).

(** [Number.isFinite(n)] for an integer read by [parseInt]: beyond the
    range of a double the value is an infinity.  The bounds of [clampInt]
    are small integers, for which clamping the double and clamping the
    integer agree. *)
Definition isFinite (n : Z) : bool :=
  (Z.abs n <? 2 ^ 1024 - 2 ^ 970)%Z.

(** [clampInt(v, min, max, dflt)] *)
Definition clampInt (v : option string) (min max dflt : Z) : Z :=
  match parseInt10 v with
  | Some n => if isFinite n then Z.min max (Z.max min n) else dflt
  | None => dflt
  end.

(** The [flags] object of the handler. *)
Definition parseFlags (url : SearchParams) : Flags :=
  let get := searchParams_get url in
  mkFlags (toBool (get "all"))
          (Str.toLowerCase (tmpl (or_else (get "images") (Some "both"))))
          (Str.toLowerCase (tmpl (or_else (get "lang") (Some "en"))))
          (Z.to_nat (clampInt (get "max_images") 1 50 12)).

(** What [json(obj, cacheTTL)] builds: the status, the headers and the
    document that is serialised. *)
Record JsonResponse : Type := mkJsonResponse {
  js_status : nat;
  js_headers : list (string * string);
  js_body : Out.t
}.

(** [json(obj, cacheTTL)] *)
Definition json_response (obj : Out.t) (cacheTTL : nat) : JsonResponse :=
  mkJsonResponse 200
    [("content-type", "application/json; charset=utf-8");
     ("cache-control",
      if 0 <? cacheTTL
      then ("public, s-maxage=" ++ string_of_nat cacheTTL)%string
      else "no-store")]
    obj.

(** [fetch(req, env, ctx)], the exported handler. *)
Definition fetch_handler (env : Env) (url : SearchParams) : JsonResponse :=
  let noCache := toBool (searchParams_get url "nocache") in
  let cacheTTL := if noCache then 0 else 900 in
  let flags := parseFlags url in
  json_response (out (handle env flags url)) cacheTTL.

(* ===================================================================== *)
(** ** Notions used in the statements *)
(* ===================================================================== *)

(** The cursor after the longest run of units in [p]. *)
Fixpoint skip_while (p : ascii -> bool) (prev : option ascii) (s : string)
  : cursor :=
  match s with
  | String a r => if p a then skip_while p (Some a) r else (prev, s)
  | EmptyString => (prev, s)
  end.

Definition is_zero (a : ascii) : bool := Ascii.eqb "0" a.

(** What [normalizeBarcode] does with the digits it has kept. *)
Definition canonical_digits (digits : string) : string :=
  if String.length digits =? 12 then digits else
  if String.length digits =? 13 then digits else
  let trimmed := Str.drop_while (Ascii.eqb "0") digits in
  if Str.is_empty trimmed then digits else trimmed.

(** The position of the first occurrence of [x] in [l]; the length of [l]
    when there is none. *)
Fixpoint index_of (x : string) (l : list string) : nat :=
  match l with
  | [] => 0
  | y :: r => if String.eqb x y then 0 else S (index_of x r)
  end.

(** The request of the MusicBrainz search for a barcode. *)
Definition mb_barcode_request (bc : string) : Request :=
  GET ("https://musicbrainz.org/ws/2" ++ "/release/" ++ "?"
         ++ form_urlencode [("query", "barcode:" ++ bc); ("fmt", "json")])%string
      JSON_H.

(** The characters other than [x]. *)
Definition other_than (x : ascii) : ascii -> bool :=
  fun a => negb (Ascii.eqb a x).

(** [s] without the prefix [p], when it starts with [p]. *)
Fixpoint drop_prefix (p s : string) : option string :=
  match p, s with
  | EmptyString, _ => Some s
  | String a p', String b s' =>
      if Ascii.eqb a b then drop_prefix p' s' else None
  | String _ _, EmptyString => None
  end.

(** The digits at the start of [s], when [&fmt=json] and nothing else
    follows them. *)
Fixpoint digits_before_fmt (s : string) : option string :=
  match s with
  | String c r =>
      if is_digit c then option_map (String c) (digits_before_fmt r)
      else if String.eqb s "&fmt=json" then Some "" else None
  | EmptyString => None
  end.

(** The barcode that a request searches MusicBrainz for, when the request
    is such a search: its URL is the one of [mb_barcode_request] for a
    string of digits. *)
Definition searched_barcode (rq : Request) : option string :=
  match drop_prefix "https://musicbrainz.org/ws/2/release/?query=barcode%3A"
                    (rq_url rq) with
  | Some rest => digits_before_fmt rest
  | None => None
  end.

(** The barcodes that MusicBrainz was searched for, one entry for each
    request sent, in the order of the requests. *)
Definition barcode_searches (tr : list Event) : list string :=
  flat_map (fun ev =>
              match ev with
              | EvFetch rq =>
                  match searched_barcode rq with
                  | Some bc => [bc]
                  | None => []
                  end
              | _ => []
              end) tr.

(** A search that returned and found no release. *)
Definition found_nothing (r : Res (option Body)) : bool :=
  match r with
  | Ok search => is_nil (mb_releases search)
  | Throw _ => false
  end.

(** The URL [GETjson] requests, and the two log lines it can write. *)
Definition GETjson_url (base path qs : string) : string :=
  (base ++ path ++
     (if nonempty qs
      then (if includes "?" path then "&" else "?") ++ qs
      else ""))%string.
Definition first_entry (path qs : string) (st : nat) : HttpLog :=
  mkHttpLog (path ++ (if nonempty qs then "?" ++ qs else ""))%string st.
Definition retry_entry (path : string) (st : nat) : HttpLog :=
  mkHttpLog (path ++ " (retry)")%string st.

(** A cell that begins with a decimal digit. *)
Definition starts_with_digit (s : string) : bool :=
  match s with
  | String c _ => is_digit c
  | EmptyString => false
  end.

(** A cell that is a number: one or more decimal digits and nothing else. *)
Definition numeric (s : string) : bool :=
  nonempty s && Str.forallb is_digit s.

(** The pair captured from the cells of a row. *)
Definition track_of (cols : list string) : Track :=
  mkTrack (nth 0 cols "") (nth 1 cols "").

(** The rows of the tables that pass the track-listing test, in document
    order, each as its list of cells. *)
Definition candidate_rows (html : string) : list (list string) :=
  List.map Html.row_cols
    (List.flat_map Html.table_rows
       (List.filter Html.is_track_table (Html.tables html))).

(** [m] keeps the property [J] of the output document, also when it
    throws. *)
Definition keeps (J : Out.t -> Prop) {A} (m : M A) : Prop :=
  forall s, J (out s) -> J (out (snd (m s))).

(** The stages that follow [normalizeSeed] in the handler, each with the
    guard the handler puts on it. *)
Inductive Stage : Type :=
| StDiscogs | StMusicBrainz | StWikidata | StWikipedia | StImages
| StFinalize | StAggregate.

Definition run_stage (env : Env) (flags : Flags) (seed : Seed.t) (st : Stage)
  : M unit :=
  match st with
  | StDiscogs => when (truthy (Seed.upc seed)) (resolveDiscogsByUPC env seed)
  | StMusicBrainz => resolveMusicBrainz env seed
  | StWikidata => resolveWikidataAndWikipedia env seed
  | StWikipedia => enrichFromWikipedia env seed
  | StImages => when (negb (String.eqb (images flags) "none"))
                     (buildImageGalleries env seed)
  | StFinalize => finalizeCanonical
  | StAggregate => aggregateDownloadList
  end.

Definition run_stages (env : Env) (flags : Flags) (seed : Seed.t)
           (l : list Stage) : M unit :=
  forM_ l (run_stage env flags seed).

(** The order of the handler. *)
Definition handler_order : list Stage :=
  [StDiscogs; StMusicBrainz; StWikidata; StWikipedia; StImages; StFinalize;
   StAggregate].

(** From a state where [J] holds, [m] ends with [Qok] when it returns and
    with [Qthrow] when it throws. *)
Definition ends (J Qok Qthrow : Out.t -> Prop) {A} (m : M A) : Prop :=
  forall s, J (out s) ->
    match fst (m s) with
    | Ok _ => Qok (out (snd (m s)))
    | Throw _ => Qthrow (out (snd (m s)))
    end.

(** Two seeds that agree on the fields the stages read. *)
Definition same_used (a b : Seed.t) : Prop :=
  Seed.upc a = Seed.upc b
  /\ Seed.mbid a = Seed.mbid b
  /\ Seed.mb_release_mbid a = Seed.mb_release_mbid b
  /\ Seed.title a = Seed.title b
  /\ Seed.artist a = Seed.artist b.

(** Concrete requests, answers and documents. *)
Module Examples.

Definition flags0 : Flags := mkFlags false "both" "en" 12.

Definition answer (st : nat) (b : Body) : Outcome :=
  Reply (mkResponse st "" b).

Definition noon : list Event -> string := fun _ => "2025-10-16T12:00:00.000Z".

(** No provider knows anything: every request is answered 404. *)
Definition nothing_found : Env := mkEnv (fun _ _ => answer 404 BFalsy) noon.

(** Every provider throttles: every request is answered 429. *)
Definition throttled : Env := mkEnv (fun _ _ => answer 429 BFalsy) noon.

Definition kind_of_blue : MB.Release :=
  MB.mkRelease (Some "r1") (Some "Kind of Blue")
    (Some (MB.mkReleaseGroup (Some "rg1")))
    [MB.mkArtistCredit (Some "Miles Davis") (Some "a1")]
    (Some "US") (Some "1959-08-17") [] [Some "jazz"] [].

(** MusicBrainz finds the release by any search and has its detail under
    the id [r1]; every other request is answered 404. *)
Definition musicbrainz_only : Env :=
  mkEnv (fun _ rq =>
           if includes "musicbrainz.org/ws/2/release/?" (rq_url rq)
           then answer 200 (BMBSearch [kind_of_blue])
           else if includes "musicbrainz.org/ws/2/release/r1?" (rq_url rq)
           then answer 200 (BMBRelease kind_of_blue)
           else answer 404 BFalsy)
        noon.

(** The state before the first stage. *)
Definition fresh : St := mkSt (initOut flags0 "2025-10-16T12:00:00.000Z") [].

(** A state in which an earlier stage has set the title. *)
Definition titled : St :=
  mkSt (Out.upd_canonical (Canonical.set_title (Some "So What")) (out fresh))
       [].

(** [enrich -all artist:"Miles Davis" title:"Kind of Blue"], the second
    example of the grammar comment in [parseSeed]. *)
Definition cmd_quoted : string :=
  "enrich -all artist:" ++ dq ++ "Miles Davis" ++ dq
    ++ " title:" ++ dq ++ "Kind of Blue" ++ dq.

(** A track-listing table with one row, whose first cell is [1a]. *)
Definition html_1a : string :=
  "<table class=" ++ dq ++ "wikitable" ++ dq ++ ">"
    ++ "<caption>Track listing</caption>"
    ++ "<tr><td>1a</td><td>Intro</td></tr>"
    ++ "</table>".

(** Three galleries with a repeated and an empty URL. *)
Definition item (u : string) : GalleryItem.t :=
  GalleryItem.mk "enwiki:media-list" "gallery" "File:X" (Some u)
                 None None None None.
Definition with_galleries : St :=
  mkSt (Out.upd_wiki
          (fun _ => Wiki.mk [item "https://u/a"; item ""; item "https://u/c"]
                            [item "https://u/c"]
                            [item "https://u/a"; item "https://u/b"])
          (out fresh))
       [].

(** The three kinds of request, answered by [musicbrainz_only]. *)
Definition by_mbid : Out.t :=
  out (handle musicbrainz_only flags0 [("mbid", "r1")]).
Definition by_upc : Out.t :=
  out (handle musicbrainz_only flags0 [("upc", "888751119215")]).
Definition by_text : Out.t :=
  out (handle musicbrainz_only flags0
              [("artist", "Miles Davis"); ("title", "Kind of Blue")]).

(** A Discogs search through [GETjson], throttled and not found. *)
Definition search_rq : Request :=
  GET "https://api.discogs.com/database/search?barcode=1" JSON_H.
Definition throttled_call : Res (option Body) * St :=
  GETjson throttled "https://api.discogs.com" "/database/search"
          DiscogsHttp "barcode=1" fresh.
Definition missing_call : Res (option Body) * St :=
  GETjson nothing_found "https://api.discogs.com" "/database/search"
          DiscogsHttp "barcode=1" fresh.

End Examples.

(** The key, in lower case, and the value of a token of the command
    grammar, as the loop of [parseSeed] reads them. *)
Definition token (p : string) : option (string * string) :=
  match match_here re_token (start p) with
  | None => None
  | Some (_, m) =>
      Some (Str.toLowerCase (group1 "" m),
            replace_first re_quoted group1
              (match group 2 m with Some g => g | None => "" end))
  end.

(* ===================================================================== *)
(** ** Notions used in the further properties *)
(* ===================================================================== *)

(** From a state where [P] holds of the output document, [m] leads to one
    where [Q] holds, also when it throws. *)
Definition moves (P Q : Out.t -> Prop) {A} (m : M A) : Prop :=
  forall s, P (out s) -> Q (out (snd (m s))).

(** [out.wiki.article_gallery.push(it)] and [out.wiki.artist_gallery.push(it)]
    as functions on the galleries. *)
Definition add_article (it : GalleryItem.t) (w : Wiki.t) : Wiki.t :=
  Wiki.mk (Wiki.article_gallery w ++ [it]) (Wiki.album_gallery w)
          (Wiki.artist_gallery w).
Definition add_artist (it : GalleryItem.t) (w : Wiki.t) : Wiki.t :=
  Wiki.mk (Wiki.article_gallery w) (Wiki.album_gallery w)
          (Wiki.artist_gallery w ++ [it]).
Definition add_note (msg : string) (d : Diagnostics.t) : Diagnostics.t :=
  Diagnostics.set_notes (Diagnostics.notes d ++ [msg]) d.
Definition add_tried (bc : string) (d : Diagnostics.t) : Diagnostics.t :=
  Diagnostics.set_tried_barcodes (Diagnostics.tried_barcodes d ++ [bc]) d.

(** The lines of a section as the extractors store them: at least one,
    none of them empty. *)
Definition lines (l : list string) : Prop := l <> [] /\ ~ In "" l.

(** An item of the article gallery as the Wikipedia stage builds it: a
    titled entry of the media list with an absolute URL. *)
Definition article_item (it : GalleryItem.t) : Prop :=
  GalleryItem.source it = "enwiki:media-list"
  /\ GalleryItem.role it = "gallery"
  /\ GalleryItem.title it <> ""
  /\ truthy (GalleryItem.url it) = true
  /\ startsWith "//" (tmpl (GalleryItem.url it)) = false.

(** An item of the artist gallery as the image stage builds it: a Commons
    file with its URL. *)
Definition artist_item (it : GalleryItem.t) : Prop :=
  GalleryItem.source it = "wikidata:P18"
  /\ GalleryItem.role it = "image"
  /\ (exists f, GalleryItem.title it = ("File:" ++ f)%string)
  /\ truthy (GalleryItem.url it) = true.

(** A reference whose URL is [base] followed by its identifier, and a
    reference to an article of the English Wikipedia, whose URL ends with
    the title as it is or percent-encoded. *)
Definition ref_to (base : string) (r : option IdRef) : Prop :=
  forall x, r = Some x -> url x = (base ++ tmpl (id x))%string.
Definition wiki_ref (r : option IdRef) : Prop :=
  forall x,
    r = Some x ->
    url x = ("https://en.wikipedia.org/wiki/" ++ tmpl (id x))%string
    \/ url x = ("https://en.wikipedia.org/wiki/"
                  ++ encodeURIComponent (tmpl (id x)))%string.

(** A property of the output document that every write of the stages other
    than the Discogs stage and the image stage respects.  Each field is one
    kind of write, with the guard under which the script performs it. *)
Record Frame (J : Out.t -> Prop) : Prop := mkFrame {
  fr_country : forall v o,
    J o -> truthy (Canonical.country (Out.canonical o)) = false ->
    J (Out.upd_canonical (Canonical.set_country v) o);
  fr_label : forall v o,
    J o -> label_truthy (Canonical.label (Out.canonical o)) = false ->
    J (Out.upd_canonical (Canonical.set_label v) o);
  fr_catalog_number : forall v o,
    J o -> truthy (Canonical.catalog_number (Out.canonical o)) = false ->
    J (Out.upd_canonical (Canonical.set_catalog_number v) o);
  fr_year : forall v o,
    J o -> truthy (Canonical.year (Out.canonical o)) = false ->
    J (Out.upd_canonical (Canonical.set_year v) o);
  fr_cover_url : forall v o,
    J o -> truthy (Canonical.cover_url (Out.canonical o)) = false ->
    J (Out.upd_canonical (Canonical.set_cover_url v) o);
  fr_artist : forall v o,
    J o -> truthy (Canonical.artist (Out.canonical o)) = false ->
    J (Out.upd_canonical (Canonical.set_artist v) o);
  fr_title : forall v o,
    J o -> truthy (Canonical.title (Out.canonical o)) = false ->
    J (Out.upd_canonical (Canonical.set_title v) o);
  fr_genre : forall g o,
    J o ->
    J (Out.upd_canonical
         (fun c => Canonical.set_genre (dedupe (Canonical.genre c ++ g)) c) o);
  fr_format : forall o,
    J o -> is_nil (Canonical.format (Out.canonical o)) = true ->
    J (Out.upd_canonical (Canonical.set_format (dedupe ([] ++ ["Album"]))) o);
  fr_mb_release_mbid : forall v o,
    ref_to "https://musicbrainz.org/release/" v ->
    J o -> J (Out.upd_ids (Ids.set_mb_release_mbid v) o);
  fr_mb_release_group : forall v o,
    ref_to "https://musicbrainz.org/release-group/" v ->
    J o -> J (Out.upd_ids (Ids.set_mb_release_group v) o);
  fr_mb_artist_id : forall v o,
    ref_to "https://musicbrainz.org/artist/" v ->
    J o -> J (Out.upd_ids (Ids.set_mb_artist_id v) o);
  fr_discogs_release_id : forall v o,
    ref_to "https://www.discogs.com/release/" v ->
    J o -> is_set (Ids.discogs_release_id (Out.ids o)) = false ->
    J (Out.upd_ids (Ids.set_discogs_release_id v) o);
  fr_wikidata_qid : forall v o,
    ref_to "https://www.wikidata.org/wiki/" v ->
    J o -> is_set (Ids.wikidata_qid (Out.ids o)) = false ->
    J (Out.upd_ids (Ids.set_wikidata_qid v) o);
  fr_artist_wikidata_qid : forall v o,
    ref_to "https://www.wikidata.org/wiki/" v ->
    J o -> is_set (Ids.artist_wikidata_qid (Out.ids o)) = false ->
    J (Out.upd_ids (Ids.set_artist_wikidata_qid v) o);
  fr_wikipedia_title : forall v o,
    wiki_ref v ->
    J o -> is_set (Ids.wikipedia_title (Out.ids o)) = false ->
    J (Out.upd_ids (Ids.set_wikipedia_title v) o);
  fr_summary : forall ti su o,
    J o -> J (Out.upd_wikipedia (Wikipedia.set_summary_title ti su) o);
  fr_infobox : forall v o,
    J o -> J (Out.upd_wikipedia (Wikipedia.set_infobox v) o);
  fr_tracklist : forall rows o,
    rows <> [] ->
    J o -> J (Out.upd_wikipedia (Wikipedia.set_tracklist (Some rows)) o);
  fr_personnel : forall l o,
    lines l ->
    J o -> J (Out.upd_wikipedia (Wikipedia.set_personnel (Some l)) o);
  fr_awards : forall l o,
    lines l ->
    J o -> J (Out.upd_wikipedia (Wikipedia.set_awards (Some l)) o);
  fr_certifications : forall l o,
    lines l ->
    J o -> J (Out.upd_wikipedia (Wikipedia.set_certifications (Some l)) o);
  fr_landmarks : forall hits o,
    hits <> [] -> List.length hits <= 5 ->
    J o ->
    J (Out.upd_wikipedia (Wikipedia.set_landmarks (Some (dedupe hits))) o);
  fr_article_gallery : forall it o,
    article_item it -> J o -> J (Out.upd_wiki (add_article it) o);
  fr_note : forall msg o, J o -> J (Out.upd_diagnostics (add_note msg) o);
  fr_http : forall l e o,
    J o -> J (Out.upd_diagnostics (Diagnostics.push_http l e) o);
  fr_matched_on : forall tag o,
    tag = "upc" \/ tag = "artist+title" ->
    J o -> J (Out.upd_diagnostics (Diagnostics.set_matched_on (Some tag)) o);
  fr_image_urls : forall o,
    J o -> J (Out.set_image_urls (dedupe (collected_urls (Out.wiki o))) o)
}.

(** The two writes left: the artist gallery, which only the image stage
    fills, and the final stamp. *)
Record TailFrame (J : Out.t -> Prop) : Prop := mkTailFrame {
  tf_artist_gallery : forall it o,
    artist_item it -> J o -> J (Out.upd_wiki (add_artist it) o);
  tf_ts_done : forall v o, J o -> J (Out.set_ts_done v o)
}.

(** The writes of the Discogs stage that are not guarded by the field
    being empty, and its writes of artist and title, which keep a truthy
    value through [||]. *)
Record DiscogsFrame (J : Out.t -> Prop) : Prop := mkDiscogsFrame {
  df_release_id : forall v o,
    ref_to "https://www.discogs.com/release/" v ->
    J o -> J (Out.upd_ids (Ids.set_discogs_release_id v) o);
  df_master_id : forall v o,
    ref_to "https://www.discogs.com/master/" v ->
    J o -> J (Out.upd_ids (Ids.set_discogs_master_id v) o);
  df_country : forall v o,
    J o -> J (Out.upd_canonical (Canonical.set_country v) o);
  df_upc : forall v o, J o -> J (Out.upd_canonical (Canonical.set_upc v) o);
  df_artist_or : forall v o,
    J o ->
    J (Out.upd_canonical
         (fun c => Canonical.set_artist (or_else (Canonical.artist c) v) c) o);
  df_title_or : forall v o,
    J o ->
    J (Out.upd_canonical
         (fun c => Canonical.set_title (or_else (Canonical.title c) v) c) o)
}.

(** A list of genres as the script keeps it: no duplicate, no empty
    entry. *)
Definition genre_set (g : list string) : Prop := NoDup g /\ ~ In "" g.

(** [l] starts with [p]. *)
Definition extends {A} (p l : list A) : Prop := exists ext, l = p ++ ext.

(** The diagnostics of [o] still start with what [d0] holds: the notes,
    the tried barcodes and each HTTP log. *)
Definition grown (d0 : Diagnostics.t) (o : Out.t) : Prop :=
  extends (Diagnostics.notes d0) (Diagnostics.notes (Out.diagnostics o))
  /\ extends (Diagnostics.tried_barcodes d0)
             (Diagnostics.tried_barcodes (Out.diagnostics o))
  /\ forall l, extends (Diagnostics.http l d0)
                       (Diagnostics.http l (Out.diagnostics o)).

(** The sections stored from the article are well formed: a list that is
    present is not empty, the lines of the personnel, the awards and the
    certifications are not empty, and the landmarks are at most five
    distinct non-empty phrases. *)
Definition sections_ok (w : Wikipedia.t Body) : Prop :=
  (forall rows, Wikipedia.tracklist w = Some rows -> rows <> [])
  /\ (forall l, Wikipedia.personnel w = Some l -> lines l)
  /\ (forall l, Wikipedia.awards w = Some l -> lines l)
  /\ (forall l, Wikipedia.certifications w = Some l -> lines l)
  /\ (forall l, Wikipedia.landmarks w = Some l ->
                NoDup l /\ ~ In "" l /\ List.length l <= 5).

(** The galleries and the download list are well formed: every item is
    one the stages build, and the download list holds, once each, non-empty
    URLs of gallery items. *)
Definition galleries_ok (o : Out.t) : Prop :=
  Forall article_item (Wiki.article_gallery (Out.wiki o))
  /\ Forall artist_item (Wiki.artist_gallery (Out.wiki o))
  /\ NoDup (Out.image_urls o)
  /\ forall u,
       In u (Out.image_urls o) ->
       u <> ""
       /\ exists it,
            In it (Wiki.article_gallery (Out.wiki o)
                     ++ Wiki.album_gallery (Out.wiki o)
                     ++ Wiki.artist_gallery (Out.wiki o))
            /\ GalleryItem.url it = Some u.

(** Every identifier of the document refers to the page of its kind:
    the URL is the provider's prefix followed by the identifier. *)
Definition ids_ok (o : Out.t) : Prop :=
  let i := Out.ids o in
  ref_to "https://www.discogs.com/release/" (Ids.discogs_release_id i)
  /\ ref_to "https://www.discogs.com/master/" (Ids.discogs_master_id i)
  /\ ref_to "https://musicbrainz.org/release/" (Ids.mb_release_mbid i)
  /\ ref_to "https://musicbrainz.org/release-group/" (Ids.mb_release_group i)
  /\ ref_to "https://musicbrainz.org/artist/" (Ids.mb_artist_id i)
  /\ ref_to "https://www.wikidata.org/wiki/" (Ids.wikidata_qid i)
  /\ ref_to "https://www.wikidata.org/wiki/" (Ids.artist_wikidata_qid i)
  /\ wiki_ref (Ids.wikipedia_title i).

(** The units other than [>] and the units other than [<]. *)
Definition not_gt : ascii -> bool := fun b => negb (Ascii.eqb ">" b).
Definition not_lt : ascii -> bool := fun b => negb (Ascii.eqb b "<").

(** What follows a tag that opens at the start of [s]: the text after the
    first [>], when at least one unit stands between [<] and it. *)
Definition tag_end (s : string) : option string :=
  match s with
  | String "<" (String a r) =>
      if not_gt a then
        match Str.drop_while not_gt r with
        | String _ t => Some t
        | EmptyString => None
        end
      else None
  | _ => None
  end.

(** The fields of a seed that no token of the command writes. *)
Definition query_only (s : Seed.t) :=
  (Seed.mb_release_mbid s, Seed.mb_release_group s, Seed.mb_artist_id s,
   Seed.discogs_master_id s).

(** A world in which every provider knows the record. *)
Module World.

Definition hit : Discogs.Hit :=
  Discogs.mkHit (Some (Num 123)) (Some (Num 45)) (Some "US")
                (Some (LabelNames ["Columbia"]))
    ["Jazz"] ["Modal"; "Jazz"]
    (Some ("Miles Davis" ++ en_dash_sep ++ "Kind Of Blue")%string)
    (Some (Text "1959")) (Some "https://img.example/thumb.jpg").

Definition release : MB.Release :=
  MB.mkRelease (Some "r1") (Some "Kind of Blue")
    (Some (MB.mkReleaseGroup (Some "rg1")))
    [MB.mkArtistCredit (Some "Miles Davis") (Some "a1")]
    (Some "XE") (Some "1959-08-17")
    [Some (MB.mkLabelInfo (Some "CBS") (Some "CS 8163"))]
    [Some "jazz"; Some "modal jazz"]
    [Some "https://www.discogs.com/release/999";
     Some "https://www.wikidata.org/wiki/Q283221";
     Some "https://en.wikipedia.org/wiki/Kind_of_Blue"].

Definition artist_entity : WD.Entity :=
  WD.mkEntity
    [("P18", [Some (WD.DvString "Miles Davis by Palumbo.jpg");
              Some (WD.DvString "Miles Davis 1955.jpg")])]
    (Some "Miles Davis").

Definition page_html : string :=
  "<table class=" ++ dq ++ "wikitable" ++ dq ++ ">"
    ++ "<caption>Track listing</caption>"
    ++ "<tr><th>No.</th><th>Title</th></tr>"
    ++ "<tr><td>1.</td><td><i>So What</i></td></tr>"
    ++ "<tr><td>2.</td><td>Freddie Freeloader</td></tr>"
    ++ "</table>"
    ++ "<h2>Personnel</h2><ul><li><a>Miles Davis</a> - trumpet</li></ul>"
    ++ "<h2>Legacy</h2><p>Often called the most influential jazz album.</p>".

Definition image : Commons.ImageInfo :=
  Commons.mkImageInfo (Some "https://upload.example/miles.jpg")
    (Some 800) (Some 600) (Some "image/jpeg") (Some "CC BY-SA 3.0") None
    (Some "<a>Tom Palumbo</a>") None None (Some "Miles Davis in 1955").

Definition answer (st : nat) (b : Body) : Outcome :=
  Reply (mkResponse st "" b).

Definition net (history : list Event) (rq : Request) : Outcome :=
  let u := rq_url rq in
  if includes "api.discogs.com" u
  then answer 200 (BDiscogsSearch [hit])
  else if includes "musicbrainz.org/ws/2/release/?" u
  then answer 200 (BMBSearch [release])
  else if includes "musicbrainz.org/ws/2/release/r1?" u
  then answer 200 (BMBRelease release)
  else if includes "musicbrainz.org" u
  then answer 200 BObject
  else if includes "query.wikidata.org" u
  then answer 200 (BSparql [Some "http://www.wikidata.org/entity/Q93341"])
  else if includes "Special:EntityData/Q93341" u
  then answer 200 (BEntities [("Q93341", artist_entity)])
  else if includes "/page/summary/" u
  then answer 200 (BSummary (WP.mkSummary (Some "Kind of Blue")
                                          (Some "A studio album.")
                                          (Some "https://img.example/lead.jpg")))
  else if includes "/page/media-list/" u
  then answer 200 (BMediaList
                     [WP.mkMediaItem (Some "File:Cover.jpg")
                        (Some [Some "//img.example/c1.jpg";
                               Some "//img.example/c2.jpg"])])
  else if includes "/page/html/" u
  then Reply (mkResponse 200 page_html (BInvalid "Unexpected token <"))
  else if includes "commons.wikimedia.org" u
  then answer 200 (BCommons [Commons.mkPage (Some "File:Miles.jpg") [image]])
  else answer 404 BFalsy.

Definition env : Env := mkEnv net (fun _ => "2025-10-16T12:00:00.000Z").

(** The run for the barcode of the record. *)
Definition url : SearchParams := [("upc", "888751119215"); ("max_images", "1")].
Definition doc : Out.t := js_body (fetch_handler env url).

(** Another release with the identifier of [release], and the world in
    which it is the answer to the first request of a run. *)
Definition reissue : MB.Release :=
  MB.mkRelease (Some "r1") (Some "Kind of Blue (Legacy Edition)")
    None [MB.mkArtistCredit (Some "M. Davis") (Some "a2")]
    (Some "US") (Some "2009") [] [Some "reissue"] [].

Definition other_first : Env :=
  mkEnv (fun history rq =>
           match history with
           | [] => answer 200 (BMBRelease reissue)
           | _ :: _ => net history rq
           end)
        (fun _ => "2025-10-16T12:00:00.000Z").

(** A network that rejects every request without a message. *)
Definition silent : Env :=
  mkEnv (fun _ _ => NetFail (mkExn "TypeError" ""))
        (fun _ => "2025-10-16T12:00:00.000Z").

(** A network that rejects every request. *)
Definition offline : Env :=
  mkEnv (fun _ _ => NetFail (mkExn "TypeError" "fetch failed"))
        (fun _ => "2025-10-16T12:00:00.000Z").

End World.

(** The stages that run after the Discogs stage. *)
Definition after_discogs : list Stage :=
  [StMusicBrainz; StWikidata; StWikipedia; StImages; StFinalize; StAggregate].

(** A state in which the Discogs stage of [World] has run. *)
Definition discogs_done : St :=
  snd (resolveDiscogsByUPC World.env
         (Seed.set_upc (Some "888751119215") Seed.empty) Examples.fresh).

(** The request of the Discogs stage for a barcode, and the detail request
    of [hydrateMBRelease] for a release. *)
Definition discogs_request (bc : string) : Request :=
  GET (GETjson_url "https://api.discogs.com" "/database/search"
         (form_urlencode [("type", "release"); ("barcode", bc);
                          ("per_page", "1"); ("page", "1")]))
      JSON_H.
Definition mb_detail_request (id : option string) : Request :=
  GET ("https://musicbrainz.org/ws/2/release/" ++ tmpl id ++ "?"
         ++ form_urlencode
              [("fmt", "json");
               ("inc", "url-rels+tags+artist-credits+label-info+release-group")])
      JSON_H.

(** A seed with a title and nothing else. *)
Definition title_only : Seed.t :=
  Seed.set_title (Some "Kind of Blue") Seed.empty.

(** Once more than [n0] events have happened, [m'] runs as [m] does, and
    the events are still more than [n0] afterwards. *)
Definition same (n0 : nat) {A} (m m' : M A) : Prop :=
  forall s,
    n0 < List.length (trace s) ->
    m' s = m s /\ n0 < List.length (trace (snd (m s))).

(** [m] keeps the property [P] of the events that happened, also when it
    throws. *)
Definition traces (P : list Event -> Prop) {A} (m : M A) : Prop :=
  forall s, P (trace s) -> P (trace (snd (m s))).

(** The origins of the providers. *)
Definition origins : list string :=
  ["https://api.discogs.com/"; "https://musicbrainz.org/";
   "https://query.wikidata.org/"; "https://www.wikidata.org/";
   "https://en.wikipedia.org/"; "https://commons.wikimedia.org/"].

(** A request to one of the providers that names the script: the URL
    starts with an origin of the list, the [user-agent] header is [UA], and
    the method is GET without a body, or POST to the SPARQL endpoint. *)
Definition polite (rq : Request) : bool :=
  existsb (fun o => String.prefix o (rq_url rq)) origins
  && existsb (fun h => String.eqb (fst h) "user-agent" && String.eqb (snd h) UA)
             (rq_headers rq)
  && ((String.eqb (rq_method rq) "GET" && negb (is_set (rq_body rq)))
      || (String.eqb (rq_method rq) "POST"
          && String.eqb (rq_url rq) "https://query.wikidata.org/sparql")).

(** What the script may do to the world: a polite request, a pause of two
    seconds, a reading of the clock. *)
Definition event_ok (ev : Event) : Prop :=
  match ev with
  | EvFetch rq => polite rq = true
  | EvSleep ms => ms = 2000
  | EvNow => True
  end.

(** The requests among the events, and their number. *)
Definition is_fetch (ev : Event) : bool :=
  match ev with EvFetch _ => true | _ => false end.
Definition fetches (tr : list Event) : nat :=
  List.length (List.filter is_fetch tr).

(** [m] sends at most [n] requests, also when it throws. *)
Definition costs (n : nat) {A} (m : M A) : Prop :=
  forall s, fetches (trace (snd (m s))) <= fetches (trace s) + n.

(** From a state where [J] holds of the document, [m] sends at most [n]
    requests. *)
Definition spends (J : Out.t -> Prop) (n : nat) {A} (m : M A) : Prop :=
  forall s, J (out s) -> fetches (trace (snd (m s))) <= fetches (trace s) + n.

(* ===================================================================== *)
(** * Properties *)
(* ===================================================================== *)

(** ** The matcher on examples *)

Module RegexExamples.

Example split_white_space :
  split (plus space) "enrich -all  upc:1" = ["enrich"; "-all"; "upc:1"].
Proof. reflexivity. Qed.

Example split_leading_separator :
  split (Chr (one_of "?#")) "?a#b" = [""; "a"; "b"].
Proof. reflexivity. Qed.

Example split_empty_string : split (plus space) "" = [""].
Proof. reflexivity. Qed.

Example lazy_repetition_stops_early :
  List.map fst (match_all Html.re_tr "<TR>a</tr>x<tr>b</tr></tr>")
  = ["<TR>a</tr>"; "<tr>b</tr>"].
Proof. reflexivity. Qed.

Example greedy_repetition_backtracks :
  replace_first re_quoted group1 (dq ++ "a" ++ dq ++ "b" ++ dq)
  = ("a" ++ dq ++ "b")%string.
Proof. reflexivity. Qed.

Example quoted_needs_both_quotes :
  replace_first re_quoted group1 (dq ++ "Miles") = (dq ++ "Miles")%string.
Proof. reflexivity. Qed.

Example lookahead_consumes_nothing :
  List.map fst (match_all Html.re_section "<h2>A</h2>x<h2>B</h2>y")
  = ["<h2>A</h2>x"; "<h2>B</h2>y"].
Proof. reflexivity. Qed.

Example word_boundary : titleCase (Some "hard bop, cool-jazz") = "Hard Bop, Cool-Jazz".
Proof. reflexivity. Qed.

Example strip_tags : stripHtml "<td><i>So What</i> (take 1)</td>" = "So What (take 1)".
Proof. reflexivity. Qed.

Example form_encoding :
  form_urlencode [("query", "barcode:0123"); ("fmt", "json")]
  = "query=barcode%3A0123&fmt=json".
Proof. reflexivity. Qed.

End RegexExamples.

(** ** Strings *)

Module StrFacts.

Lemma filter_length p s : String.length (Str.filter p s) <= String.length s.
Proof.
  induction s as [|c s IH]; simpl; [lia|].
  destruct (p c); simpl; lia.
Qed.

Lemma forallb_filter p s : Str.forallb p (Str.filter p s) = true.
Proof.
  induction s as [|c s IH]; simpl; [reflexivity|].
  destruct (p c) eqn:E; simpl; [rewrite E|]; assumption.
Qed.

Lemma filter_all p s : Str.forallb p s = true -> Str.filter p s = s.
Proof.
  induction s as [|c s IH]; simpl; [reflexivity|].
  intros H. apply andb_true_iff in H as [Hc Hs].
  rewrite Hc, IH; auto.
Qed.

Lemma forallb_drop_while p q s :
  Str.forallb p s = true -> Str.forallb p (Str.drop_while q s) = true.
Proof.
  induction s as [|c s IH]; simpl; [reflexivity|].
  intros H. destruct (q c); simpl.
  - apply andb_true_iff in H as [_ Hs]. auto.
  - assumption.
Qed.

Lemma drop_while_length p s :
  String.length (Str.drop_while p s) <= String.length s.
Proof.
  induction s as [|c s IH]; simpl; [lia|].
  destruct (p c); simpl; lia.
Qed.

Lemma drop_while_idem p s :
  Str.drop_while p (Str.drop_while p s) = Str.drop_while p s.
Proof.
  induction s as [|c s IH]; simpl; [reflexivity|].
  destruct (p c) eqn:E; [assumption|].
  simpl. rewrite E. reflexivity.
Qed.

Lemma is_empty_true s : Str.is_empty s = true <-> s = "".
Proof. destruct s; simpl; split; congruence. Qed.

Lemma is_empty_length s : Str.is_empty s = (String.length s =? 0).
Proof. destruct s; reflexivity. Qed.

End StrFacts.

(** ** The matcher on the expressions of the barcode canonicaliser *)

Module RegexFacts.

Lemma skip_while_rest p prev s :
  rest (skip_while p prev s) = Str.drop_while p s.
Proof.
  revert prev; induction s as [|a s IH]; intros prev; simpl; [reflexivity|].
  destruct (p a); [apply IH | reflexivity].
Qed.

(** A greedy repetition of a class, under a continuation that accepts
    everything, runs to the end of the run. *)
Lemma star_class_greedy (R : Type) p body (k : cursor -> caps -> option R) :
  (forall c cs k', body c cs k' = rmatch (Chr p) c cs k') ->
  (forall c cs, k c cs <> None) ->
  forall fuel c cs,
    String.length (rest c) <= fuel ->
    star_loop body true fuel c cs k = k (skip_while p (fst c) (rest c)) cs.
Proof.
  intros Hbody Hk fuel; induction fuel as [|fuel IH]; intros [prev s] cs Hlen;
    cbn [rest fst snd] in *.
  - destruct s; simpl in *; [reflexivity | lia].
  - cbn [star_loop]. rewrite Hbody.
    destruct s as [|a s]; [reflexivity|].
    cbn [rmatch rest snd skip_while].
    destruct (p a); [|reflexivity].
    cbn [rest snd String.length].
    assert (Hlt : (String.length s <? S (String.length s)) = true)
      by (apply Nat.ltb_lt; lia).
    rewrite Hlt.
    rewrite (IH (Some a, s) cs) by (simpl in *; lia).
    cbn [fst snd rest].
    destruct (k (skip_while p (Some a) s) cs) eqn:E; [reflexivity|].
    exfalso; eapply Hk; eassumption.
Qed.

(** One or more units of a class, tried at a cursor. *)
Lemma match_here_plus_class p prev s :
  match_here (plus (Chr p)) (prev, s)
  = match s with
    | String a r =>
        if p a then Some (skip_while p (Some a) r, []) else None
    | EmptyString => None
    end.
Proof.
  unfold match_here, plus; simpl.
  destruct s as [|a r]; simpl; [reflexivity|].
  destruct (p a); [|reflexivity].
  rewrite (@star_class_greedy _ p); simpl; auto; congruence.
Qed.

(** Erasing every run of a class keeps the units outside it. *)
Lemma erase_class_from p fuel : forall c,
  String.length (rest c) < fuel ->
  replace_all_from (plus (Chr p)) erase fuel c
  = Str.filter (fun a => negb (p a)) (rest c).
Proof.
  induction fuel as [|fuel IH]; intros [prev s] Hlen; [simpl in Hlen; lia|].
  unfold rest in *; simpl in Hlen.
  cbn [replace_all_from]. rewrite match_here_plus_class.
  destruct s as [|a r]; [reflexivity|].
  simpl in Hlen. cbn [snd rest Str.filter].
  destruct (p a) eqn:Ea; cbn [negb].
  - pose proof (StrFacts.drop_while_length p r) as Hd.
    rewrite skip_while_rest.
    assert (Hlt : (String.length (Str.drop_while p r)
                   <? String.length (String a r)) = true)
      by (apply Nat.ltb_lt; simpl; lia).
    rewrite Hlt. unfold erase at 1. simpl append.
    rewrite IH by (rewrite skip_while_rest; lia).
    rewrite skip_while_rest.
    clear. induction r as [|b r IHr]; simpl; [reflexivity|].
    destruct (p b) eqn:Eb; simpl; [assumption | rewrite Eb; reflexivity].
  - unfold rest; simpl. rewrite IH by (simpl; lia). reflexivity.
Qed.

Lemma erase_nondigits s :
  replace_all re_nondigits erase s = Str.filter is_digit s.
Proof.
  unfold replace_all, re_nondigits.
  rewrite erase_class_from by (simpl; lia). simpl.
  induction s as [|a s IH]; simpl; [reflexivity|].
  rewrite negb_involutive, IH. reflexivity.
Qed.

(** An expression anchored at the start matches nowhere else. *)
Lemma anchored_later r f fuel : forall a s,
  replace_first_from (Seq Bol r) f fuel (Some a, s) = s.
Proof.
  induction fuel as [|fuel IH]; intros a s; simpl.
  - destruct s; reflexivity.
  - destruct s as [|b s]; [reflexivity|]. unfold rest; simpl.
    rewrite IH. reflexivity.
Qed.

Lemma match_here_anchored r s :
  match_here (Seq Bol r) (start s) = match_here r (start s).
Proof. reflexivity. Qed.

Lemma erase_leading_zeros s :
  replace_first re_leading_zeros erase s = Str.drop_while is_zero s.
Proof.
  unfold replace_first, re_leading_zeros.
  destruct s as [|a s]; [reflexivity|].
  cbn [String.length replace_first_from].
  rewrite match_here_anchored.
  change (chr "0") with (Chr is_zero). unfold start.
  rewrite match_here_plus_class. cbn [Str.drop_while].
  destruct (is_zero a) eqn:E.
  - unfold erase; simpl. rewrite skip_while_rest. reflexivity.
  - cbn [rest snd]. rewrite anchored_later. reflexivity.
Qed.

End RegexFacts.

(** ** Barcode canonicalisation *)

Section Barcode.

Import StrFacts RegexFacts.

Lemma normalizeBarcode_digits b :
  normalizeBarcode (Some b)
  = let digits := Str.filter is_digit b in
    if Str.is_empty digits then None else Some (canonical_digits digits).
Proof.
  unfold normalizeBarcode, canonical_digits.
  rewrite erase_nondigits, erase_leading_zeros.
  destruct b as [|a b]; [reflexivity|].
  cbn [Str.is_empty]. cbv zeta.
  destruct (Str.is_empty (Str.filter is_digit (String a b))); [reflexivity|].
  destruct (String.length (Str.filter is_digit (String a b)) =? 12);
    [reflexivity|].
  destruct (String.length (Str.filter is_digit (String a b)) =? 13);
    reflexivity.
Qed.

Lemma canonical_digits_digits d :
  Str.forallb is_digit d = true ->
  Str.forallb is_digit (canonical_digits d) = true.
Proof.
  intros H. unfold canonical_digits.
  repeat match goal with
         | |- context [if ?b then _ else _] => destruct b
         end; auto using forallb_drop_while.
Qed.

Lemma canonical_digits_nonempty d :
  Str.is_empty d = false -> Str.is_empty (canonical_digits d) = false.
Proof.
  intros H. unfold canonical_digits.
  destruct (String.length d =? 12); [assumption|].
  destruct (String.length d =? 13); [assumption|].
  cbv zeta.
  destruct (Str.is_empty (Str.drop_while (Ascii.eqb "0") d)) eqn:E;
    assumption.
Qed.

Lemma canonical_digits_cases d :
  canonical_digits d = d
  \/ (canonical_digits d = Str.drop_while (Ascii.eqb "0") d
      /\ Str.is_empty (Str.drop_while (Ascii.eqb "0") d) = false).
Proof.
  unfold canonical_digits.
  destruct (String.length d =? 12); [left; reflexivity|].
  destruct (String.length d =? 13); [left; reflexivity|].
  cbv zeta.
  destruct (Str.is_empty (Str.drop_while (Ascii.eqb "0") d)) eqn:E;
    [left | right]; auto.
Qed.

Lemma canonical_digits_idem d :
  canonical_digits (canonical_digits d) = canonical_digits d.
Proof.
  destruct (canonical_digits_cases d) as [H | [H Ht]]; rewrite H.
  - exact H.
  - unfold canonical_digits. rewrite drop_while_idem, Ht.
    destruct (String.length (Str.drop_while (Ascii.eqb "0") d) =? 12);
      [reflexivity|].
    destruct (String.length (Str.drop_while (Ascii.eqb "0") d) =? 13);
      reflexivity.
Qed.

Lemma normalizeBarcode_twice b :
  normalizeBarcode (normalizeBarcode b) = normalizeBarcode b.
Proof.
  destruct b as [b|]; [|reflexivity].
  rewrite normalizeBarcode_digits. cbv zeta.
  destruct (Str.is_empty (Str.filter is_digit b)) eqn:E; [reflexivity|].
  rewrite normalizeBarcode_digits. cbv zeta.
  rewrite filter_all
    by (apply canonical_digits_digits, forallb_filter).
  rewrite canonical_digits_nonempty by assumption.
  rewrite canonical_digits_idem. reflexivity.
Qed.

End Barcode.

(** C9.  Barcode canonicalisation is idempotent.  A string of exactly 12 or
    exactly 13 digits is returned unchanged, and canonicalising twice is
    canonicalising once, for every input.  When the digits kept from the
    input form a non-empty string of another length, its leading zeros are
    stripped, and the digit string itself is the result when nothing would
    be left.  An input without a digit, like no input, gives [null]. *)
Theorem normalizeBarcode_canonical :
  (forall s,
      Str.forallb is_digit s = true ->
      String.length s = 12 \/ String.length s = 13 ->
      normalizeBarcode (Some s) = Some s)
  /\ (forall b, normalizeBarcode (normalizeBarcode b) = normalizeBarcode b)
  /\ (forall b,
         let digits := Str.filter is_digit b in
         let stripped := Str.drop_while (Ascii.eqb "0") digits in
         digits <> "" ->
         String.length digits <> 12 ->
         String.length digits <> 13 ->
         normalizeBarcode (Some b)
         = Some (if Str.is_empty stripped then digits else stripped))
  /\ (forall b, Str.filter is_digit b = "" -> normalizeBarcode (Some b) = None)
  /\ normalizeBarcode None = None.
Proof.
  split; [|split; [|split; [|split]]].
  - intros s Hd Hlen. rewrite normalizeBarcode_digits. cbv zeta.
    rewrite StrFacts.filter_all by assumption.
    unfold canonical_digits.
    destruct Hlen as [H | H]; rewrite H; destruct s; simpl in *;
      try discriminate; reflexivity.
  - apply normalizeBarcode_twice.
  - intros b digits stripped Hne H12 H13.
    rewrite normalizeBarcode_digits. fold digits. cbv zeta.
    destruct (Str.is_empty digits) eqn:E.
    { apply StrFacts.is_empty_true in E. contradiction. }
    unfold canonical_digits. fold stripped.
    apply Nat.eqb_neq in H12, H13. rewrite H12, H13. reflexivity.
  - intros b H. rewrite normalizeBarcode_digits. cbv zeta. rewrite H.
    reflexivity.
  - reflexivity.
Qed.


(** ** Deduplication *)

Module DedupeFacts.

Lemma has_In x s : JSSet.has x s = true <-> In x s.
Proof.
  unfold JSSet.has. rewrite existsb_exists. split.
  - intros (y & Hy & E). apply String.eqb_eq in E. subst. assumption.
  - intros H. exists x. split; [assumption | apply String.eqb_refl].
Qed.

Lemma of_list_snoc l x :
  JSSet.of_list (l ++ [x]) = JSSet.add (JSSet.of_list l) x.
Proof. unfold JSSet.of_list. rewrite fold_left_app. reflexivity. Qed.

(** The set built from a list has the elements of the list. *)
Lemma of_list_In l : forall x, In x (JSSet.of_list l) <-> In x l.
Proof.
  induction l as [|z l IH] using rev_ind; intros x; [reflexivity|].
  rewrite of_list_snoc. unfold JSSet.add.
  destruct (JSSet.has z (JSSet.of_list l)) eqn:E.
  - apply has_In, IH in E. rewrite IH, in_app_iff. simpl.
    intuition (subst; auto).
  - rewrite !in_app_iff, IH. reflexivity.
Qed.

Lemma of_list_NoDup l : NoDup (JSSet.of_list l).
Proof.
  induction l as [|z l IH] using rev_ind; [constructor|].
  rewrite of_list_snoc. unfold JSSet.add.
  destruct (JSSet.has z (JSSet.of_list l)) eqn:E; [assumption|].
  apply NoDup_rev in IH. rewrite <- (rev_involutive (_ ++ [z])).
  apply NoDup_rev. rewrite rev_app_distr. simpl. constructor; [|assumption].
  rewrite <- in_rev. intros H. apply has_In in H. congruence.
Qed.

Lemma index_of_app_l x l r :
  In x l -> index_of x (l ++ r) = index_of x l.
Proof.
  induction l as [|y l IH]; simpl; [contradiction|].
  intros H. destruct (String.eqb x y) eqn:E; [reflexivity|].
  f_equal. apply IH. destruct H as [H | H]; [|assumption].
  subst. rewrite String.eqb_refl in E. discriminate.
Qed.

Lemma index_of_app_r x l r :
  ~ In x l -> index_of x (l ++ r) = List.length l + index_of x r.
Proof.
  induction l as [|y l IH]; simpl; [reflexivity|].
  intros H. destruct (String.eqb x y) eqn:E.
  - apply String.eqb_eq in E. subst. exfalso. auto.
  - f_equal. apply IH. auto.
Qed.

Lemma index_of_lt x l : In x l -> index_of x l < List.length l.
Proof.
  induction l as [|y l IH]; simpl; [contradiction|].
  intros H. destruct (String.eqb x y) eqn:E; [lia|].
  destruct H as [H | H]; [|apply IH in H; lia].
  subst. rewrite String.eqb_refl in E. discriminate.
Qed.

Lemma index_of_last x : index_of x [x] = 0.
Proof. simpl. rewrite String.eqb_refl. reflexivity. Qed.

(** The elements of the set are in the order of their first occurrences
    in the list. *)
Lemma of_list_order l : forall x y,
  In x (JSSet.of_list l) -> In y (JSSet.of_list l) ->
  (index_of x (JSSet.of_list l) < index_of y (JSSet.of_list l)
   <-> index_of x l < index_of y l).
Proof.
  induction l as [|z l IH] using rev_ind; intros x y Hx Hy;
    [contradiction|].
  revert Hx Hy. rewrite of_list_snoc. unfold JSSet.add.
  destruct (JSSet.has z (JSSet.of_list l)) eqn:E.
  - intros Hx Hy.
    pose proof (proj1 (of_list_In l x) Hx) as Hx'.
    pose proof (proj1 (of_list_In l y) Hy) as Hy'.
    rewrite (@index_of_app_l x l [z] Hx'), (@index_of_app_l y l [z] Hy').
    apply IH; assumption.
  - assert (Hz : ~ In z l).
    { intros H. apply (of_list_In l z), has_In in H. congruence. }
    assert (Hz' : ~ In z (JSSet.of_list l)) by (rewrite of_list_In; exact Hz).
    rewrite !in_app_iff. simpl.
    intros [Hx | [Hx | []]] [Hy | [Hy | []]]; subst.
    + pose proof (proj1 (of_list_In l x) Hx) as Hx'.
      pose proof (proj1 (of_list_In l y) Hy) as Hy'.
      rewrite (@index_of_app_l x _ [z] Hx), (@index_of_app_l y _ [z] Hy).
      rewrite (@index_of_app_l x l [z] Hx'), (@index_of_app_l y l [z] Hy').
      apply IH; assumption.
    + pose proof (proj1 (of_list_In l x) Hx) as Hx'.
      rewrite (@index_of_app_l x _ [y] Hx), (@index_of_app_r y _ [y] Hz').
      rewrite (@index_of_app_l x l [y] Hx'), (@index_of_app_r y l [y] Hz).
      apply index_of_lt in Hx, Hx'. lia.
    + pose proof (proj1 (of_list_In l y) Hy) as Hy'.
      rewrite (@index_of_app_l y _ [x] Hy), (@index_of_app_r x _ [x] Hz').
      rewrite (@index_of_app_l y l [x] Hy'), (@index_of_app_r x l [x] Hz).
      apply index_of_lt in Hy, Hy'. lia.
    + lia.
Qed.

Lemma dedupe_truthy l :
  Forall (fun u => u <> "") l -> dedupe l = JSSet.of_list l.
Proof.
  intros H. unfold dedupe, JSSet.to_list. f_equal.
  induction H as [|u l Hu Hl IH]; simpl; [reflexivity|].
  destruct u; [contradiction|]. simpl. f_equal. exact IH.
Qed.

Lemma dedupe_In l x : In x (dedupe l) <-> In x l /\ x <> "".
Proof.
  unfold dedupe, JSSet.to_list. rewrite of_list_In, filter_In.
  destruct x; simpl; intuition congruence.
Qed.

Lemma dedupe_NoDup l : NoDup (dedupe l).
Proof. apply of_list_NoDup. Qed.

Lemma gallery_urls_In g u :
  In u (gallery_urls g)
  <-> u <> "" /\ exists it, In it g /\ GalleryItem.url it = Some u.
Proof.
  unfold gallery_urls. rewrite in_flat_map. split.
  - intros (it & Hit & Hu).
    destruct (GalleryItem.url it) as [v|] eqn:E; simpl in Hu; [|contradiction].
    destruct v; simpl in Hu; [contradiction|].
    destruct Hu as [Hu | []]. subst. split; [discriminate|].
    exists it. auto.
  - intros (Hne & it & Hit & Hu). exists it. split; [assumption|].
    rewrite Hu. destruct u; [contradiction|]. simpl. auto.
Qed.

Lemma collected_urls_app w :
  collected_urls w
  = gallery_urls (Wiki.article_gallery w)
      ++ gallery_urls (Wiki.album_gallery w)
      ++ gallery_urls (Wiki.artist_gallery w).
Proof. unfold collected_urls. simpl. rewrite app_nil_r. reflexivity. Qed.

Lemma collected_urls_truthy w : Forall (fun u => u <> "") (collected_urls w).
Proof.
  rewrite collected_urls_app. rewrite !Forall_app.
  repeat split; apply Forall_forall; intros u Hu;
    apply gallery_urls_In in Hu; tauto.
Qed.

End DedupeFacts.

(** C6.  After [aggregateDownloadList], whatever the three galleries hold,
    [downloads.image_urls] has no duplicate and no empty URL; it holds
    exactly the truthy URLs of the items; and its URLs are in first-seen
    order for the traversal article gallery, album gallery, artist gallery:
    one URL precedes another exactly when its first occurrence in that
    traversal does. *)
Theorem aggregateDownloadList_first_seen (s : St) :
  let w := Out.wiki (out s) in
  let seen := gallery_urls (Wiki.article_gallery w)
                ++ gallery_urls (Wiki.album_gallery w)
                ++ gallery_urls (Wiki.artist_gallery w) in
  let urls := Out.image_urls (out (snd (aggregateDownloadList s))) in
  NoDup urls
  /\ ~ In "" urls
  /\ (forall u, In u urls <->
        u <> "" /\
        exists it,
          In it (Wiki.article_gallery w ++ Wiki.album_gallery w
                   ++ Wiki.artist_gallery w)
          /\ GalleryItem.url it = Some u)
  /\ (forall x y, In x urls -> In y urls ->
        (index_of x urls < index_of y urls
         <-> index_of x seen < index_of y seen)).
Proof.
  intros w seen urls.
  assert (Hurls : urls = JSSet.of_list seen).
  { unfold urls, aggregateDownloadList, modify. simpl.
    fold w. rewrite DedupeFacts.dedupe_truthy
      by apply DedupeFacts.collected_urls_truthy.
    rewrite DedupeFacts.collected_urls_app. reflexivity. }
  assert (Hseen : forall u, In u seen <->
            u <> "" /\
            exists it,
              In it (Wiki.article_gallery w ++ Wiki.album_gallery w
                       ++ Wiki.artist_gallery w)
              /\ GalleryItem.url it = Some u).
  { intros u. unfold seen.
    rewrite !in_app_iff, !DedupeFacts.gallery_urls_In. split.
    - intros [(H & it & Hi & Hu) | [(H & it & Hi & Hu) | (H & it & Hi & Hu)]];
        (split; [assumption|]); exists it; rewrite !in_app_iff; auto.
    - intros (H & it & Hi & Hu). rewrite !in_app_iff in Hi.
      destruct Hi as [Hi | [Hi | Hi]]; [left | right; left | right; right];
        (split; [assumption|]); exists it; auto. }
  rewrite Hurls.
  split; [apply DedupeFacts.of_list_NoDup|].
  split; [rewrite DedupeFacts.of_list_In, Hseen; tauto|].
  split; [intros u; rewrite DedupeFacts.of_list_In; apply Hseen|].
  intros x y. apply DedupeFacts.of_list_order.
Qed.


(** ** The JSON fetch helper *)

Module FetchFacts.

Lemma http_push l e d :
  Diagnostics.http l (Diagnostics.push_http l e d)
  = Diagnostics.http l d ++ [e].
Proof. destruct l; reflexivity. Qed.

Lemma http_push_other l l' e d :
  l <> l' ->
  Diagnostics.http l' (Diagnostics.push_http l e d) = Diagnostics.http l' d.
Proof. destruct l, l'; intros H; try reflexivity; contradiction. Qed.

(** The run of [GETjson] whose first answer is throttled. *)
Lemma GETjson_throttled env base path log qs s r1 r2 :
  let rq := GET (GETjson_url base path qs) JSON_H in
  net env (trace s) rq = Reply r1 ->
  status r1 = 429 ->
  net env (trace s ++ [EvFetch rq; EvSleep 2000]) rq = Reply r2 ->
  GETjson env base path log qs s
  = ((if ok r2
      then match body r2 with
           | BInvalid why => Throw (mkExn "SyntaxError" why)
           | b => Ok (Some b)
           end
      else Ok None),
     mkSt (Out.upd_diagnostics
             (fun d => Diagnostics.push_http log
                         (retry_entry path (status r2))
                         (Diagnostics.push_http log
                            (first_entry path qs (status r1)) d))
             (out s))
          (trace s ++ [EvFetch rq; EvSleep 2000; EvFetch rq])).
Proof.
  intros rq H1 H429 H2.
  unfold GETjson, bind, fetch. fold (GETjson_url base path qs). fold rq.
  rewrite H1. unfold push_http, modify, sleep. cbn [out trace].
  rewrite H429. cbn [Nat.eqb].
  cbn [out trace]. rewrite <- app_assoc. cbn [app]. rewrite H2.
  cbn [out trace]. rewrite <- !app_assoc. cbn [app].
  unfold Out.upd_diagnostics, first_entry, retry_entry. cbn.
  rewrite ?H429.
  destruct (ok r2); cbn [negb]; [|reflexivity].
  unfold json. destruct (body r2); reflexivity.
Qed.

(** The run of [GETjson] whose first answer is not throttled. *)
Lemma GETjson_direct env base path log qs s r1 :
  let rq := GET (GETjson_url base path qs) JSON_H in
  net env (trace s) rq = Reply r1 ->
  status r1 <> 429 ->
  GETjson env base path log qs s
  = ((if ok r1
      then match body r1 with
           | BInvalid why => Throw (mkExn "SyntaxError" why)
           | b => Ok (Some b)
           end
      else Ok None),
     mkSt (Out.upd_diagnostics
             (Diagnostics.push_http log (first_entry path qs (status r1)))
             (out s))
          (trace s ++ [EvFetch rq])).
Proof.
  intros rq H1 H429.
  unfold GETjson, bind, fetch. fold (GETjson_url base path qs). fold rq.
  rewrite H1. unfold push_http, modify. cbn [out trace].
  apply Nat.eqb_neq in H429. rewrite H429.
  destruct (ok r1); [|reflexivity].
  unfold json. destruct (body r1); reflexivity.
Qed.

End FetchFacts.

(** C4.  A call of [GETjson] whose first answer has status 429 waits 2000
    ms and issues exactly one retry of the same request.  If the retry is
    not successful either the call returns [null], and exactly two lines
    were appended to the log of the caller: the first attempt with path,
    query and status 429, then the retry with its path and status.  On a
    first answer with another status that is no success there is no retry:
    one request, one line, and the call returns [null]. *)
Theorem GETjson_single_retry env base path log qs (s : St) (r1 : Response) :
  let rq := GET (GETjson_url base path qs) JSON_H in
  let res := fst (GETjson env base path log qs s) in
  let s' := snd (GETjson env base path log qs s) in
  let logged := Diagnostics.http log (Out.diagnostics (out s')) in
  let before := Diagnostics.http log (Out.diagnostics (out s)) in
  net env (trace s) rq = Reply r1 ->
  (status r1 = 429 ->
   forall r2,
     net env (trace s ++ [EvFetch rq; EvSleep 2000]) rq = Reply r2 ->
     trace s' = trace s ++ [EvFetch rq; EvSleep 2000; EvFetch rq]
     /\ (ok r2 = false ->
         res = Ok None
         /\ logged = before ++ [first_entry path qs 429;
                                retry_entry path (status r2)]))
  /\ (status r1 <> 429 -> ok r1 = false ->
      trace s' = trace s ++ [EvFetch rq]
      /\ res = Ok None
      /\ logged = before ++ [first_entry path qs (status r1)]).
Proof.
  intros rq res s' logged before H1. split.
  - intros H429 r2 H2.
    pose proof (@FetchFacts.GETjson_throttled env base path log qs s r1 r2
                  H1 H429 H2) as E.
    unfold logged, before, res, s'. rewrite E. cbn [fst snd trace out].
    split; [reflexivity|].
    intros Hok. rewrite Hok. split; [reflexivity|].
    unfold Out.upd_diagnostics. cbn [Out.diagnostics].
    rewrite !FetchFacts.http_push, H429, <- app_assoc. reflexivity.
  - intros H429 Hok.
    pose proof (@FetchFacts.GETjson_direct env base path log qs s r1 H1 H429)
      as E.
    unfold logged, before, res, s'. rewrite E. cbn [fst snd trace out].
    rewrite Hok. repeat split.
    unfold Out.upd_diagnostics. cbn [Out.diagnostics].
    rewrite FetchFacts.http_push. reflexivity.
Qed.

(** ** The barcode variants *)

Module SeedFacts.

Import StrFacts.

Lemma normalizeBarcode_truthy b d :
  normalizeBarcode b = Some d -> truthy (Some d) = true.
Proof.
  destruct b as [b|]; [|discriminate].
  rewrite normalizeBarcode_digits. cbv zeta.
  destruct (Str.is_empty (Str.filter is_digit b)) eqn:E; [discriminate|].
  intros H. injection H as <-. simpl.
  rewrite canonical_digits_nonempty by assumption. reflexivity.
Qed.

Lemma eqb_longer a d : String.eqb (String a d) d = false.
Proof.
  apply String.eqb_neq. intros H.
  apply (f_equal String.length) in H. simpl in H. lia.
Qed.

Lemma dedupe_pair a d :
  d <> "" -> dedupe [d; String a d] = [d; String a d].
Proof.
  intros H. destruct d as [|c d]; [contradiction|].
  unfold dedupe, JSSet.to_list, JSSet.of_list, JSSet.add, JSSet.has.
  cbn [List.filter Str.is_empty negb fold_left existsb JSSet.empty orb app].
  rewrite eqb_longer. reflexivity.
Qed.

Lemma dedupe_single d : d <> "" -> dedupe [d] = [d].
Proof. intros H. destruct d; [contradiction | reflexivity]. Qed.

Lemma filter_nonempty_pair a d :
  d <> "" -> List.filter nonempty [d; String a d] = [d; String a d].
Proof. intros H. destruct d; [contradiction | reflexivity]. Qed.

End SeedFacts.


(** ** The tracklist extractor *)

Module TracklistFacts.

Import RegexFacts.

(** An anchored expression is not found after the start. *)
Lemma test_anchored_later r fuel : forall a s,
  test_from (Seq Bol r) fuel (Some a, s) = false.
Proof.
  induction fuel as [|fuel IH]; intros a s; simpl.
  - reflexivity.
  - destruct s as [|b s]; [reflexivity|]. unfold advance; simpl. apply IH.
Qed.

Lemma test_leading_digits s :
  test Html.re_leading_digits s = starts_with_digit s.
Proof.
  unfold test, Html.re_leading_digits.
  destruct s as [|a s]; [reflexivity|].
  cbn [String.length test_from]. rewrite match_here_anchored.
  unfold start. rewrite match_here_plus_class.
  cbn [starts_with_digit].
  destruct (is_digit a); [reflexivity|].
  unfold advance; cbn [rest snd]. apply test_anchored_later.
Qed.

Lemma row_captured_iff cols :
  Html.row_captured cols = true
  <-> 2 <= List.length cols /\ starts_with_digit (nth 0 cols "") = true.
Proof.
  unfold Html.row_captured.
  rewrite andb_true_iff, Nat.leb_le, test_leading_digits. reflexivity.
Qed.

(** The loop over the rows of a table appends the captured rows. *)
Lemma push_rows rows : forall acc,
  fold_left Html.push_row rows acc
  = acc ++ List.map track_of
             (List.filter Html.row_captured (List.map Html.row_cols rows)).
Proof.
  induction rows as [|r rows IH]; intros acc; simpl.
  - rewrite app_nil_r. reflexivity.
  - rewrite IH. unfold Html.push_row at 1.
    destruct (Html.row_captured (Html.row_cols r)); simpl.
    + rewrite <- app_assoc. reflexivity.
    + reflexivity.
Qed.

(** The loop over the tables appends the captured rows of each table that
    passes the test. *)
Lemma scan_tables tbs : forall acc,
  fold_left Html.scan_table tbs acc
  = acc ++ List.map track_of
             (List.filter Html.row_captured
                (List.map Html.row_cols
                   (List.flat_map Html.table_rows
                      (List.filter Html.is_track_table tbs)))).
Proof.
  induction tbs as [|tb tbs IH]; intros acc; simpl.
  - rewrite app_nil_r. reflexivity.
  - rewrite IH. unfold Html.scan_table at 1, Html.is_track_table.
    rewrite <- negb_orb.
    destruct (test Html.re_track_listing tb || test Html.re_track_no tb);
      simpl; [|reflexivity].
    rewrite push_rows, map_app, filter_app, map_app, <- app_assoc.
    reflexivity.
Qed.

End TracklistFacts.

(** C8, as the script has it.  In the tracklist extractor a row of a table
    that passes the track-listing test is captured, as the pair of its first
    two cells, if and only if it has at least two cells and its first cell
    begins with a decimal digit; the captured rows are in table order and,
    within a table, in row order.  A row whose first cell does not begin
    with a digit never appears.  The field [wikipedia.tracklist] is set to
    the captured rows when there is one, and left as it was otherwise. *)
Theorem tracklist_rows_leading_digit (html : string) :
  Html.tracklist_rows html
  = List.map track_of (List.filter Html.row_captured (candidate_rows html))
  /\ (forall cols,
         Html.row_captured cols = true
         <-> 2 <= List.length cols /\ starts_with_digit (nth 0 cols "") = true)
  /\ (forall t, In t (Html.tracklist_rows html) -> starts_with_digit (no t) = true)
  /\ (forall s,
         Wikipedia.tracklist
           (Out.wikipedia (out (snd (extractTracklistFromHTML html s))))
         = match Html.tracklist_rows html with
           | [] => Wikipedia.tracklist (Out.wikipedia (out s))
           | rows => Some rows
           end).
Proof.
  assert (Hrows : Html.tracklist_rows html
                  = List.map track_of
                      (List.filter Html.row_captured (candidate_rows html))).
  { unfold Html.tracklist_rows. rewrite TracklistFacts.scan_tables.
    reflexivity. }
  split; [exact Hrows|].
  split; [exact TracklistFacts.row_captured_iff|].
  split.
  - intros t Ht. rewrite Hrows in Ht.
    apply in_map_iff in Ht as (cols & <- & Hc).
    apply filter_In in Hc as [_ Hc].
    apply TracklistFacts.row_captured_iff in Hc. apply Hc.
  - intros s. unfold extractTracklistFromHTML.
    destruct (Html.tracklist_rows html); reflexivity.
Qed.

(** ** Frame reasoning on the output document *)

Section Keeps.

Variable J : Out.t -> Prop.

Lemma keeps_ret A (a : A) : keeps J (ret a).
Proof. intros s H. exact H. Qed.

Lemma keeps_throw A e : keeps J (@throw A e).
Proof. intros s H. exact H. Qed.

Lemma keeps_bind A B (m : M A) (f : A -> M B) :
  keeps J m -> (forall a, keeps J (f a)) -> keeps J (bind m f).
Proof.
  intros Hm Hf s H. unfold bind. specialize (Hm s H).
  destruct (m s) as [[a | e] s']; simpl in *; [apply Hf|]; assumption.
Qed.

Lemma keeps_try_catch A (m : M A) h :
  keeps J m -> (forall e, keeps J (h e)) -> keeps J (try_catch m h).
Proof.
  intros Hm Hh s H. unfold try_catch. specialize (Hm s H).
  destruct (m s) as [[a | e] s']; simpl in *; [|apply Hh]; assumption.
Qed.

Lemma keeps_when b m : keeps J m -> keeps J (when b m).
Proof. intros Hm. destruct b; [exact Hm | apply keeps_ret]. Qed.

(** A guarded statement keeps [J] when its body does so in the states
    that pass the guard. *)
Lemma keeps_whenS_guard c m :
  (forall s, J (out s) -> c (out s) = true -> J (out (snd (m s)))) ->
  keeps J (whenS c m).
Proof.
  intros Hm s H. unfold whenS.
  destruct (c (out s)) eqn:E; [apply Hm|]; assumption.
Qed.

Lemma keeps_whenS c m : keeps J m -> keeps J (whenS c m).
Proof. intros Hm. apply keeps_whenS_guard. intros s H _. apply Hm, H. Qed.

Lemma keeps_forM_ A (l : list A) f :
  (forall x, keeps J (f x)) -> keeps J (forM_ l f).
Proof.
  intros Hf. induction l as [|x l IH]; simpl.
  - apply keeps_ret.
  - apply keeps_bind; auto.
Qed.

Lemma keeps_gets A (f : Out.t -> A) : keeps J (gets f).
Proof. intros s H. exact H. Qed.

Lemma keeps_modify f : (forall o, J o -> J (f o)) -> keeps J (modify f).
Proof. intros Hf s H. simpl. apply Hf, H. Qed.

Lemma keeps_fetch env rq : keeps J (fetch env rq).
Proof.
  intros s H. unfold fetch. destruct (net env (trace s) rq); exact H.
Qed.

Lemma keeps_sleep ms : keeps J (sleep ms).
Proof. intros s H. exact H. Qed.

Lemma keeps_now env : keeps J (now env).
Proof. intros s H. exact H. Qed.

Lemma keeps_json r : keeps J (json r).
Proof. unfold json. destruct (body r); intros s H; exact H. Qed.

End Keeps.

Create HintDb keeps discriminated.
#[export] Hint Resolve keeps_ret keeps_throw keeps_gets keeps_fetch keeps_sleep
  keeps_now keeps_json : keeps.

(** One step of a frame proof: a rule for the head of the program, or a case
    split on what it branches on. *)
Ltac keeps_step :=
  match goal with
  | |- keeps _ (bind _ _) => apply keeps_bind; [|intros]
  | |- keeps _ (try_catch _ _) => apply keeps_try_catch; [|intros]
  | |- keeps _ (when _ _) => apply keeps_when
  | |- keeps _ (forM_ _ _) => apply keeps_forM_; intros
  | |- keeps _ (if ?b then _ else _) => destruct b
  | |- keeps _ (match ?x with _ => _ end) => destruct x
  | |- keeps _ (let _ := _ in _) => cbv zeta
  | |- keeps _ _ => solve [auto with keeps]
  end.

(** ** The canonical record under the stages *)

Section CanonicalFrame.

(** A property of the canonical record that no write to a field other
    than [title] and [format] disturbs, and that a write to [title] does
    not disturb when [title] is falsy before it, or when it keeps a
    truthy [title]. *)
Variable P : Canonical.t -> Prop.
Hypothesis P_artist : forall v c, P c -> P (Canonical.set_artist v c).
Hypothesis P_label : forall v c, P c -> P (Canonical.set_label v c).
Hypothesis P_catalog_number :
  forall v c, P c -> P (Canonical.set_catalog_number v c).
Hypothesis P_year : forall v c, P c -> P (Canonical.set_year v c).
Hypothesis P_country : forall v c, P c -> P (Canonical.set_country v c).
Hypothesis P_genre : forall v c, P c -> P (Canonical.set_genre v c).
Hypothesis P_cover_url : forall v c, P c -> P (Canonical.set_cover_url v c).
Hypothesis P_upc : forall v c, P c -> P (Canonical.set_upc v c).
Hypothesis P_title_falsy :
  forall v c, P c -> truthy (Canonical.title c) = false ->
              P (Canonical.set_title v c).
Hypothesis P_title_or :
  forall v c, P c ->
              P (Canonical.set_title (or_else (Canonical.title c) v) c).

Let J : Out.t -> Prop := fun o => P (Out.canonical o).

Lemma keeps_modify_canonical f :
  (forall c, P c -> P (f c)) -> keeps J (modify_canonical f).
Proof. intros Hf. apply keeps_modify. intros o H. apply Hf, H. Qed.

Lemma keeps_modify_ids f : keeps J (modify_ids f).
Proof. apply keeps_modify. intros o H. exact H. Qed.

Lemma keeps_modify_wikipedia f : keeps J (modify_wikipedia f).
Proof. apply keeps_modify. intros o H. exact H. Qed.

Lemma keeps_push_note msg : keeps J (push_note msg).
Proof. apply keeps_modify. intros o H. exact H. Qed.

Lemma keeps_push_http l u st : keeps J (push_http l u st).
Proof. apply keeps_modify. intros o H. exact H. Qed.

Lemma keeps_push_tried bc : keeps J (push_tried bc).
Proof. apply keeps_modify. intros o H. exact H. Qed.

Lemma keeps_set_matched_on tag : keeps J (set_matched_on tag).
Proof. apply keeps_modify. intros o H. exact H. Qed.

Lemma keeps_push_article_gallery it : keeps J (push_article_gallery it).
Proof. apply keeps_modify. intros o H. exact H. Qed.

Lemma keeps_push_artist_gallery it : keeps J (push_artist_gallery it).
Proof. apply keeps_modify. intros o H. exact H. Qed.

Hint Resolve keeps_modify_ids keeps_modify_wikipedia keeps_push_note
  keeps_push_http keeps_push_tried keeps_set_matched_on
  keeps_push_article_gallery keeps_push_artist_gallery : keeps.

(** A write to a field of the canonical record. *)
Ltac keeps_write :=
  apply keeps_modify_canonical; intros;
  first [ apply P_artist | apply P_label | apply P_catalog_number
        | apply P_year | apply P_country | apply P_genre
        | apply P_cover_url | apply P_upc | apply P_title_or ];
  assumption.

Ltac keeps_auto :=
  repeat first [ keeps_step
               | apply keeps_whenS
               | keeps_write ].

Lemma keeps_normalizeSeed seed : keeps J (normalizeSeed seed).
Proof. unfold normalizeSeed. keeps_auto. Qed.

Lemma keeps_GETjson env base path log qs :
  keeps J (GETjson env base path log qs).
Proof. unfold GETjson. keeps_auto. Qed.
Hint Resolve keeps_GETjson : keeps.

Lemma keeps_resolveDiscogsByUPC env seed :
  keeps J (resolveDiscogsByUPC env seed).
Proof. unfold resolveDiscogsByUPC. keeps_auto. Qed.

Lemma keeps_hydrateMBRelease env id : keeps J (hydrateMBRelease env id).
Proof. unfold hydrateMBRelease. keeps_auto. Qed.
Hint Resolve keeps_hydrateMBRelease : keeps.

Lemma keeps_mb_search env q : keeps J (mb_search env q).
Proof. unfold mb_search. auto with keeps. Qed.
Hint Resolve keeps_mb_search : keeps.

Lemma keeps_mb_barcode_loop env barcodes :
  keeps J (mb_barcode_loop env barcodes).
Proof.
  induction barcodes as [|bc more IH]; simpl; [apply keeps_ret|].
  keeps_auto.
Qed.
Hint Resolve keeps_mb_barcode_loop : keeps.

Lemma keeps_mb_relation rel : keeps J (mb_relation rel).
Proof. unfold mb_relation. keeps_auto. Qed.
Hint Resolve keeps_mb_relation : keeps.

(** The one unconditional write of a title: under the guard, the title is
    falsy. *)
Lemma keeps_mb_title v :
  keeps J (whenS (fun o => negb (truthy (Canonical.title (Out.canonical o))))
                 (modify_canonical (Canonical.set_title v))).
Proof.
  apply keeps_whenS_guard. intros s H Hg. simpl.
  apply P_title_falsy; [exact H|].
  apply negb_true_iff in Hg. exact Hg.
Qed.

Lemma keeps_resolveMusicBrainz env seed :
  keeps J (resolveMusicBrainz env seed).
Proof.
  unfold resolveMusicBrainz.
  repeat first [ apply keeps_mb_title | keeps_step | apply keeps_whenS
               | keeps_write ].
Qed.

Lemma keeps_sparql env q tag : keeps J (sparql env q tag).
Proof. unfold sparql. keeps_auto. Qed.
Hint Resolve keeps_sparql : keeps.

Lemma keeps_fetchWikidataEntity env qid :
  keeps J (fetchWikidataEntity env qid).
Proof. unfold fetchWikidataEntity. keeps_auto. Qed.
Hint Resolve keeps_fetchWikidataEntity : keeps.

Lemma keeps_resolveWikidataAndWikipedia env seed :
  keeps J (resolveWikidataAndWikipedia env seed).
Proof.
  unfold resolveWikidataAndWikipedia, sparqlFirstQIDForMBRG,
    sparqlFirstQIDByTitleArtist, sparqlFirstArtistQIDByMBArtist.
  keeps_auto.
Qed.

Lemma keeps_extractors html :
  keeps J (extractTracklistFromHTML html)
  /\ keeps J (extractPersonnelFromHTML html)
  /\ keeps J (extractAwardsFromHTML html)
  /\ keeps J (extractLandmarksFromHTML html)
  /\ keeps J (extractCertificationsFromHTML html).
Proof.
  unfold extractTracklistFromHTML, extractPersonnelFromHTML,
    extractAwardsFromHTML, extractLandmarksFromHTML,
    extractCertificationsFromHTML.
  repeat split; cbv zeta; apply keeps_when; auto with keeps.
Qed.

Lemma keeps_enrichFromWikipedia env seed :
  keeps J (enrichFromWikipedia env seed).
Proof.
  unfold enrichFromWikipedia.
  repeat first [ apply keeps_extractors | keeps_step | apply keeps_whenS
               | keeps_write ].
Qed.

Lemma keeps_commonsImageInfo env f : keeps J (commonsImageInfo env f).
Proof. unfold commonsImageInfo. keeps_auto. Qed.
Hint Resolve keeps_commonsImageInfo : keeps.

Lemma keeps_buildImageGalleries env seed :
  keeps J (buildImageGalleries env seed).
Proof. unfold buildImageGalleries. keeps_auto. Qed.

Lemma keeps_aggregateDownloadList : keeps J aggregateDownloadList.
Proof. apply keeps_modify. intros o H. exact H. Qed.

Lemma keeps_stamps env : keeps J (stamp_start env) /\ keeps J (stamp_done env).
Proof.
  unfold stamp_start, stamp_done.
  split; (apply keeps_bind; [apply keeps_now | intros; apply keeps_modify;
                                               intros o H; exact H]).
Qed.

(** Every stage before and after the finalisation keeps [P]. *)
Lemma keeps_run_stage env flags seed st :
  st <> StFinalize -> keeps J (run_stage env flags seed st).
Proof.
  intros Hst. destruct st; simpl; try contradiction;
    try apply keeps_when;
    auto using keeps_resolveDiscogsByUPC, keeps_resolveMusicBrainz,
      keeps_resolveWikidataAndWikipedia, keeps_enrichFromWikipedia,
      keeps_buildImageGalleries, keeps_aggregateDownloadList.
Qed.

End CanonicalFrame.

(** ** The handler as a sequence of stages *)

Lemma ends_bind_keeps (J Qok Qthrow : Out.t -> Prop) A B
      (m : M A) (f : A -> M B) :
  keeps J m ->
  (forall a, ends J Qok Qthrow (f a)) ->
  (forall o, J o -> Qthrow o) ->
  ends J Qok Qthrow (bind m f).
Proof.
  intros Hm Hf Hq s H. unfold bind. specialize (Hm s H).
  destruct (m s) as [[a | e] s']; simpl in *.
  - apply Hf, Hm.
  - apply Hq, Hm.
Qed.

(** The [try] block runs [normalizeSeed], then the stages in the order of
    the handler, then the final stamp. *)
Lemma pipeline_stages env flags seed s :
  pipeline env flags seed s
  = (seed' <- normalizeSeed seed ;;
     run_stages env flags seed' handler_order ;;
     stamp_done env) s.
Proof.
  unfold pipeline, run_stages, handler_order, bind. cbn [forM_ run_stage].
  unfold bind.
  destruct (normalizeSeed seed s) as [[seed' | e] s0]; [|reflexivity].
  repeat match goal with
         | |- context [match ?m ?st with (r, s') => _ end] =>
             lazymatch m with
             | stamp_done _ => fail
             | _ => destruct (m st) as [[[] | ?] ?]; try reflexivity
             end
         end.
Qed.

(** ** Write-once title *)

Section TitleOnce.

Variable t : option string.
Hypothesis t_truthy : truthy t = true.

Let P : Canonical.t -> Prop := fun c => Canonical.title c = t.

Lemma title_falsy_absurd v c :
  P c -> truthy (Canonical.title c) = false -> P (Canonical.set_title v c).
Proof. unfold P. intros -> H. congruence. Qed.

Lemma title_or_kept v c :
  P c -> P (Canonical.set_title (or_else (Canonical.title c) v) c).
Proof.
  unfold P, or_else. intros H. rewrite H, t_truthy. reflexivity.
Qed.

Lemma title_kept_by_stage env flags seed st :
  keeps (fun o => P (Out.canonical o)) (run_stage env flags seed st).
Proof.
  destruct st;
    first [ solve [ apply keeps_run_stage;
                    first [ discriminate
                          | apply title_falsy_absurd
                          | apply title_or_kept
                          | unfold P; intros; assumption ] ]
          | idtac ].
  simpl. unfold finalizeCanonical. apply keeps_whenS, keeps_modify.
  intros o H. exact H.
Qed.

Lemma title_kept_by_stages env flags seed later :
  keeps (fun o => P (Out.canonical o)) (run_stages env flags seed later).
Proof. apply keeps_forM_. intros st. apply title_kept_by_stage. Qed.

Lemma title_kept_by_normalizeSeed seed :
  keeps (fun o => P (Out.canonical o)) (normalizeSeed seed).
Proof. apply keeps_normalizeSeed. Qed.

End TitleOnce.

(** C1.  The title of the canonical record is write-once.  From a state in
    which [canonical.title] is non-empty, the stages of the handler
    (Discogs, MusicBrainz, Wikidata, Wikipedia enrichment, image galleries,
    finalisation, aggregation), run in any number and any order, leave it as
    it is, whatever the providers answer and also when a stage throws.  The
    [try] block of the handler is [normalizeSeed], which leaves it as it is
    too, followed by these stages in the order of the handler. *)
Theorem canonical_title_write_once env flags seed :
  (forall (later : list Stage) (s : St),
      truthy (Canonical.title (Out.canonical (out s))) = true ->
      Canonical.title
        (Out.canonical (out (snd (run_stages env flags seed later s))))
      = Canonical.title (Out.canonical (out s)))
  /\ (forall s,
         truthy (Canonical.title (Out.canonical (out s))) = true ->
         Canonical.title (Out.canonical (out (snd (normalizeSeed seed s))))
         = Canonical.title (Out.canonical (out s)))
  /\ (forall s,
         pipeline env flags seed s
         = (seed' <- normalizeSeed seed ;;
            run_stages env flags seed' handler_order ;;
            stamp_done env) s).
Proof.
  split; [|split].
  - intros later s Ht.
    exact (@title_kept_by_stages _ Ht env flags seed later s eq_refl).
  - intros s Ht.
    exact (@title_kept_by_normalizeSeed _ seed s eq_refl).
  - apply pipeline_stages.
Qed.

(** ** The default format *)

Section FormatDefault.

Let P : Canonical.t -> Prop := fun c => Canonical.format c = [].
Let J : Out.t -> Prop := fun o => P (Out.canonical o).
Let Album : Out.t -> Prop :=
  fun o => Canonical.format (Out.canonical o) = ["Album"].

Lemma format_kept_by_stage env flags seed st :
  st <> StFinalize -> keeps J (run_stage env flags seed st).
Proof. intros H. apply keeps_run_stage; auto. Qed.

Lemma format_kept_by_normalizeSeed seed : keeps J (normalizeSeed seed).
Proof. apply keeps_normalizeSeed. Qed.

(** From the empty format, the end of the [try] block cannot throw and
    leaves the default. *)
Lemma finalize_tail env :
  ends J Album J (finalizeCanonical ;; aggregateDownloadList ;; stamp_done env).
Proof.
  intros s H. unfold J, P in H.
  unfold finalizeCanonical, aggregateDownloadList, stamp_done, bind, whenS,
    modify_canonical, modify, now.
  cbn. rewrite H. reflexivity.
Qed.

Lemma pipeline_format env flags seed :
  ends J Album J (pipeline env flags seed).
Proof.
  unfold pipeline.
  apply ends_bind_keeps; [apply format_kept_by_normalizeSeed | | auto].
  intros seed'.
  apply ends_bind_keeps;
    [apply (@format_kept_by_stage env flags seed' StDiscogs); discriminate
    | | auto]. intros _.
  apply ends_bind_keeps;
    [apply (@format_kept_by_stage env flags seed' StMusicBrainz); discriminate
    | | auto]. intros _.
  apply ends_bind_keeps;
    [apply (@format_kept_by_stage env flags seed' StWikidata); discriminate
    | | auto]. intros _.
  apply ends_bind_keeps;
    [apply (@format_kept_by_stage env flags seed' StWikipedia); discriminate
    | | auto]. intros _.
  apply ends_bind_keeps;
    [apply (@format_kept_by_stage env flags seed' StImages); discriminate
    | | auto]. intros _.
  apply finalize_tail.
Qed.

Lemma entry_format env flags : J (out (entry env flags)).
Proof. reflexivity. Qed.

End FormatDefault.

(** C10.  When the [try] block of the handler ends without an exception,
    [canonical.format] of the document sent back is exactly the one-element
    list [Album], whatever the providers answered.  No stage other than the
    finalisation writes the field: each of them, and [normalizeSeed], leaves
    the empty list of [initOut] in place, so that a run cut short by an
    exception sends back the empty list. *)
Theorem canonical_format_album env flags url :
  (try_outcome env flags url = Ok tt ->
   Canonical.format (Out.canonical (out (handle env flags url))) = ["Album"])
  /\ (forall e,
         try_outcome env flags url = Throw e ->
         Canonical.format (Out.canonical (out (handle env flags url))) = [])
  /\ (forall seed st s,
         st <> StFinalize ->
         Canonical.format (Out.canonical (out s)) = [] ->
         Canonical.format
           (Out.canonical (out (snd (run_stage env flags seed st s)))) = []).
Proof.
  pose proof (@pipeline_format env flags
                (parseSeed url (searchParams_get url "cmd"))
                (entry env flags) (entry_format env flags)) as H.
  unfold try_outcome, handle, enrich, try_catch.
  destruct (pipeline env flags (parseSeed url (searchParams_get url "cmd"))
                     (entry env flags)) as [[[] | e] s']; cbn [fst snd] in *.
  - split; [intros _; exact H|]. split; [discriminate|].
    intros seed st s Hst Hs. exact (@format_kept_by_stage env flags seed st Hst s Hs).
  - split; [discriminate|]. split; [intros _ _; exact H|].
    intros seed st s Hst Hs. exact (@format_kept_by_stage env flags seed st Hst s Hs).
Qed.

(** ** Seed fields that no stage reads *)

Module SeedUse.

Ltac same_used_refl a b :=
  destruct a, b; unfold same_used; simpl;
  intros (-> & -> & -> & -> & ->); reflexivity.

Lemma resolveDiscogsByUPC_same env a b :
  same_used a b -> resolveDiscogsByUPC env a = resolveDiscogsByUPC env b.
Proof. same_used_refl a b. Qed.

Lemma resolveMusicBrainz_same env a b :
  same_used a b -> resolveMusicBrainz env a = resolveMusicBrainz env b.
Proof. same_used_refl a b. Qed.

Lemma resolveWikidataAndWikipedia_same env a b :
  resolveWikidataAndWikipedia env a = resolveWikidataAndWikipedia env b.
Proof. reflexivity. Qed.

Lemma enrichFromWikipedia_same env a b :
  enrichFromWikipedia env a = enrichFromWikipedia env b.
Proof. reflexivity. Qed.

Lemma buildImageGalleries_same env a b :
  buildImageGalleries env a = buildImageGalleries env b.
Proof. reflexivity. Qed.

Lemma bind_run A B (m : M A) (f : A -> M B) s a s' :
  m s = (Ok a, s') -> bind m f s = f a s'.
Proof. intros H. unfold bind. rewrite H. reflexivity. Qed.

(** [normalizeSeed] in one step. *)
Lemma normalizeSeed_run seed s :
  normalizeSeed seed s
  = (Ok (Seed.set_upc (normalizeBarcode (Seed.upc seed)) seed),
     snd (normalizeSeed (Seed.set_upc (Seed.upc seed) Seed.empty) s)).
Proof.
  unfold normalizeSeed, bind, when, ret. cbn [Seed.upc Seed.set_upc].
  destruct (truthy (normalizeBarcode (Seed.upc seed))); cbn [andb];
    [destruct (String.length (tmpl (normalizeBarcode (Seed.upc seed))) =? 12)|];
    reflexivity.
Qed.

Lemma set_upc_same v a b :
  same_used a b -> same_used (Seed.set_upc v a) (Seed.set_upc v b).
Proof. unfold same_used. simpl. tauto. Qed.

Lemma pipeline_same_used env flags a b :
  same_used a b -> forall s, pipeline env flags a s = pipeline env flags b s.
Proof.
  intros H s. unfold pipeline.
  rewrite (@bind_run _ _ _ _ _ _ _ (normalizeSeed_run a s)).
  rewrite (@bind_run _ _ _ _ _ _ _ (normalizeSeed_run b s)). cbn [Seed.upc Seed.set_upc].
  destruct H as (Hupc & H). rewrite Hupc.
  assert (H' : same_used (Seed.set_upc (normalizeBarcode (Seed.upc b)) a)
                         (Seed.set_upc (normalizeBarcode (Seed.upc b)) b))
    by (apply set_upc_same; unfold same_used; tauto).
  rewrite (resolveDiscogsByUPC_same env H'), (resolveMusicBrainz_same env H').
  reflexivity.
Qed.

End SeedUse.

(** C2, as the script has it.  The seed fields [qid], [discogs],
    [discogs_master_id], [mb_release_group] and [mb_artist_id] are read by
    no stage: the [try] block does the same with and without them.  A
    request that gives only one of these identifiers is answered like a
    request without parameters: no provider is asked and no identifier is
    resolved. *)
Theorem provider_id_seed_fields_unused env flags :
  (forall seed s qid discogs master rg artist_id,
      pipeline env flags
        (Seed.set_qid qid
           (Seed.set_discogs discogs
              (Seed.set_discogs_master_id master
                 (Seed.set_mb_release_group rg
                    (Seed.set_mb_artist_id artist_id seed))))) s
      = pipeline env flags seed s)
  /\ (forall name v,
         In name ["qid"; "discogs"; "discogs_release_id"; "discogs_master_id";
                  "mb_release_group"; "mb_artist_id"] ->
         handle env flags [(name, v)] = handle env flags [])
  /\ trace (handle env flags []) = [EvNow; EvNow; EvNow]
  /\ Out.ids (out (handle env flags [])) = Ids.init.
Proof.
  split; [|split; [|split]].
  - intros. apply SeedUse.pipeline_same_used.
    destruct seed. unfold same_used. simpl. tauto.
  - intros name v Hin. unfold handle, enrich, try_catch.
    rewrite (@SeedUse.pipeline_same_used env flags
               (parseSeed [(name, v)] (searchParams_get [(name, v)] "cmd"))
               (parseSeed [] (searchParams_get [] "cmd"))); [reflexivity|].
    simpl in Hin.
    repeat (destruct Hin as [<- | Hin]; [unfold same_used; simpl; tauto|]).
    contradiction.
  - unfold handle, enrich, try_catch, pipeline.
    destruct (String.eqb (images flags) "none"); reflexivity.
  - unfold handle, enrich, try_catch, pipeline.
    destruct (String.eqb (images flags) "none"); reflexivity.
Qed.

(** ** The command grammar *)

Module TokenFacts.

(** What a token does to the artist of the seed. *)
Lemma parseToken_artist seed p :
  Seed.artist (parseToken seed p)
  = match token p with
    | Some (k, v) => if String.eqb k "artist" then Some v else Seed.artist seed
    | None => Seed.artist seed
    end.
Proof.
  unfold parseToken, token.
  destruct (match_here re_token (start p)) as [[c m]|]; [|reflexivity].
  cbv zeta.
  repeat match goal with
         | |- context [if ?b then _ else _] => destruct b
         end; reflexivity.
Qed.

(** Of the tokens that set the artist, the last one wins. *)
Lemma last_artist_token_wins before p after seed v :
  token p = Some ("artist", v) ->
  Forall (fun q => forall v', token q <> Some ("artist", v')) after ->
  Seed.artist (fold_left parseToken (before ++ p :: after) seed) = Some v.
Proof.
  intros Hp Hafter. rewrite fold_left_app. cbn [fold_left].
  assert (H : Seed.artist (parseToken (fold_left parseToken before seed) p)
              = Some v).
  { rewrite parseToken_artist, Hp. reflexivity. }
  revert H. generalize (parseToken (fold_left parseToken before seed) p).
  induction Hafter as [|q after Hq _ IH]; intros sd H; [exact H|].
  cbn [fold_left]. apply IH.
  rewrite parseToken_artist.
  destruct (token q) as [[k v']|] eqn:E; [|exact H].
  destruct (String.eqb k "artist") eqn:Ek; [|exact H].
  apply String.eqb_eq in Ek. subst. exfalso. apply (Hq v'). reflexivity.
Qed.

End TokenFacts.

(** ** The claims at concrete inputs *)

(** C3, as the script has it.  The explicit-id strategy of
    [resolveMusicBrainz] is a call of [hydrateMBRelease], which never writes
    [diagnostics.matched_on].  So when MusicBrainz resolution succeeds
    through the explicit release id of the seed, the tag is left [null],
    although the release is resolved and fills the canonical record; the
    barcode search and the artist+title search stamp their tags. *)
Theorem matched_on_explicit_id_left_null :
  (forall env id s,
      Diagnostics.matched_on
        (Out.diagnostics (out (snd (hydrateMBRelease env id s))))
      = Diagnostics.matched_on (Out.diagnostics (out s)))
  /\ Diagnostics.matched_on (Out.diagnostics Examples.by_mbid) = None
  /\ Ids.mb_release_mbid (Out.ids Examples.by_mbid)
     = Some (mkIdRef (Some "r1") "https://musicbrainz.org/release/r1")
  /\ Canonical.title (Out.canonical Examples.by_mbid) = Some "Kind of Blue"
  /\ Diagnostics.mb_http (Out.diagnostics Examples.by_mbid)
     = [mkHttpLog "/release/r1" 200; mkHttpLog "/release/r1" 200;
        mkHttpLog "/release-group/rg1?fmt=json" 404;
        mkHttpLog "/artist/a1?fmt=json" 404]
  /\ Diagnostics.matched_on (Out.diagnostics Examples.by_upc) = Some "upc"
  /\ Diagnostics.matched_on (Out.diagnostics Examples.by_text)
     = Some "artist+title".
Proof.
  split.
  - intros env id s.
    unfold hydrateMBRelease, try_catch, bind, fetch.
    destruct (net env (trace s) _) as [e | r]; [reflexivity|].
    cbn [push_http modify out trace].
    destruct (ok r); cbn [negb]; [|reflexivity].
    unfold json. destruct (body r); reflexivity.
  - vm_compute. repeat split.
Qed.

(** C7, as the script has it.  The command string is split at white space
    before a token is looked at, so a quoted value with a space falls into
    several tokens: of [artist:"Miles Davis"] the seed keeps the first
    piece, opening quote included.  A quoted value without a space loses its
    quotes, and of the tokens with the key [artist] the last one wins. *)
Theorem parseSeed_quoted_value_split :
  split (plus space) (Str.trim Examples.cmd_quoted)
  = ["enrich"; "-all"; ("artist:" ++ dq ++ "Miles")%string;
     ("Davis" ++ dq)%string; ("title:" ++ dq ++ "Kind")%string; "of";
     ("Blue" ++ dq)%string]
  /\ Seed.artist (parseSeed [] (Some Examples.cmd_quoted))
     = Some (dq ++ "Miles")%string
  /\ Seed.title (parseSeed [] (Some Examples.cmd_quoted))
     = Some (dq ++ "Kind")%string
  /\ Seed.artist (parseSeed [] (Some ("artist:" ++ dq ++ "Miles" ++ dq)%string))
     = Some "Miles"
  /\ Seed.artist (parseSeed [] (Some "artist:Miles ARTIST:Coltrane"))
     = Some "Coltrane".
Proof. vm_compute. repeat split. Qed.

(** C8, as stated, fails: a row whose first cell is [1a], which is not a
    number, is captured. *)
Lemma tracklist_captures_nonnumeric_cell :
  numeric "1a" = false
  /\ Html.tracklist_rows Examples.html_1a = [mkTrack "1a" "Intro"]
  /\ Wikipedia.tracklist
       (Out.wikipedia
          (out (snd (extractTracklistFromHTML Examples.html_1a Examples.fresh))))
     = Some [mkTrack "1a" "Intro"].
Proof. vm_compute. repeat split. Qed.

Lemma tracklist_rows_leading_digit_witness :
  (Html.row_captured ["1a"; "Intro"] = true
   <-> 2 <= List.length ["1a"; "Intro"]
       /\ starts_with_digit (nth 0 ["1a"; "Intro"] "") = true)
  /\ starts_with_digit (no (mkTrack "1a" "Intro")) = true.
Proof.
  destruct (tracklist_rows_leading_digit Examples.html_1a)
    as (_ & Hiff & Hin & _).
  split; [apply Hiff|].
  apply Hin. vm_compute. left. reflexivity.
Defined.

Lemma canonical_title_write_once_witness :
  Canonical.title
    (Out.canonical
       (out (snd (run_stages Examples.musicbrainz_only Examples.flags0
                             (Seed.set_mbid (Some "r1") Seed.empty)
                             handler_order Examples.titled))))
  = Some "So What"
  /\ Canonical.title
       (Out.canonical
          (out (snd (normalizeSeed (Seed.set_mbid (Some "r1") Seed.empty)
                                   Examples.titled))))
     = Some "So What".
Proof.
  destruct (canonical_title_write_once Examples.musicbrainz_only
              Examples.flags0 (Seed.set_mbid (Some "r1") Seed.empty))
    as (Hstages & Hnorm & _).
  split.
  - apply (Hstages handler_order Examples.titled). reflexivity.
  - apply (Hnorm Examples.titled). reflexivity.
Defined.

Lemma provider_id_seed_fields_unused_witness :
  handle Examples.nothing_found Examples.flags0 [("qid", "Q283221")]
  = handle Examples.nothing_found Examples.flags0 [].
Proof.
  apply (proj1 (proj2 (provider_id_seed_fields_unused
                         Examples.nothing_found Examples.flags0))).
  simpl. auto.
Defined.

Lemma GETjson_single_retry_witness :
  (trace (snd Examples.throttled_call)
   = [EvFetch Examples.search_rq; EvSleep 2000; EvFetch Examples.search_rq]
   /\ fst Examples.throttled_call = Ok None
   /\ Diagnostics.discogs_http
        (Out.diagnostics (out (snd Examples.throttled_call)))
      = [mkHttpLog "/database/search?barcode=1" 429;
         mkHttpLog "/database/search (retry)" 429])
  /\ (trace (snd Examples.missing_call) = [EvFetch Examples.search_rq]
      /\ fst Examples.missing_call = Ok None
      /\ Diagnostics.discogs_http
           (Out.diagnostics (out (snd Examples.missing_call)))
         = [mkHttpLog "/database/search?barcode=1" 404]).
Proof.
  split.
  - destruct (@GETjson_single_retry Examples.throttled
                "https://api.discogs.com" "/database/search" DiscogsHttp
                "barcode=1" Examples.fresh (mkResponse 429 "" BFalsy)
                eq_refl) as [H _].
    destruct (H eq_refl (mkResponse 429 "" BFalsy) eq_refl) as [Ht Hr].
    destruct (Hr eq_refl) as [Hres Hlog].
    split; [exact Ht|]. split; [exact Hres | exact Hlog].
  - destruct (@GETjson_single_retry Examples.nothing_found
                "https://api.discogs.com" "/database/search" DiscogsHttp
                "barcode=1" Examples.fresh (mkResponse 404 "" BFalsy)
                eq_refl) as [_ H].
    apply H; [simpl; lia | reflexivity].
Defined.

Lemma aggregateDownloadList_first_seen_witness :
  Out.image_urls (out (snd (aggregateDownloadList Examples.with_galleries)))
  = ["https://u/a"; "https://u/c"; "https://u/b"]
  /\ (index_of "https://u/c"
               (Out.image_urls
                  (out (snd (aggregateDownloadList Examples.with_galleries))))
      < index_of "https://u/b"
                 (Out.image_urls
                    (out (snd (aggregateDownloadList Examples.with_galleries))))
      <-> index_of "https://u/c"
                   ["https://u/a"; "https://u/c"; "https://u/c"; "https://u/a";
                    "https://u/b"]
          < index_of "https://u/b"
                     ["https://u/a"; "https://u/c"; "https://u/c";
                      "https://u/a"; "https://u/b"]).
Proof.
  split; [reflexivity|].
  apply (proj2 (proj2 (proj2
           (aggregateDownloadList_first_seen Examples.with_galleries))));
    simpl; auto.
Defined.

Lemma canonical_format_album_witness :
  Canonical.format
    (Out.canonical
       (out (handle Examples.musicbrainz_only Examples.flags0
                    [("upc", "888751119215")])))
  = ["Album"].
Proof.
  apply (proj1 (canonical_format_album Examples.musicbrainz_only
                  Examples.flags0 [("upc", "888751119215")])).
  reflexivity.
Defined.

Lemma normalizeBarcode_canonical_witness :
  normalizeBarcode (Some "0 12345-678905") = Some "012345678905"
  /\ normalizeBarcode (Some "012345678905") = Some "012345678905"
  /\ normalizeBarcode (Some "00012345") = Some "12345"
  /\ normalizeBarcode (Some "000") = Some "000"
  /\ normalizeBarcode (Some "n/a") = None.
Proof.
  destruct normalizeBarcode_canonical as (H1 & H2 & H3 & H4 & _).
  split; [reflexivity|].
  split; [apply H1; [reflexivity | left; reflexivity]|].
  split; [apply (H3 "00012345"); simpl; [discriminate | lia | lia]|].
  split; [apply (H3 "000"); simpl; [discriminate | lia | lia]|].
  apply H4; reflexivity.
Defined.

(* ===================================================================== *)
(** * Further properties *)
(* ===================================================================== *)

(** ** What the extractors and the source-set picker give *)

Module ExtractFacts.

Lemma not_nil A (l : list A) : negb (is_nil l) = true -> l <> [].
Proof. destruct l; [discriminate | intros _; discriminate]. Qed.

Lemma nonempty_not_empty s : nonempty s = true -> s <> "".
Proof. intros H ->. discriminate. Qed.

(** The lines kept from one section. *)
Lemma items_no_empty (clean : string -> string) (lis : list string) :
  forall found,
    ~ In "" found ->
    ~ In "" (fold_left
               (fun found li =>
                  let line := clean li in
                  if nonempty line then found ++ [line] else found)
               lis found).
Proof.
  induction lis as [|li r IH]; intros found H; simpl; [exact H|].
  apply IH. destruct (nonempty (clean li)) eqn:E; [|exact H].
  intros Hin. apply in_app_or in Hin. destruct Hin as [Hin | [Hin | []]].
  - exact (H Hin).
  - rewrite Hin in E. discriminate.
Qed.

Lemma section_items_no_empty heading clean html :
  ~ In "" (Html.section_items heading clean html).
Proof.
  unfold Html.section_items. cbv zeta.
  generalize (List.map fst (match_all Html.re_section html)).
  intros sec.
  assert (G : forall found : list string,
             ~ In "" found ->
             ~ In "" (fold_left
                        (fun found s =>
                           if negb (test heading s) then found
                           else fold_left
                                  (fun found li =>
                                     let line := clean li in
                                     if nonempty line then found ++ [line]
                                     else found)
                                  (List.map fst (match_all Html.re_li s))
                                  found)
                        sec found)).
  { induction sec as [|s r IH]; intros found H; simpl; [exact H|].
    apply IH. destruct (negb (test heading s)); [exact H|].
    apply items_no_empty, H. }
  apply G. intros [].
Qed.

Lemma section_lines heading clean html :
  negb (is_nil (Html.section_items heading clean html)) = true ->
  lines (Html.section_items heading clean html).
Proof.
  intros H. split; [apply not_nil, H | apply section_items_no_empty].
Qed.

Lemma hits_length (text : string) (rxs : list re) :
  forall hits,
    List.length
      (fold_left
         (fun hits rx =>
            match match_first rx text with
            | Some m => hits ++ [m]
            | None => hits
            end) rxs hits)
    <= List.length hits + List.length rxs.
Proof.
  induction rxs as [|rx r IH]; intros hits; simpl; [lia|].
  etransitivity; [apply IH|].
  destruct (match_first rx text); [rewrite length_app; simpl|]; lia.
Qed.

Lemma landmark_hits_length html :
  List.length (Html.landmark_hits html) <= 5.
Proof.
  unfold Html.landmark_hits. cbv zeta.
  etransitivity; [apply hits_length|]. reflexivity.
Qed.

(** A URL picked from a source set is absolute. *)
Lemma pickLargestSrc_absolute srcset :
  truthy (pickLargestSrc srcset) = true ->
  startsWith "//" (tmpl (pickLargestSrc srcset)) = false.
Proof.
  unfold pickLargestSrc. destruct srcset as [[|x r]|]; try discriminate.
  cbv zeta. destruct (negb (truthy (last (x :: r) None))); [discriminate|].
  intros _. cbn [tmpl].
  destruct (startsWith "//" (tmpl (last (x :: r) None))) eqn:E;
    [reflexivity | exact E].
Qed.

End ExtractFacts.

(** ** Pre- and postconditions on the output document *)

Section Moves.

Lemma keeps_moves J A (m : M A) : keeps J m <-> moves J J m.
Proof. reflexivity. Qed.

Lemma moves_weaken (P P' Q Q' : Out.t -> Prop) A (m : M A) :
  (forall o, P' o -> P o) -> (forall o, Q o -> Q' o) ->
  moves P Q m -> moves P' Q' m.
Proof. intros HP HQ H s Hs. apply HQ, H, HP, Hs. Qed.

Lemma moves_ret (P : Out.t -> Prop) A (a : A) : moves P P (ret a).
Proof. intros s H. exact H. Qed.

Lemma moves_bind (P Q R : Out.t -> Prop) A B (m : M A) (f : A -> M B) :
  moves P Q m -> (forall a, moves Q R (f a)) -> (forall o, Q o -> R o) ->
  moves P R (bind m f).
Proof.
  intros Hm Hf HQR s H. unfold bind. specialize (Hm s H).
  destruct (m s) as [[a | e] s']; simpl in *; [apply Hf | apply HQR];
    assumption.
Qed.

(** What follows a read of the document may rely on the value read. *)
Lemma moves_gets_bind (P Q : Out.t -> Prop) A B (f : Out.t -> A)
      (k : A -> M B) :
  (forall a, moves (fun o => P o /\ f o = a) Q (k a)) ->
  moves P Q (bind (gets f) k).
Proof.
  intros H s Hs. unfold bind, gets. cbn [fst snd].
  apply (H (f (out s)) s). split; [exact Hs | reflexivity].
Qed.

Lemma moves_when (P Q : Out.t -> Prop) b m :
  (forall o, P o -> Q o) -> (b = true -> moves P Q m) ->
  moves P Q (when b m).
Proof.
  intros HPQ Hm. destruct b; [apply Hm; reflexivity|].
  intros s H. apply HPQ, H.
Qed.

Lemma keeps_and (J K : Out.t -> Prop) A (m : M A) :
  keeps J m -> keeps K m -> keeps (fun o => J o /\ K o) m.
Proof. intros HJ HK s [H1 H2]. split; [apply HJ | apply HK]; assumption. Qed.

Lemma keeps_canonical (J : Out.t -> Prop) f :
  (forall o, J o -> J (Out.upd_canonical f o)) ->
  keeps J (modify_canonical f).
Proof. intros H. apply keeps_modify. exact H. Qed.

Lemma keeps_guard_canonical (J : Out.t -> Prop) c f :
  (forall o, J o -> c o = true -> J (Out.upd_canonical f o)) ->
  keeps J (whenS c (modify_canonical f)).
Proof.
  intros H. apply keeps_whenS_guard. intros s Hs Hc. apply H; assumption.
Qed.

Lemma keeps_ids (J : Out.t -> Prop) f :
  (forall o, J o -> J (Out.upd_ids f o)) -> keeps J (modify_ids f).
Proof. intros H. apply keeps_modify. exact H. Qed.

Lemma keeps_guard_ids (J : Out.t -> Prop) c f :
  (forall o, J o -> c o = true -> J (Out.upd_ids f o)) ->
  keeps J (whenS c (modify_ids f)).
Proof.
  intros H. apply keeps_whenS_guard. intros s Hs Hc. apply H; assumption.
Qed.

End Moves.

(** ** The provider helpers write to the diagnostics only *)

Section Providers.

Variable J : Out.t -> Prop.
Hypothesis J_http : forall l e o,
    J o -> J (Out.upd_diagnostics (Diagnostics.push_http l e) o).
Hypothesis J_note : forall msg o,
    J o -> J (Out.upd_diagnostics (add_note msg) o).

Lemma log_push_http l u st : keeps J (push_http l u st).
Proof. apply keeps_modify. intros o H. apply J_http, H. Qed.

Lemma log_push_note msg : keeps J (push_note msg).
Proof. apply keeps_modify. intros o H. apply (J_note msg), H. Qed.

Hint Resolve log_push_http log_push_note : keeps.

Lemma log_GETjson env base path log qs :
  keeps J (GETjson env base path log qs).
Proof. unfold GETjson. repeat keeps_step. Qed.
Hint Resolve log_GETjson : keeps.

Lemma log_hydrateMBRelease env id : keeps J (hydrateMBRelease env id).
Proof. unfold hydrateMBRelease. repeat keeps_step. Qed.

Lemma log_mb_search env q : keeps J (mb_search env q).
Proof. unfold mb_search. auto with keeps. Qed.

Lemma log_sparql env q tag : keeps J (sparql env q tag).
Proof. unfold sparql. repeat keeps_step. Qed.

Lemma log_fetchWikidataEntity env qid : keeps J (fetchWikidataEntity env qid).
Proof. unfold fetchWikidataEntity. repeat keeps_step. Qed.

Lemma log_commonsImageInfo env f : keeps J (commonsImageInfo env f).
Proof. unfold commonsImageInfo. repeat keeps_step. Qed.

End Providers.

(** ** The barcodes tried *)

Lemma framed_normalizeSeed (J : Out.t -> Prop) seed :
  (forall bc o, J o -> J (Out.upd_diagnostics (add_tried bc) o)) ->
  keeps J (normalizeSeed seed).
Proof.
  intros N. unfold normalizeSeed.
  assert (Hpush : forall bc, keeps J (push_tried bc)).
  { intros bc. apply keeps_modify. intros o H. apply N, H. }
  repeat keeps_step.
Qed.

(** ** The stages under a framed property *)

Section Framed.

Variable J : Out.t -> Prop.
Hypothesis F : Frame J.

Let F_http := fr_http F.
Let F_note := fr_note F.

Lemma framed_push_http l u st : keeps J (push_http l u st).
Proof. apply log_push_http. exact F_http. Qed.
Lemma framed_push_note msg : keeps J (push_note msg).
Proof. apply log_push_note. exact F_note. Qed.
Lemma framed_GETjson env base path log qs :
  keeps J (GETjson env base path log qs).
Proof. apply log_GETjson; assumption. Qed.
Lemma framed_hydrateMBRelease env id : keeps J (hydrateMBRelease env id).
Proof. apply log_hydrateMBRelease; assumption. Qed.
Lemma framed_mb_search env q : keeps J (mb_search env q).
Proof. apply log_mb_search; assumption. Qed.
Lemma framed_sparql env q tag : keeps J (sparql env q tag).
Proof. apply log_sparql; assumption. Qed.
Lemma framed_fetchWikidataEntity env qid :
  keeps J (fetchWikidataEntity env qid).
Proof. apply log_fetchWikidataEntity; assumption. Qed.
Lemma framed_commonsImageInfo env f : keeps J (commonsImageInfo env f).
Proof. apply log_commonsImageInfo; assumption. Qed.

Lemma framed_set_matched_on tag :
  tag = "upc" \/ tag = "artist+title" -> keeps J (set_matched_on tag).
Proof. intros Ht. apply keeps_modify. intros o H. apply (fr_matched_on F); auto. Qed.

Lemma framed_push_article_gallery it :
  article_item it -> keeps J (push_article_gallery it).
Proof.
  intros Hit. apply keeps_modify. intros o H.
  apply (fr_article_gallery F); assumption.
Qed.

Hint Resolve framed_push_http framed_push_note framed_GETjson
  framed_hydrateMBRelease framed_mb_search framed_sparql
  framed_fetchWikidataEntity framed_commonsImageInfo : keeps.

(** The facts of a guard that holds. *)
Ltac guard_facts H :=
  cbv beta in H;
  repeat match type of H with
         | (_ && _) = true =>
             let H' := fresh "G" in
             apply andb_true_iff in H; destruct H as [H' H];
             try guard_facts H'
         | negb _ = true => apply negb_true_iff in H
         end.

(** The reference written is one of its kind. *)
Ltac ref_fact :=
  let x := fresh "x" in let E := fresh "E" in
  unfold wikidata_ref;
  first [ intros x E; injection E as <-; reflexivity
        | intros x E; injection E as <-; left; reflexivity
        | intros x E; injection E as <-; right; reflexivity
        | intros x E; discriminate E
        | intros x E; destruct (scalar_truthy _);
          [injection E as <-; reflexivity | discriminate E] ].

(** A write of the stages, by the field of the frame for it. *)
Ltac framed_write :=
  first [ apply (fr_genre F) | apply (fr_mb_release_mbid F)
        | apply (fr_mb_release_group F) | apply (fr_mb_artist_id F)
        | apply (fr_country F) | apply (fr_label F)
        | apply (fr_catalog_number F) | apply (fr_year F)
        | apply (fr_cover_url F) | apply (fr_artist F) | apply (fr_title F)
        | apply (fr_format F) | apply (fr_discogs_release_id F)
        | apply (fr_wikidata_qid F) | apply (fr_artist_wikidata_qid F)
        | apply (fr_wikipedia_title F) ];
  first [assumption | ref_fact].

Ltac framed_step :=
  first [ keeps_step
        | apply keeps_canonical; intros; framed_write
        | apply keeps_ids; intros; framed_write
        | apply keeps_guard_canonical;
          let o := fresh "o" in let H := fresh "H" in let G := fresh "G" in
          intros o H G; guard_facts G; framed_write
        | apply keeps_guard_ids;
          let o := fresh "o" in let H := fresh "H" in let G := fresh "G" in
          intros o H G; guard_facts G; framed_write
        | apply framed_set_matched_on; auto ].

Lemma framed_mb_barcode_loop env barcodes :
  keeps J (mb_barcode_loop env barcodes).
Proof.
  induction barcodes as [|bc more IH]; simpl; [apply keeps_ret|].
  repeat framed_step.
Qed.

Lemma framed_mb_relation rel : keeps J (mb_relation rel).
Proof.
  unfold mb_relation. destruct rel as [u|]; [|apply keeps_ret].
  destruct (Str.is_empty u); [apply keeps_ret|].
  apply keeps_bind; [|intros _; apply keeps_bind; [|intros _]].
  - apply keeps_whenS_guard. intros s H G. guard_facts G. cbv zeta.
    destruct (truthy (id_after "/release/" u)); [|exact H].
    apply (fr_discogs_release_id F); first [assumption | ref_fact].
  - apply keeps_when. cbv zeta. repeat framed_step.
  - apply keeps_whenS_guard. intros s H G. guard_facts G.
    destruct (decodeURIComponent _); [|exact H].
    apply (fr_wikipedia_title F); first [assumption | ref_fact].
Qed.

Lemma framed_resolveMusicBrainz env seed :
  keeps J (resolveMusicBrainz env seed).
Proof.
  pose proof framed_mb_barcode_loop. pose proof framed_mb_relation.
  unfold resolveMusicBrainz. repeat framed_step.
Qed.

(** A lookup followed by the write of an identifier that is still unset:
    the lookup only writes to the diagnostics, so the identifier is unset
    when it is written. *)
Lemma framed_lookup_then_set A (m : M A) (b : A -> bool)
      (get : Ids.t -> option IdRef)
      (set : option IdRef -> Ids.t -> Ids.t) (v : A -> option IdRef) :
  (forall K : Out.t -> Prop,
      (forall l e o, K o -> K (Out.upd_diagnostics (Diagnostics.push_http l e) o)) ->
      (forall msg o, K o -> K (Out.upd_diagnostics (add_note msg) o)) ->
      keeps K m) ->
  (forall x o, J o -> is_set (get (Out.ids o)) = false ->
               J (Out.upd_ids (set (v x)) o)) ->
  moves (fun o => J o /\ is_set (get (Out.ids o)) = false) J
        (x <- m ;; when (b x) (modify_ids (set (v x)))).
Proof.
  intros Hm Hset.
  apply moves_bind with (Q := fun o => J o /\ is_set (get (Out.ids o)) = false).
  - apply keeps_and; apply Hm; auto; exact F_http || exact F_note || idtac.
  - intros x. apply moves_when; [tauto|]. intros _ s [H N]. apply Hset; assumption.
  - tauto.
Qed.

(** The helper lemmas in the form the lookup lemma asks for. *)
Lemma lookups_log env :
  (forall q tag (K : Out.t -> Prop),
      (forall l e o, K o -> K (Out.upd_diagnostics (Diagnostics.push_http l e) o)) ->
      (forall msg o, K o -> K (Out.upd_diagnostics (add_note msg) o)) ->
      keeps K (sparql env q tag))
  /\ (forall qid (K : Out.t -> Prop),
         (forall l e o, K o -> K (Out.upd_diagnostics (Diagnostics.push_http l e) o)) ->
         (forall msg o, K o -> K (Out.upd_diagnostics (add_note msg) o)) ->
         keeps K (fetchWikidataEntity env qid)).
Proof.
  split; intros; [apply log_sparql | apply log_fetchWikidataEntity];
    assumption.
Qed.

Lemma framed_resolveWikidataAndWikipedia env seed :
  keeps J (resolveWikidataAndWikipedia env seed).
Proof.
  destruct (lookups_log env) as [Hsparql Hentity].
  unfold resolveWikidataAndWikipedia, sparqlFirstQIDForMBRG,
    sparqlFirstQIDByTitleArtist, sparqlFirstArtistQIDByMBArtist.
  apply moves_gets_bind. intros ids0.
  match goal with
  | |- moves _ _ (if ?c then _ else _) => destruct c
  end; [intros s [H _]; exact H|].
  apply moves_bind with (Q := J); [| |tauto].
  { (* the album entity *)
    apply moves_when; [tauto|]. intros Hunset.
    apply negb_true_iff in Hunset.
    apply moves_weaken
      with (P := fun o => J o /\ is_set (Ids.wikidata_qid (Out.ids o)) = false)
           (Q := J); [intros o [H E]; rewrite E; auto | auto |].
    apply moves_gets_bind. intros rg.
    apply moves_bind with (Q := J); [| |tauto].
    - apply moves_when; [tauto|]. intros _.
      apply moves_weaken
        with (P := fun o => J o /\ is_set (Ids.wikidata_qid (Out.ids o)) = false)
             (Q := J); [tauto | auto |].
      apply (framed_lookup_then_set (m := sparql env _ _) truthy
               Ids.wikidata_qid Ids.set_wikidata_qid wikidata_ref).
      + intros K. apply Hsparql.
      + intros x o H N. apply (fr_wikidata_qid F); first [assumption | ref_fact].
    - intros _. apply moves_gets_bind. intros o0.
      apply moves_when; [tauto|]. intros G. guard_facts G.
      apply moves_weaken
        with (P := fun o => J o /\ is_set (Ids.wikidata_qid (Out.ids o)) = false)
             (Q := J); [intros o [H E]; subst o0; auto | auto |].
      apply (framed_lookup_then_set (m := sparql env _ _) truthy
               Ids.wikidata_qid Ids.set_wikidata_qid wikidata_ref).
      + intros K. apply Hsparql.
      + intros x o H N. apply (fr_wikidata_qid F); first [assumption | ref_fact]. }
  intros _. apply moves_gets_bind. intros ids1.
  apply moves_bind with (Q := J); [| |tauto].
  { (* the artist entity *)
    apply moves_when; [tauto|]. intros Hunset.
    apply negb_true_iff in Hunset.
    apply moves_weaken
      with (P := fun o => J o /\ is_set (Ids.artist_wikidata_qid (Out.ids o)) = false)
           (Q := J); [intros o [H E]; rewrite E; auto | auto |].
    apply moves_gets_bind. intros ar.
    apply moves_bind with (Q := J); [| |tauto].
    - apply moves_when; [tauto|]. intros _.
      apply moves_weaken
        with (P := fun o => J o /\ is_set (Ids.artist_wikidata_qid (Out.ids o)) = false)
             (Q := J); [tauto | auto |].
      apply (framed_lookup_then_set (m := sparql env _ _) truthy
               Ids.artist_wikidata_qid Ids.set_artist_wikidata_qid
               wikidata_ref).
      + intros K. apply Hsparql.
      + intros x o H N. apply (fr_artist_wikidata_qid F); first [assumption | ref_fact].
    - intros _. apply moves_gets_bind. intros ids2.
      apply moves_when; [tauto|]. intros G. guard_facts G.
      apply moves_weaken
        with (P := fun o => J o /\ is_set (Ids.artist_wikidata_qid (Out.ids o)) = false)
             (Q := J); [intros o [H E]; rewrite E; auto | auto |].
      apply (framed_lookup_then_set
               (m := fetchWikidataEntity env _)
               (fun entity => truthy (pickClaimId entity "P175"))
               Ids.artist_wikidata_qid Ids.set_artist_wikidata_qid
               (fun entity => wikidata_ref (pickClaimId entity "P175"))).
      + intros K. apply Hentity.
      + intros x o H N. apply (fr_artist_wikidata_qid F); first [assumption | ref_fact]. }
  intros _. apply moves_gets_bind. intros ids3.
  apply moves_when; [tauto|]. intros G. guard_facts G.
  apply moves_weaken
    with (P := fun o => J o /\ is_set (Ids.wikipedia_title (Out.ids o)) = false)
         (Q := J); [intros o [H E]; rewrite E; auto | auto |].
  apply (framed_lookup_then_set
           (m := fetchWikidataEntity env _)
           (fun entity => truthy match entity with
                                 | Some e => WD.enwiki_title e
                                 | None => None
                                 end)
           Ids.wikipedia_title Ids.set_wikipedia_title
           (fun entity =>
              Some (mkIdRef
                      match entity with
                      | Some e => WD.enwiki_title e
                      | None => None
                      end
                      ("https://en.wikipedia.org/wiki/"
                         ++ encodeURIComponent
                              (tmpl match entity with
                                    | Some e => WD.enwiki_title e
                                    | None => None
                                    end))%string))).
  + intros K. apply Hentity.
  + intros x o H N. apply (fr_wikipedia_title F); first [assumption | ref_fact].
Qed.

Lemma framed_extractors html :
  keeps J (extractTracklistFromHTML html)
  /\ keeps J (extractPersonnelFromHTML html)
  /\ keeps J (extractAwardsFromHTML html)
  /\ keeps J (extractLandmarksFromHTML html)
  /\ keeps J (extractCertificationsFromHTML html).
Proof.
  unfold extractTracklistFromHTML, extractPersonnelFromHTML,
    extractAwardsFromHTML, extractLandmarksFromHTML,
    extractCertificationsFromHTML, Html.personnel_lines, Html.award_lines,
    Html.certification_lines.
  repeat split; cbv zeta;
    match goal with
    | |- keeps _ (when ?b _) => destruct b eqn:G; [|apply keeps_ret]
    end;
    apply keeps_modify; intros o H.
  - apply (fr_tracklist F); [apply ExtractFacts.not_nil, G | exact H].
  - apply (fr_personnel F); [apply ExtractFacts.section_lines, G | exact H].
  - apply (fr_awards F); [apply ExtractFacts.section_lines, G | exact H].
  - apply (fr_landmarks F);
      [ apply ExtractFacts.not_nil, G
      | apply ExtractFacts.landmark_hits_length | exact H ].
  - apply (fr_certifications F);
      [apply ExtractFacts.section_lines, G | exact H].
Qed.

(** One entry of the media list. *)
Lemma framed_media_item (it : WP.MediaItem) :
  keeps J
    (if negb (truthy (WP.item_title it)) || negb (is_set (WP.srcset it))
     then ret tt
     else
       let best := pickLargestSrc (WP.srcset it) in
       when (truthy best)
         (push_article_gallery
            (GalleryItem.mk "enwiki:media-list" "gallery"
               (tmpl (WP.item_title it)) best None None None None))).
Proof.
  destruct (negb (truthy (WP.item_title it)) || negb (is_set (WP.srcset it)))
    eqn:G; [apply keeps_ret|].
  apply orb_false_iff in G. destruct G as [Gt _].
  apply negb_false_iff in Gt. cbv zeta.
  destruct (truthy (pickLargestSrc (WP.srcset it))) eqn:Gb;
    [|apply keeps_ret].
  apply framed_push_article_gallery. repeat split; cbn.
  - destruct (WP.item_title it) as [[|c t]|]; discriminate.
  - exact Gb.
  - apply ExtractFacts.pickLargestSrc_absolute, Gb.
Qed.

Lemma framed_enrichFromWikipedia env seed :
  keeps J (enrichFromWikipedia env seed).
Proof.
  unfold enrichFromWikipedia.
  repeat first
    [ apply framed_extractors
    | apply keeps_forM_; apply framed_media_item
    | apply keeps_modify; intros;
      first [apply (fr_summary F) | apply (fr_infobox F)]; assumption
    | framed_step ].
Qed.

Lemma framed_finalizeCanonical : keeps J finalizeCanonical.
Proof. unfold finalizeCanonical. cbv zeta. repeat framed_step. Qed.

Lemma framed_aggregateDownloadList : keeps J aggregateDownloadList.
Proof. apply keeps_modify. intros o H. apply (fr_image_urls F), H. Qed.

(** Every stage but the Discogs stage and the image stage keeps [J]. *)
Lemma framed_run_stage env flags seed st :
  st <> StDiscogs -> st <> StImages ->
  keeps J (run_stage env flags seed st).
Proof.
  intros Hd Hi. destruct st; simpl; try contradiction;
    auto using framed_resolveMusicBrainz,
      framed_resolveWikidataAndWikipedia, framed_enrichFromWikipedia,
      framed_finalizeCanonical, framed_aggregateDownloadList.
Qed.

Lemma keeps_forM_In A (l : list A) (f : A -> M unit) :
  (forall x, In x l -> keeps J (f x)) -> keeps J (forM_ l f).
Proof.
  induction l as [|x l IH]; intros Hf; simpl.
  - apply keeps_ret.
  - apply keeps_bind; [apply Hf; left; reflexivity|].
    intros _. apply IH. intros y Hy. apply Hf. right. exact Hy.
Qed.

(** With the writes of the image stage and the final stamp. *)
Section Tail.

(** The image stage also fills the artist gallery. *)
Hypothesis G : forall it o,
    artist_item it -> J o -> J (Out.upd_wiki (add_artist it) o).

Lemma framed_buildImageGalleries env seed :
  keeps J (buildImageGalleries env seed).
Proof.
  unfold buildImageGalleries.
  repeat first
    [ match goal with
      | |- keeps _ (when (truthy (fi_url ?fi)) _) =>
          destruct (truthy (fi_url fi)) eqn:Gu; [|apply keeps_ret];
          apply keeps_modify; intros; apply G;
          [repeat split; cbn; eauto | assumption]
      end
    | framed_step ].
Qed.

(** Every stage but the Discogs stage keeps [J]. *)
Lemma framed_later_stage env flags seed st :
  st <> StDiscogs -> keeps J (run_stage env flags seed st).
Proof.
  intros Hd. destruct st; try (apply framed_run_stage; congruence).
  simpl. apply keeps_when, framed_buildImageGalleries.
Qed.

Lemma framed_later_stages env flags seed stages :
  ~ In StDiscogs stages -> keeps J (run_stages env flags seed stages).
Proof.
  intros Hno. apply keeps_forM_In. intros st Hin.
  apply framed_later_stage. intros ->. contradiction.
Qed.

(** With the writes of the Discogs stage, every stage keeps [J]. *)
Hypothesis D : DiscogsFrame J.

Lemma framed_resolveDiscogsByUPC env seed :
  keeps J (resolveDiscogsByUPC env seed).
Proof.
  unfold resolveDiscogsByUPC.
  repeat first
    [ framed_step
    | apply keeps_ids; intros;
      first [apply (df_release_id D) | apply (df_master_id D)];
      first [assumption | ref_fact]
    | apply keeps_canonical; intros;
      first [ apply (df_country D) | apply (df_upc D)
            | apply (df_artist_or D) | apply (df_title_or D) ]; assumption
    | apply keeps_whenS ].
Qed.

Lemma framed_any_stage env flags seed st :
  keeps J (run_stage env flags seed st).
Proof.
  destruct st; try (apply framed_later_stage; discriminate).
  simpl. apply keeps_when, framed_resolveDiscogsByUPC.
Qed.

Lemma framed_any_stages env flags seed stages :
  keeps J (run_stages env flags seed stages).
Proof. apply keeps_forM_. intros st. apply framed_any_stage. Qed.

(** With the barcodes that [normalizeSeed] records and the final
    stamp, the whole handler keeps [J]. *)
Hypothesis N : forall bc o,
    J o -> J (Out.upd_diagnostics (add_tried bc) o).
Hypothesis T : forall v o, J o -> J (Out.set_ts_done v o).

Lemma framed_stamp_done env : keeps J (stamp_done env).
Proof.
  unfold stamp_done. apply keeps_bind; [apply keeps_now|].
  intros t. apply keeps_modify. intros o H. apply T, H.
Qed.

Lemma framed_pipeline env flags seed : keeps J (pipeline env flags seed).
Proof.
  intros s H. rewrite pipeline_stages.
  revert s H. apply keeps_bind; [apply framed_normalizeSeed, N|].
  intros seed'. apply keeps_bind; [|intros _; apply framed_stamp_done].
  apply framed_any_stages.
Qed.

Lemma framed_enrich env flags seed : keeps J (enrich env flags seed).
Proof.
  unfold enrich. apply keeps_try_catch; [apply framed_pipeline|].
  intros e. apply framed_push_note.
Qed.

(** The document sent back has every framed property that the document
    has when the [try] block is entered. *)
Lemma framed_handle env flags url :
  J (out (entry env flags)) -> J (out (handle env flags url)).
Proof. intros H. unfold handle. apply framed_enrich, H. Qed.

End Tail.

End Framed.



(** ** Deduplication, again *)

Module DedupeMore.

Import DedupeFacts.

Lemma fold_add_distinct l : forall acc,
  NoDup (acc ++ l) -> fold_left JSSet.add l acc = acc ++ l.
Proof.
  induction l as [|x l IH]; intros acc H; simpl.
  - rewrite app_nil_r. reflexivity.
  - assert (Hx : JSSet.has x acc = false).
    { destruct (JSSet.has x acc) eqn:E; [|reflexivity].
      apply has_In in E. apply NoDup_remove_2 in H.
      exfalso. apply H. apply in_or_app. left. exact E. }
    unfold JSSet.add at 2. rewrite Hx.
    rewrite IH; rewrite <- app_assoc; [reflexivity | exact H].
Qed.

Lemma fold_add_extends l : forall acc,
  extends acc (fold_left JSSet.add l acc).
Proof.
  induction l as [|x l IH]; intros acc; simpl.
  - exists []. rewrite app_nil_r. reflexivity.
  - unfold JSSet.add at 2. destruct (JSSet.has x acc); [apply IH|].
    destruct (IH (acc ++ [x])) as [ext E]. exists ([x] ++ ext).
    rewrite E, <- app_assoc. reflexivity.
Qed.

Lemma filter_nonempty_fixed l :
  ~ In "" l -> List.filter (fun x => negb (Str.is_empty x)) l = l.
Proof.
  induction l as [|x l IH]; intros H; simpl; [reflexivity|].
  destruct x; simpl.
  - exfalso. apply H. left. reflexivity.
  - f_equal. apply IH. intros Hin. apply H. right. exact Hin.
Qed.

(** A duplicate-free list of non-empty strings is a fixed point. *)
Lemma dedupe_fixed l : genre_set l -> dedupe l = l.
Proof.
  intros [Hnd Hne]. unfold dedupe, JSSet.to_list, JSSet.of_list, JSSet.empty.
  rewrite filter_nonempty_fixed by assumption.
  apply (@fold_add_distinct l []). exact Hnd.
Qed.

Lemma dedupe_genre_set l : genre_set (dedupe l).
Proof.
  split; [apply dedupe_NoDup|]. rewrite dedupe_In. tauto.
Qed.

(** Appending to such a list and deduplicating leaves the list in front. *)
Lemma dedupe_app_extends l g : genre_set l -> extends l (dedupe (l ++ g)).
Proof.
  intros [Hnd Hne]. unfold dedupe, JSSet.to_list, JSSet.of_list, JSSet.empty.
  rewrite filter_app, filter_nonempty_fixed by assumption.
  rewrite fold_left_app.
  rewrite (@fold_add_distinct l []) by exact Hnd.
  apply fold_add_extends.
Qed.

Lemma extends_trans A (a b c : list A) :
  extends a b -> extends b c -> extends a c.
Proof.
  intros [x ->] [y ->]. exists (x ++ y). rewrite app_assoc. reflexivity.
Qed.

Lemma extends_refl A (a : list A) : extends a a.
Proof. exists []. rewrite app_nil_r. reflexivity. Qed.

Lemma of_list_length l : List.length (JSSet.of_list l) <= List.length l.
Proof.
  induction l as [|x l IH] using rev_ind; [simpl; lia|].
  rewrite of_list_snoc, length_app. simpl. unfold JSSet.add.
  destruct (JSSet.has x (JSSet.of_list l)); rewrite ?length_app; simpl; lia.
Qed.

Lemma dedupe_length l : List.length (dedupe l) <= List.length l.
Proof.
  unfold dedupe, JSSet.to_list.
  etransitivity; [apply of_list_length | apply filter_length_le].
Qed.

End DedupeMore.

(** X10.  [dedupe] is idempotent; it leaves a duplicate-free list of
    non-empty strings as it is, never returns a longer list than it is
    given, and keeps such a list in front when more entries are appended to
    it. *)
Theorem dedupe_idempotent :
  (forall l, dedupe (dedupe l) = dedupe l)
  /\ (forall l, NoDup l -> ~ In "" l -> dedupe l = l)
  /\ (forall l, List.length (dedupe l) <= List.length l)
  /\ (forall l more,
         NoDup l -> ~ In "" l -> exists ext, dedupe (l ++ more) = l ++ ext).
Proof.
  split; [|split; [|split]].
  - intros l. apply DedupeMore.dedupe_fixed, DedupeMore.dedupe_genre_set.
  - intros l H1 H2. apply DedupeMore.dedupe_fixed. split; assumption.
  - apply DedupeMore.dedupe_length.
  - intros l more H1 H2.
    apply (@DedupeMore.dedupe_app_extends l more). split; assumption.
Qed.

Lemma dedupe_idempotent_witness :
  dedupe ["Jazz"; "Modal"] = ["Jazz"; "Modal"]
  /\ exists ext, dedupe (["Jazz"; "Modal"] ++ ["Modal"; "Jazz"; "Bop"])
                 = ["Jazz"; "Modal"] ++ ext.
Proof.
  destruct dedupe_idempotent as (_ & Hfix & _ & Hpre).
  assert (Hnd : NoDup ["Jazz"; "Modal"])
    by (repeat constructor; simpl; intuition discriminate).
  assert (Hne : ~ In "" ["Jazz"; "Modal"])
    by (simpl; intuition discriminate).
  split; [apply Hfix | apply Hpre]; assumption.
Defined.

(** ** The genre list *)

Section Genre.

(** The genre list is a set that grows at its end. *)
Variable g0 : list string.

Let J : Out.t -> Prop :=
  fun o => genre_set (Canonical.genre (Out.canonical o))
           /\ extends g0 (Canonical.genre (Out.canonical o)).

Lemma genre_write g o :
  J o ->
  J (Out.upd_canonical
       (fun c => Canonical.set_genre (dedupe (Canonical.genre c ++ g)) c) o).
Proof.
  intros [Hset Hext]. split; cbn.
  - apply DedupeMore.dedupe_genre_set.
  - eapply DedupeMore.extends_trans; [exact Hext|].
    apply DedupeMore.dedupe_app_extends, Hset.
Qed.

Lemma genre_frame : Frame J.
Proof. constructor; try (intros; assumption). apply genre_write. Qed.

Lemma genre_discogs_frame : DiscogsFrame J.
Proof. constructor; intros; assumption. Qed.

Lemma genre_tail_frame : TailFrame J.
Proof. constructor; intros; assumption. Qed.

Lemma genre_kept_by_stages env flags seed stages :
  keeps J (run_stages env flags seed stages).
Proof.
  apply framed_any_stages;
    [ apply genre_frame | apply (tf_artist_gallery genre_tail_frame)
    | apply genre_discogs_frame ].
Qed.

Lemma genre_kept_by_handle env flags url :
  J (out (entry env flags)) -> J (out (handle env flags url)).
Proof.
  apply framed_handle;
    [ apply genre_frame | apply (tf_artist_gallery genre_tail_frame)
    | apply genre_discogs_frame | intros; assumption
    | apply (tf_ts_done genre_tail_frame) ].
Qed.

End Genre.

(** X1.  In the document sent back, [canonical.genre] has no duplicate and
    no empty entry, for every request and whatever the providers answer. *)
Theorem canonical_genre_is_set env url :
  NoDup (Canonical.genre (Out.canonical (js_body (fetch_handler env url))))
  /\ ~ In "" (Canonical.genre (Out.canonical (js_body (fetch_handler env url)))).
Proof.
  unfold fetch_handler, json_response. cbn [js_body].
  apply (@genre_kept_by_handle [] env (parseFlags url) url).
  split; [split; [constructor | intros []] | exists []; reflexivity].
Qed.

(** X2.  The stages only append to [canonical.genre]: run in any number
    and order from a state whose genre list has no duplicate and no empty
    entry, they leave a list of that kind which starts with the list they
    found. *)
Theorem canonical_genre_append_only env flags seed (stages : list Stage) s :
  NoDup (Canonical.genre (Out.canonical (out s))) ->
  ~ In "" (Canonical.genre (Out.canonical (out s))) ->
  let after :=
    Canonical.genre
      (Out.canonical (out (snd (run_stages env flags seed stages s)))) in
  NoDup after /\ ~ In "" after
  /\ exists added, after = Canonical.genre (Out.canonical (out s)) ++ added.
Proof.
  intros Hnd Hne after.
  destruct (@genre_kept_by_stages (Canonical.genre (Out.canonical (out s)))
              env flags seed stages s) as [[H1 H2] H3].
  - split; [split; assumption | apply DedupeMore.extends_refl].
  - auto.
Qed.

Lemma canonical_genre_append_only_witness :
  exists added,
    Canonical.genre
      (Out.canonical
         (out (snd (run_stages World.env Examples.flags0
                      (Seed.set_upc (Some "888751119215") Seed.empty)
                      after_discogs discogs_done))))
    = ["Jazz"; "Modal"] ++ added.
Proof.
  destruct (@canonical_genre_append_only World.env Examples.flags0
              (Seed.set_upc (Some "888751119215") Seed.empty)
              after_discogs discogs_done) as (_ & _ & H).
  - repeat constructor; simpl; intuition discriminate.
  - simpl. intuition discriminate.
  - exact H.
Defined.

(** ** Fields that are written once *)

(** A frame for a property that no write disturbs, up to the writes that
    are listed with their proofs. *)
Ltac frame_by_conversion :=
  first [ solve [intros; assumption]
        | constructor; try (intros; assumption) ].

Section WriteOnce.

(** The value [t] of a field of the canonical record, read by [field],
    is truthy. *)
Variable t : option string.
Hypothesis t_truthy : truthy t = true.

Lemma falsy_absurd (v : option string) (Q : Prop) :
  v = t -> truthy v = false -> Q.
Proof. intros -> H. congruence. Qed.

Lemma or_else_kept (v w : option string) : v = t -> or_else v w = t.
Proof. intros ->. unfold or_else. rewrite t_truthy. reflexivity. Qed.

Lemma artist_frames :
  let J := fun o => Canonical.artist (Out.canonical o) = t in
  Frame J /\ DiscogsFrame J /\ TailFrame J.
Proof.
  cbv zeta. repeat split; try (intros; assumption).
  - intros v o H G. exact (falsy_absurd _ H G).
  - intros v o H. apply (or_else_kept v H).
Qed.

Lemma year_frames :
  let J := fun o => Canonical.year (Out.canonical o) = t in
  Frame J /\ DiscogsFrame J /\ TailFrame J.
Proof.
  cbv zeta. repeat split; try (intros; assumption).
  intros v o H G. exact (falsy_absurd _ H G).
Qed.

Lemma cover_url_frames :
  let J := fun o => Canonical.cover_url (Out.canonical o) = t in
  Frame J /\ DiscogsFrame J /\ TailFrame J.
Proof.
  cbv zeta. repeat split; try (intros; assumption).
  intros v o H G. exact (falsy_absurd _ H G).
Qed.

Lemma catalog_number_frames :
  let J := fun o => Canonical.catalog_number (Out.canonical o) = t in
  Frame J /\ DiscogsFrame J /\ TailFrame J.
Proof.
  cbv zeta. repeat split; try (intros; assumption).
  intros v o H G. exact (falsy_absurd _ H G).
Qed.

Lemma country_frames :
  let J := fun o => Canonical.country (Out.canonical o) = t in
  Frame J /\ TailFrame J.
Proof.
  cbv zeta. repeat split; try (intros; assumption).
  intros v o H G. exact (falsy_absurd _ H G).
Qed.

End WriteOnce.

Section LabelOnce.

(** The same for the label, whose value may be an array. *)
Variable t : option Label.
Hypothesis t_truthy : label_truthy t = true.

Lemma label_frames :
  let J := fun o => Canonical.label (Out.canonical o) = t in
  Frame J /\ DiscogsFrame J /\ TailFrame J.
Proof.
  cbv zeta. repeat split; try (intros; assumption).
  intros v o H G. rewrite H in G. congruence.
Qed.

End LabelOnce.

(** X3.  The fields [artist], [label], [year], [cover_url] and
    [catalog_number] of the canonical record are write-once: the stages of
    the handler, run in any number and order from a state in which one of
    them is non-empty, leave that field as it is, whatever the providers
    answer. *)
Theorem canonical_fields_write_once env flags seed (stages : list Stage) s :
  let c := Out.canonical (out s) in
  let c' := Out.canonical (out (snd (run_stages env flags seed stages s))) in
  (truthy (Canonical.artist c) = true -> Canonical.artist c' = Canonical.artist c)
  /\ (label_truthy (Canonical.label c) = true ->
      Canonical.label c' = Canonical.label c)
  /\ (truthy (Canonical.year c) = true -> Canonical.year c' = Canonical.year c)
  /\ (truthy (Canonical.cover_url c) = true ->
      Canonical.cover_url c' = Canonical.cover_url c)
  /\ (truthy (Canonical.catalog_number c) = true ->
      Canonical.catalog_number c' = Canonical.catalog_number c).
Proof.
  cbv zeta. repeat split; intros Ht.
  - destruct (@artist_frames _ Ht) as (F & D & T).
    exact (framed_any_stages F (tf_artist_gallery T) D env flags seed stages s eq_refl).
  - destruct (@label_frames _ Ht) as (F & D & T).
    exact (framed_any_stages F (tf_artist_gallery T) D env flags seed stages s eq_refl).
  - destruct (@year_frames _ Ht) as (F & D & T).
    exact (framed_any_stages F (tf_artist_gallery T) D env flags seed stages s eq_refl).
  - destruct (@cover_url_frames _ Ht) as (F & D & T).
    exact (framed_any_stages F (tf_artist_gallery T) D env flags seed stages s eq_refl).
  - destruct (@catalog_number_frames _ Ht) as (F & D & T).
    exact (framed_any_stages F (tf_artist_gallery T) D env flags seed stages s eq_refl).
Qed.

Lemma canonical_fields_write_once_witness :
  Canonical.artist
    (Out.canonical
       (out (snd (run_stages World.env Examples.flags0
                    (Seed.set_upc (Some "888751119215") Seed.empty)
                    after_discogs discogs_done))))
  = Some "Miles Davis"
  /\ Canonical.label
       (Out.canonical
          (out (snd (run_stages World.env Examples.flags0
                       (Seed.set_upc (Some "888751119215") Seed.empty)
                       after_discogs discogs_done))))
     = Some (LabelNames ["Columbia"]).
Proof.
  destruct (@canonical_fields_write_once World.env Examples.flags0
              (Seed.set_upc (Some "888751119215") Seed.empty)
              after_discogs discogs_done) as (Ha & Hl & _).
  split; [apply Ha | apply Hl]; reflexivity.
Defined.

(** X4.  Only the Discogs stage writes [canonical.upc], and only the
    Discogs stage overwrites a non-empty [canonical.country]: the other
    stages, in any number and order, leave [upc] as it is and leave a
    non-empty [country] as it is. *)
Theorem country_and_upc_after_discogs env flags seed (stages : list Stage) s :
  ~ In StDiscogs stages ->
  let c := Out.canonical (out s) in
  let c' := Out.canonical (out (snd (run_stages env flags seed stages s))) in
  Canonical.upc c' = Canonical.upc c
  /\ (truthy (Canonical.country c) = true ->
      Canonical.country c' = Canonical.country c).
Proof.
  intros Hno. cbv zeta. split.
  - refine (@framed_later_stages
              (fun o => Canonical.upc (Out.canonical o)
                        = Canonical.upc (Out.canonical (out s)))
              _ _ env flags seed stages Hno s eq_refl);
      frame_by_conversion.
  - intros Ht. destruct (@country_frames _ Ht) as (F & T).
    exact (@framed_later_stages _ F (tf_artist_gallery T) env flags seed stages Hno s eq_refl).
Qed.

Lemma country_and_upc_after_discogs_witness :
  Canonical.upc
    (Out.canonical
       (out (snd (run_stages World.env Examples.flags0
                    (Seed.set_upc (Some "888751119215") Seed.empty)
                    after_discogs discogs_done))))
  = Some "888751119215"
  /\ Canonical.country
       (Out.canonical
          (out (snd (run_stages World.env Examples.flags0
                       (Seed.set_upc (Some "888751119215") Seed.empty)
                       after_discogs discogs_done))))
     = Some "US".
Proof.
  destruct (@country_and_upc_after_discogs World.env Examples.flags0
              (Seed.set_upc (Some "888751119215") Seed.empty)
              after_discogs discogs_done) as (Hu & Hc).
  - simpl. intuition discriminate.
  - split; [apply Hu | apply Hc; reflexivity].
Defined.

(** ** Identifiers *)

Lemma set_absurd A (v w : option A) (Q : Prop) :
  is_set w = true -> v = w -> is_set v = false -> Q.
Proof. intros H -> G. congruence. Qed.

(** X5.  The identifiers [wikidata_qid], [artist_wikidata_qid] and
    [wikipedia_title] are first-resolved-wins: once one of them is set, no
    stage replaces it, in whatever number and order the stages run and
    whatever the providers answer.  Without the Discogs stage the same holds
    of [discogs_release_id], and [discogs_master_id] is not written at
    all. *)
Theorem ids_first_resolved_wins env flags seed (stages : list Stage) s :
  let i := Out.ids (out s) in
  let i' := Out.ids (out (snd (run_stages env flags seed stages s))) in
  (is_set (Ids.wikidata_qid i) = true ->
   Ids.wikidata_qid i' = Ids.wikidata_qid i)
  /\ (is_set (Ids.artist_wikidata_qid i) = true ->
      Ids.artist_wikidata_qid i' = Ids.artist_wikidata_qid i)
  /\ (is_set (Ids.wikipedia_title i) = true ->
      Ids.wikipedia_title i' = Ids.wikipedia_title i)
  /\ (~ In StDiscogs stages ->
      Ids.discogs_master_id i' = Ids.discogs_master_id i
      /\ (is_set (Ids.discogs_release_id i) = true ->
          Ids.discogs_release_id i' = Ids.discogs_release_id i)).
Proof.
  cbv zeta. split; [|split; [|split]].
  - intros Ht.
    refine (@framed_any_stages
              (fun o => Ids.wikidata_qid (Out.ids o)
                        = Ids.wikidata_qid (Out.ids (out s)))
              _ _ _ env flags seed stages s eq_refl);
      frame_by_conversion.
    intros v o _ H G. exact (set_absurd _ Ht H G).
  - intros Ht.
    refine (@framed_any_stages
              (fun o => Ids.artist_wikidata_qid (Out.ids o)
                        = Ids.artist_wikidata_qid (Out.ids (out s)))
              _ _ _ env flags seed stages s eq_refl);
      frame_by_conversion.
    intros v o _ H G. exact (set_absurd _ Ht H G).
  - intros Ht.
    refine (@framed_any_stages
              (fun o => Ids.wikipedia_title (Out.ids o)
                        = Ids.wikipedia_title (Out.ids (out s)))
              _ _ _ env flags seed stages s eq_refl);
      frame_by_conversion.
    intros v o _ H G. exact (set_absurd _ Ht H G).
  - intros Hno. split.
    + refine (@framed_later_stages
                (fun o => Ids.discogs_master_id (Out.ids o)
                          = Ids.discogs_master_id (Out.ids (out s)))
                _ _ env flags seed stages Hno s eq_refl);
        frame_by_conversion.
    + intros Ht.
      refine (@framed_later_stages
                (fun o => Ids.discogs_release_id (Out.ids o)
                          = Ids.discogs_release_id (Out.ids (out s)))
                _ _ env flags seed stages Hno s eq_refl);
        frame_by_conversion.
      intros v o _ H G. exact (set_absurd _ Ht H G).
Qed.

Lemma ids_first_resolved_wins_witness :
  Ids.discogs_release_id
    (Out.ids
       (out (snd (run_stages World.env Examples.flags0
                    (Seed.set_upc (Some "888751119215") Seed.empty)
                    after_discogs discogs_done))))
  = Ids.discogs_release_id (Out.ids (out discogs_done))
  /\ is_set (Ids.discogs_release_id (Out.ids (out discogs_done))) = true.
Proof.
  destruct (@ids_first_resolved_wins World.env Examples.flags0
              (Seed.set_upc (Some "888751119215") Seed.empty)
              after_discogs discogs_done) as (_ & _ & _ & H).
  destruct H as [_ H].
  - simpl. intuition discriminate.
  - split; [apply H|]; reflexivity.
Defined.

(** ** The diagnostics *)

(** X6.  In every document sent back, [diagnostics.matched_on] is [null],
    [upc] or [artist+title]: no other value is ever reported, whatever the
    request and whatever the providers answer. *)
Theorem matched_on_values env url :
  let m :=
    Diagnostics.matched_on
      (Out.diagnostics (js_body (fetch_handler env url))) in
  m = None \/ m = Some "upc" \/ m = Some "artist+title".
Proof.
  cbv zeta. unfold fetch_handler, json_response. cbn [js_body].
  refine (@framed_handle
            (fun o =>
               Diagnostics.matched_on (Out.diagnostics o) = None
               \/ Diagnostics.matched_on (Out.diagnostics o) = Some "upc"
               \/ Diagnostics.matched_on (Out.diagnostics o)
                  = Some "artist+title")
            _ _ _ _ _ env (parseFlags url) url (or_introl eq_refl));
    frame_by_conversion.
  - intros l e o H. destruct l; exact H.
  - intros tag o [-> | ->] _; cbn; auto.
Qed.

Section AppendOnly.

Variable d0 : Diagnostics.t.

Lemma extends_snoc A (p l : list A) x : extends p l -> extends p (l ++ [x]).
Proof.
  intros [ext ->]. exists (ext ++ [x]). symmetry. apply app_assoc.
Qed.

Lemma grown_frame : Frame (grown d0).
Proof.
  constructor; try (intros; assumption).
  - intros msg o (H1 & H2 & H3). repeat split; try assumption.
    cbn. apply extends_snoc, H1.
  - intros l e o (H1 & H2 & H3). repeat split.
    + destruct l; exact H1.
    + destruct l; exact H2.
    + intros l'. specialize (H3 l').
      destruct l, l'; cbn in *; try exact H3; apply extends_snoc, H3.
Qed.

Lemma grown_discogs_frame : DiscogsFrame (grown d0).
Proof. constructor; intros; assumption. Qed.

End AppendOnly.

(** X7.  The diagnostics are append-only: the notes, the tried barcodes
    and each of the four HTTP logs that a state holds are a prefix of what
    it holds after the [try] block with its [catch], and after the stages
    run in any number and order. *)
Theorem diagnostics_append_only env flags seed (stages : list Stage) s :
  grown (Out.diagnostics (out s)) (out (snd (enrich env flags seed s)))
  /\ grown (Out.diagnostics (out s))
           (out (snd (run_stages env flags seed stages s))).
Proof.
  assert (H0 : grown (Out.diagnostics (out s)) (out s)).
  { repeat split; intros; exists []; symmetry; apply app_nil_r. }
  split.
  - refine (@framed_enrich _ (grown_frame _) _ (grown_discogs_frame _) _ _
              env flags seed s H0); try (intros; assumption).
    intros bc o (H1 & H2 & H3). repeat split; try assumption.
    cbn. apply extends_snoc, H2.
  - refine (@framed_any_stages _ (grown_frame _) _ (grown_discogs_frame _)
              env flags seed stages s H0); intros; assumption.
Qed.

(** X8.  Every document sent back echoes the flags read from the request,
    carries the schema version of [initOut], and has an empty album
    gallery: no stage writes one of them. *)
Theorem flags_echoed_album_gallery_empty env url :
  let doc := js_body (fetch_handler env url) in
  Out.flags doc = parseFlags url
  /\ Out.schema_version doc = "4.3.0"
  /\ Wiki.album_gallery (Out.wiki doc) = [].
Proof.
  cbv zeta. unfold fetch_handler, json_response. cbn [js_body].
  refine (@framed_handle
            (fun o =>
               Out.flags o = parseFlags url
               /\ Out.schema_version o = "4.3.0"
               /\ Wiki.album_gallery (Out.wiki o) = [])
            _ _ _ _ _ env (parseFlags url) url
            (conj eq_refl (conj eq_refl eq_refl)));
    frame_by_conversion.
Qed.

(** ** How the handler ends *)

Section Outcome.






End Outcome.


(** ** Requests *)

(** X11.  Without a usable key the handler asks no provider.  When the
    barcode of the seed has no digit, both release MBIDs are empty and the
    artist or the title is missing, the [try] block with its [catch] reads
    the clock once more and does nothing else: no request, no pause, no
    identifier, untouched diagnostics, and a canonical record that holds the
    default format only. *)
Theorem no_request_without_a_key env flags seed :
  normalizeBarcode (Seed.upc seed) = None ->
  truthy (Seed.mbid seed) = false ->
  truthy (Seed.mb_release_mbid seed) = false ->
  truthy (Seed.artist seed) && truthy (Seed.title seed) = false ->
  let s := snd (enrich env flags seed (entry env flags)) in
  trace s = [EvNow; EvNow; EvNow]
  /\ Out.ids (out s) = Ids.init
  /\ Out.diagnostics (out s) = Diagnostics.init
  /\ Out.canonical (out s) = Canonical.set_format ["Album"] Canonical.init
  /\ is_set (Out.ts_done (out s)) = true.
Proof.
  intros Hupc Hmbid Hrel Htext. cbv zeta.
  unfold enrich, try_catch, pipeline, normalizeSeed.
  destruct seed as [upc mbid rel rg ma dg dm qid title artist].
  cbn [Seed.upc Seed.set_upc Seed.mbid Seed.mb_release_mbid Seed.artist
       Seed.title] in *.
  rewrite Hupc.
  assert (Hm : mbid = None \/ mbid = Some "").
  { destruct mbid as [[|c m]|]; auto; discriminate. }
  assert (Hr : rel = None \/ rel = Some "").
  { destruct rel as [[|c m]|]; auto; discriminate. }
  assert (Ht : (artist = None \/ artist = Some "")
               \/ (title = None \/ title = Some "")).
  { destruct artist as [[|c m]|]; auto.
    destruct title as [[|c' m']|]; auto; discriminate. }
  destruct Hm as [-> | ->], Hr as [-> | ->];
    destruct (String.eqb (images flags) "none") eqn:Ei;
    destruct Ht as [[-> | ->] | [-> | ->]];
    try (destruct artist as [[|c a]|]);
    cbn; rewrite ?Ei; cbn; repeat split; reflexivity.
Qed.

Lemma no_request_without_a_key_witness :
  trace (snd (enrich World.env Examples.flags0 title_only
                (entry World.env Examples.flags0)))
  = [EvNow; EvNow; EvNow].
Proof.
  apply (@no_request_without_a_key World.env Examples.flags0 title_only);
    reflexivity.
Defined.

(** ** Runs of the provider helpers *)

Lemma bind_throws A B (m : M A) (f : A -> M B) s e s' :
  m s = (Throw e, s') -> bind m f s = (Throw e, s').
Proof. intros H. unfold bind. rewrite H. reflexivity. Qed.

Lemma hydrate_rejected env id s e :
  net env (trace s) (mb_detail_request id) = NetFail e ->
  hydrateMBRelease env id s
  = (Ok None,
     mkSt (Out.upd_diagnostics
             (add_note ("musicbrainz release fetch error: " ++ Exn_toString e))
             (out s))
          (trace s ++ [EvFetch (mb_detail_request id)])).
Proof.
  intros H. unfold hydrateMBRelease, try_catch, bind, fetch.
  fold (mb_detail_request id). rewrite H. reflexivity.
Qed.

Lemma hydrate_replied env id s r :
  net env (trace s) (mb_detail_request id) = Reply r ->
  let logged :=
    Out.upd_diagnostics
      (Diagnostics.push_http MbHttp
         (mkHttpLog ("/release/" ++ tmpl id) (status r))) (out s) in
  let tr := trace s ++ [EvFetch (mb_detail_request id)] in
  hydrateMBRelease env id s
  = if negb (ok r) then
      (Ok None,
       mkSt (Out.upd_diagnostics
               (add_note ("musicbrainz release detail failed with status "
                            ++ string_of_nat (status r))) logged) tr)
    else
      match body r with
      | BInvalid why =>
          (Ok None,
           mkSt (Out.upd_diagnostics
                   (add_note ("musicbrainz release fetch error: "
                                ++ Exn_toString (mkExn "SyntaxError" why)))
                   logged) tr)
      | b => (Ok (as_release b), mkSt logged tr)
      end.
Proof.
  intros H. cbv zeta. unfold hydrateMBRelease, try_catch, bind, fetch.
  fold (mb_detail_request id). rewrite H.
  cbn [push_http modify out trace]. destruct (ok r); cbn [negb].
  - unfold json. destruct (body r); reflexivity.
  - reflexivity.
Qed.

Lemma GETjson_rejected env base path log qs s e :
  net env (trace s) (GET (GETjson_url base path qs) JSON_H) = NetFail e ->
  GETjson env base path log qs s
  = (Throw e,
     mkSt (out s) (trace s ++ [EvFetch (GET (GETjson_url base path qs) JSON_H)])).
Proof.
  intros H. unfold GETjson, bind, fetch. fold (GETjson_url base path qs).
  rewrite H. reflexivity.
Qed.


Lemma hydrateMBRelease_trace env id s :
  trace (snd (hydrateMBRelease env id s))
  = trace s ++ [EvFetch (mb_detail_request id)].
Proof.
  destruct (net env (trace s) (mb_detail_request id)) as [e | r] eqn:E.
  - rewrite (hydrate_rejected env id s E). reflexivity.
  - rewrite (hydrate_replied env id s E).
    destruct (ok r); [destruct (body r)|]; reflexivity.
Qed.

(** ** What the script does to the world *)

Section Traces.

(** A property of the events that a polite request, a pause of two
    seconds and a reading of the clock keep. *)
Variable P : list Event -> Prop.
Hypothesis P_fetch :
  forall tr rq, polite rq = true -> P tr -> P (tr ++ [EvFetch rq]).
Hypothesis P_sleep : forall tr, P tr -> P (tr ++ [EvSleep 2000]).
Hypothesis P_now : forall tr, P tr -> P (tr ++ [EvNow]).

Lemma traces_ret A (a : A) : traces P (ret a).
Proof. intros s H. exact H. Qed.

Lemma traces_throw A e : traces P (@throw A e).
Proof. intros s H. exact H. Qed.

Lemma traces_bind A B (m : M A) (f : A -> M B) :
  traces P m -> (forall a, traces P (f a)) -> traces P (bind m f).
Proof.
  intros Hm Hf s H. unfold bind. specialize (Hm s H).
  destruct (m s) as [[a | e] s']; simpl in *; [apply Hf|]; exact Hm.
Qed.

Lemma traces_try_catch A (m : M A) h :
  traces P m -> (forall e, traces P (h e)) -> traces P (try_catch m h).
Proof.
  intros Hm Hh s H. unfold try_catch. specialize (Hm s H).
  destruct (m s) as [[a | e] s']; simpl in *; [|apply Hh]; exact Hm.
Qed.

Lemma traces_when b m : traces P m -> traces P (when b m).
Proof. intros Hm. destruct b; [exact Hm | apply traces_ret]. Qed.

Lemma traces_whenS c m : traces P m -> traces P (whenS c m).
Proof.
  intros Hm s H. unfold whenS. destruct (c (out s)); [apply Hm|]; exact H.
Qed.

Lemma traces_forM_ A (l : list A) f :
  (forall x, traces P (f x)) -> traces P (forM_ l f).
Proof.
  intros Hf. induction l as [|x r IH]; simpl; [apply traces_ret|].
  apply traces_bind; [apply Hf | intros _; exact IH].
Qed.

Lemma traces_gets A (f : Out.t -> A) : traces P (gets f).
Proof. intros s H. exact H. Qed.

Lemma traces_modify f : traces P (modify f).
Proof. intros s H. exact H. Qed.

Lemma traces_json r : traces P (json r).
Proof. intros s H. unfold json. destruct (body r); exact H. Qed.

Lemma traces_fetch env rq : polite rq = true -> traces P (fetch env rq).
Proof.
  intros Hp s H. unfold fetch.
  destruct (net env (trace s) rq); simpl; apply P_fetch; assumption.
Qed.

Lemma traces_sleep : traces P (sleep 2000).
Proof. intros s H. apply P_sleep, H. Qed.

Lemma traces_now env : traces P (now env).
Proof. intros s H. apply P_now, H. Qed.

(** One step of a proof on the events: a rule for the head of the
    program, or a case split on what it branches on. *)
Ltac traces_step :=
  match goal with
  | |- traces _ (bind _ _) => apply traces_bind; [|intros]
  | |- traces _ (try_catch _ _) => apply traces_try_catch; [|intros]
  | |- traces _ (when _ _) => apply traces_when
  | |- traces _ (whenS _ _) => apply traces_whenS
  | |- traces _ (forM_ _ _) => apply traces_forM_; intros
  | |- traces _ (ret _) => apply traces_ret
  | |- traces _ (throw _) => apply traces_throw
  | |- traces _ (gets _) => apply traces_gets
  | |- traces _ (modify _) => apply traces_modify
  | |- traces _ (modify_canonical _) => apply traces_modify
  | |- traces _ (modify_ids _) => apply traces_modify
  | |- traces _ (modify_wikipedia _) => apply traces_modify
  | |- traces _ (push_note _) => apply traces_modify
  | |- traces _ (push_http _ _ _) => apply traces_modify
  | |- traces _ (push_tried _) => apply traces_modify
  | |- traces _ (set_matched_on _) => apply traces_modify
  | |- traces _ (push_article_gallery _) => apply traces_modify
  | |- traces _ (push_artist_gallery _) => apply traces_modify
  | |- traces _ (json _) => apply traces_json
  | |- traces _ (sleep 2000) => apply traces_sleep
  | |- traces _ (now _) => apply traces_now
  | |- traces _ (fetch _ _) => apply traces_fetch; reflexivity
  | |- traces _ (if ?b then _ else _) => destruct b
  | |- traces _ (match ?x with _ => _ end) => destruct x
  | |- traces _ (let _ := _ in _) => cbv zeta
  | |- traces _ _ => solve [eauto]
  end.

Lemma traces_GETjson env base path log qs :
  polite (GET (GETjson_url base path qs) JSON_H) = true ->
  traces P (GETjson env base path log qs).
Proof.
  intros Hp. unfold GETjson. fold (GETjson_url base path qs).
  pose proof (@traces_fetch env _ Hp). repeat traces_step.
Qed.

Lemma traces_hydrateMBRelease env id : traces P (hydrateMBRelease env id).
Proof. unfold hydrateMBRelease. repeat traces_step. Qed.

Lemma traces_mb_search env q : traces P (mb_search env q).
Proof. unfold mb_search. apply traces_GETjson. reflexivity. Qed.

Lemma traces_sparql env q tag : traces P (sparql env q tag).
Proof. unfold sparql. repeat traces_step. Qed.

Lemma traces_fetchWikidataEntity env qid :
  traces P (fetchWikidataEntity env qid).
Proof.
  unfold fetchWikidataEntity.
  apply traces_bind; [apply traces_GETjson; reflexivity|].
  intros. apply traces_ret.
Qed.

Lemma traces_commonsImageInfo env f : traces P (commonsImageInfo env f).
Proof. unfold commonsImageInfo. repeat traces_step. Qed.

Lemma traces_normalizeSeed seed : traces P (normalizeSeed seed).
Proof. unfold normalizeSeed. repeat traces_step. Qed.

Lemma traces_resolveDiscogsByUPC env seed :
  traces P (resolveDiscogsByUPC env seed).
Proof.
  unfold resolveDiscogsByUPC.
  destruct (negb (truthy (Seed.upc seed))); [apply traces_ret|].
  apply traces_bind; [apply traces_GETjson; reflexivity|].
  intros. repeat traces_step.
Qed.

Lemma traces_mb_barcode_loop env barcodes :
  traces P (mb_barcode_loop env barcodes).
Proof.
  pose proof traces_mb_search.
  induction barcodes as [|bc more IH]; simpl; repeat traces_step.
Qed.

Lemma traces_mb_relation rel : traces P (mb_relation rel).
Proof. unfold mb_relation. repeat traces_step. Qed.

Lemma traces_resolveMusicBrainz env seed :
  traces P (resolveMusicBrainz env seed).
Proof.
  pose proof traces_mb_barcode_loop. pose proof traces_mb_relation.
  pose proof traces_hydrateMBRelease. pose proof traces_mb_search.
  unfold resolveMusicBrainz.
  repeat first [ traces_step | apply traces_GETjson; reflexivity ].
Qed.

Lemma traces_resolveWikidataAndWikipedia env seed :
  traces P (resolveWikidataAndWikipedia env seed).
Proof.
  pose proof traces_sparql. pose proof traces_fetchWikidataEntity.
  unfold resolveWikidataAndWikipedia, sparqlFirstQIDForMBRG,
    sparqlFirstQIDByTitleArtist, sparqlFirstArtistQIDByMBArtist.
  repeat traces_step.
Qed.

Lemma traces_enrichFromWikipedia env seed :
  traces P (enrichFromWikipedia env seed).
Proof.
  unfold enrichFromWikipedia, extractTracklistFromHTML,
    extractPersonnelFromHTML, extractAwardsFromHTML,
    extractLandmarksFromHTML, extractCertificationsFromHTML.
  repeat first [ traces_step | apply traces_GETjson; reflexivity ].
Qed.

Lemma traces_buildImageGalleries env seed :
  traces P (buildImageGalleries env seed).
Proof.
  pose proof traces_fetchWikidataEntity. pose proof traces_commonsImageInfo.
  unfold buildImageGalleries. repeat traces_step.
Qed.

Lemma traces_run_stage env flags seed st :
  traces P (run_stage env flags seed st).
Proof.
  destruct st; simpl.
  - apply traces_when, traces_resolveDiscogsByUPC.
  - apply traces_resolveMusicBrainz.
  - apply traces_resolveWikidataAndWikipedia.
  - apply traces_enrichFromWikipedia.
  - apply traces_when, traces_buildImageGalleries.
  - unfold finalizeCanonical. repeat traces_step.
  - apply traces_modify.
Qed.

Lemma traces_run_stages env flags seed stages :
  traces P (run_stages env flags seed stages).
Proof. apply traces_forM_. intros st. apply traces_run_stage. Qed.

Lemma traces_enrich env flags seed : traces P (enrich env flags seed).
Proof.
  unfold enrich. apply traces_try_catch; [|intros; apply traces_modify].
  intros s H. rewrite pipeline_stages. revert s H.
  apply traces_bind; [apply traces_normalizeSeed|]. intros seed'.
  apply traces_bind; [apply traces_run_stages|]. intros _.
  unfold stamp_done. repeat traces_step.
Qed.

(** The events after [m;; f], from those after [m]. *)
Lemma traces_from A B (m : M A) (f : A -> M B) s :
  P (trace (snd (m s))) -> (forall a, traces P (f a)) ->
  P (trace (snd (bind m f s))).
Proof.
  intros H Hf. unfold bind.
  destruct (m s) as [[a | e] s']; simpl in *; [apply Hf|]; exact H.
Qed.

(** A seed with an explicit release MBID and no barcode: the detail
    request for the MBID, then the detail request for the release it
    gave. *)
Lemma explicit_mbid_run env seed s id r full :
  truthy (Seed.upc seed) = false ->
  Seed.mbid seed = Some id -> nonempty id = true ->
  net env (trace s) (mb_detail_request (Some id)) = Reply r ->
  ok r = true -> body r = BMBRelease full ->
  P (trace s ++ [EvFetch (mb_detail_request (Some id));
                 EvFetch (mb_detail_request (MB.rel_id full))]) ->
  P (trace (snd (resolveMusicBrainz env seed s))).
Proof.
  intros Hupc Hmbid Hne Hnet Hok Hbody H.
  pose proof traces_mb_relation. pose proof traces_hydrateMBRelease.
  pose proof traces_mb_search.
  pose proof (hydrate_replied env (Some id) s Hnet) as E.
  cbv zeta in E. rewrite Hok, Hbody in E. cbn [negb as_release] in E.
  unfold resolveMusicBrainz. rewrite Hupc, Hmbid.
  unfold nonempty in Hne. cbn [truthy is_set negb andb]. rewrite Hne.
  rewrite (@SeedUse.bind_run _ _ (ret None) _ _ None _ eq_refl).
  rewrite (@SeedUse.bind_run _ _ _ _ _ _ _ E).
  cbn [is_set negb andb].
  rewrite (@SeedUse.bind_run _ _ (ret (Some full)) _ _ (Some full) _ eq_refl).
  rewrite (@SeedUse.bind_run _ _ (gets Out.canonical) _ _ _ _ eq_refl).
  cbn [is_set negb andb].
  rewrite (@SeedUse.bind_run _ _ (ret (Some full)) _ _ (Some full) _ eq_refl).
  apply traces_from.
  - rewrite hydrateMBRelease_trace. cbn [trace].
    rewrite <- app_assoc. exact H.
  - intros a.
    repeat first [ traces_step | apply traces_GETjson; reflexivity ].
Qed.

End Traces.

(** X12.  Whatever the request holds and whatever the providers answer,
    the handler only talks to the six provider origins: every request it
    sends has a URL that starts with one of them, carries the [user-agent]
    of the script, and is a GET without a body or a POST to the SPARQL
    endpoint; every pause is one of two seconds.  Nothing the caller sends,
    and nothing a provider answers, redirects a request elsewhere. *)
Theorem requests_stay_with_providers env url :
  Forall event_ok (trace (handle env (parseFlags url) url)).
Proof.
  unfold handle.
  apply (@traces_enrich (Forall event_ok)).
  - intros tr rq Hp H. apply Forall_app. split; [exact H|].
    constructor; [exact Hp | constructor].
  - intros tr H. apply Forall_app. split; [exact H|].
    constructor; [reflexivity | constructor].
  - intros tr H. apply Forall_app. split; [exact H|].
    constructor; [exact I | constructor].
  - repeat constructor.
Qed.

(** ** Failures of the providers *)

Lemma discogs_rejection_run env flags seed bc e :
  normalizeBarcode (Seed.upc seed) = Some bc ->
  nonempty bc = true ->
  net env [EvNow; EvNow] (discogs_request bc) = NetFail e ->
  exists o,
    pipeline env flags seed (entry env flags)
    = (Throw e, mkSt o [EvNow; EvNow; EvFetch (discogs_request bc)])
    /\ Diagnostics.notes (Out.diagnostics o) = []
    /\ Out.ts_done o = None
    /\ Out.canonical o = Canonical.init
    /\ Out.ids o = Ids.init.
Proof.
  intros Hbc Hne Hnet. unfold pipeline. unfold nonempty in Hne.
  rewrite (@SeedUse.bind_run _ _ _ _ _ _ _ (SeedUse.normalizeSeed_run seed _)).
  assert (HS : exists o,
            snd (normalizeSeed (Seed.set_upc (Seed.upc seed) Seed.empty)
                   (entry env flags)) = mkSt o [EvNow; EvNow]
            /\ Diagnostics.notes (Out.diagnostics o) = []
            /\ Out.ts_done o = None
            /\ Out.canonical o = Canonical.init
            /\ Out.ids o = Ids.init).
  { unfold normalizeSeed. cbn [Seed.upc Seed.set_upc]. rewrite Hbc.
    cbn [truthy tmpl]. rewrite Hne. cbn [when andb].
    destruct (String.length bc =? 12);
      (eexists; split; [reflexivity | repeat split]). }
  destruct HS as (o & -> & Hn & Hd & Hc & Hi).
  exists o. split; [|repeat split; assumption].
  rewrite Hbc. cbn [Seed.upc Seed.set_upc truthy]. rewrite Hne. cbn [when].
  apply bind_throws. unfold resolveDiscogsByUPC.
  cbn [Seed.upc Seed.set_upc truthy]. rewrite Hne. cbn [negb tmpl].
  apply bind_throws.
  apply (@GETjson_rejected env _ _ _ _ (mkSt o [EvNow; EvNow]) e Hnet).
Qed.

(** X13.  A Discogs request that the network rejects ends the run.  For a
    seed with a usable barcode, when the request of the Discogs stage is
    rejected with [e], the handler sends no other request, and the document
    holds the single note [fatal:] with the message of [e], or with its
    name when it has no message, no [ts_done], no identifier and the
    canonical record of [initOut]: the later stages do not run. *)
Theorem discogs_rejection_is_fatal env flags seed bc e :
  normalizeBarcode (Seed.upc seed) = Some bc ->
  net env [EvNow; EvNow] (discogs_request bc) = NetFail e ->
  let s := snd (enrich env flags seed (entry env flags)) in
  trace s = [EvNow; EvNow; EvFetch (discogs_request bc)]
  /\ Diagnostics.notes (Out.diagnostics (out s))
     = [("fatal:" ++ fatal_text e)%string]
  /\ Out.ts_done (out s) = None
  /\ Out.canonical (out s) = Canonical.init
  /\ Out.ids (out s) = Ids.init.
Proof.
  intros Hbc Hnet. cbv zeta.
  pose proof (SeedFacts.normalizeBarcode_truthy _ Hbc) as Hne.
  destruct (discogs_rejection_run env flags seed Hbc Hne Hnet)
    as (o & E & Hn & Hd & Hc & Hi).
  unfold enrich, try_catch. rewrite E. cbn. rewrite Hn.
  repeat split; assumption.
Qed.

Lemma discogs_rejection_is_fatal_witness :
  Diagnostics.notes
    (Out.diagnostics
       (out (snd (enrich World.offline Examples.flags0
                    (Seed.set_upc (Some "888751119215") Seed.empty)
                    (entry World.offline Examples.flags0)))))
  = ["fatal:fetch failed"]
  /\ Diagnostics.notes
       (Out.diagnostics
          (out (snd (enrich World.silent Examples.flags0
                       (Seed.set_upc (Some "888751119215") Seed.empty)
                       (entry World.silent Examples.flags0)))))
     = ["fatal:TypeError"].
Proof.
  split.
  - apply (@discogs_rejection_is_fatal World.offline Examples.flags0
             (Seed.set_upc (Some "888751119215") Seed.empty)
             "888751119215" (mkExn "TypeError" "fetch failed"));
      reflexivity.
  - apply (@discogs_rejection_is_fatal World.silent Examples.flags0
             (Seed.set_upc (Some "888751119215") Seed.empty)
             "888751119215" (mkExn "TypeError" ""));
      reflexivity.
Defined.

(** X14.  [hydrateMBRelease] never throws and never retries: whatever the
    network does, the call returns, after exactly one request for the
    release.  When it returns no release it has left one more note, the
    rejection or the status, except for a successful answer whose document
    is a falsy JSON value, which yields no release and no note. *)
Theorem hydrateMBRelease_never_throws env id s :
  let r := hydrateMBRelease env id s in
  (exists full, fst r = Ok full)
  /\ trace (snd r) = trace s ++ [EvFetch (mb_detail_request id)]
  /\ (fst r = Ok None ->
      (exists msg,
          Diagnostics.notes (Out.diagnostics (out (snd r)))
          = Diagnostics.notes (Out.diagnostics (out s)) ++ [msg])
      \/ (exists rsp,
             net env (trace s) (mb_detail_request id) = Reply rsp
             /\ ok rsp = true /\ body rsp = BFalsy)).
Proof.
  cbv zeta.
  destruct (net env (trace s) (mb_detail_request id)) as [e | r] eqn:E.
  - rewrite (hydrate_rejected env id s E). cbn.
    split; [eauto | split; [reflexivity | intros _; left; eauto]].
  - rewrite (hydrate_replied env id s E).
    destruct (ok r) eqn:Eok; cbn [negb].
    + destruct (body r) eqn:Eb; cbn;
        (split; [eauto | split; [reflexivity|]]); intros Hn;
        try discriminate; try (left; destruct MbHttp; cbn; eauto; fail).
      right. exists r. auto.
    + cbn. split; [eauto | split; [reflexivity | intros _; left; eauto]].
Qed.

Lemma hydrateMBRelease_never_throws_witness :
  exists msg,
    Diagnostics.notes
      (Out.diagnostics
         (out (snd (hydrateMBRelease World.offline (Some "r1")
                      Examples.fresh))))
    = Diagnostics.notes (Out.diagnostics (out Examples.fresh)) ++ [msg].
Proof.
  destruct (hydrateMBRelease_never_throws World.offline (Some "r1")
              Examples.fresh) as (_ & _ & H).
  destruct (H eq_refl) as [Hnote | (rsp & Hrsp & _)];
    [exact Hnote | discriminate Hrsp].
Defined.

(** *** Runs that differ in one answer *)

Section SameRun.

(** Two environments that answer alike once more than [n0] events have
    happened. *)
Variables env env' : Env.
Variable n0 : nat.
Hypothesis alike :
  forall tr rq, n0 < List.length tr -> net env' tr rq = net env tr rq.

Lemma same_ret A (a : A) : same n0 (ret a) (ret a).
Proof. intros s H. split; [reflexivity | exact H]. Qed.

Lemma same_throw A e : same n0 (@throw A e) (throw e).
Proof. intros s H. split; [reflexivity | exact H]. Qed.

Lemma same_gets A (f : Out.t -> A) : same n0 (gets f) (gets f).
Proof. intros s H. split; [reflexivity | exact H]. Qed.

Lemma same_modify f : same n0 (modify f) (modify f).
Proof. intros s H. split; [reflexivity | exact H]. Qed.

Lemma same_bind A B (m m' : M A) (f f' : A -> M B) :
  same n0 m m' -> (forall a, same n0 (f a) (f' a)) ->
  same n0 (bind m f) (bind m' f').
Proof.
  intros Hm Hf s H. unfold bind. destruct (Hm s H) as [-> Hl].
  destruct (m s) as [[a | e] s1]; cbn [snd] in *.
  - apply Hf, Hl.
  - split; [reflexivity | exact Hl].
Qed.

Lemma same_try_catch A (m m' : M A) (h h' : Exn -> M A) :
  same n0 m m' -> (forall e, same n0 (h e) (h' e)) ->
  same n0 (try_catch m h) (try_catch m' h').
Proof.
  intros Hm Hh s H. unfold try_catch. destruct (Hm s H) as [-> Hl].
  destruct (m s) as [[a | e] s1]; cbn [snd] in *.
  - split; [reflexivity | exact Hl].
  - apply Hh, Hl.
Qed.

Lemma same_when b (m m' : M unit) :
  same n0 m m' -> same n0 (when b m) (when b m').
Proof. intros H. destruct b; [exact H | apply same_ret]. Qed.

Lemma same_whenS c (m m' : M unit) :
  same n0 m m' -> same n0 (whenS c m) (whenS c m').
Proof.
  intros Hm s H. unfold whenS. destruct (c (out s)); [apply Hm, H|].
  split; [reflexivity | exact H].
Qed.

Lemma same_forM_ A (l : list A) (f f' : A -> M unit) :
  (forall x, same n0 (f x) (f' x)) -> same n0 (forM_ l f) (forM_ l f').
Proof.
  intros Hf. induction l as [|x l IH]; simpl; [apply same_ret|].
  apply same_bind; [apply Hf | intros _; exact IH].
Qed.

Lemma same_json r : same n0 (json r) (json r).
Proof.
  intros s H. unfold json. destruct (body r); split; solve [reflexivity | exact H].
Qed.

Lemma same_sleep ms : same n0 (sleep ms) (sleep ms).
Proof.
  intros s H. split; [reflexivity|]. cbn. rewrite length_app. simpl. lia.
Qed.

Lemma same_fetch rq : same n0 (fetch env rq) (fetch env' rq).
Proof.
  intros s H. unfold fetch. rewrite (alike _ rq H).
  split; [reflexivity|].
  destruct (net env (trace s) rq); cbn; rewrite length_app; simpl; lia.
Qed.

End SameRun.

(** One step of a proof that two runs are the same; the environments are
    alike by an assumption of the goal. *)
Ltac same_step :=
  match goal with
  | |- same _ (bind _ _) (bind _ _) => apply same_bind; [|intros]
  | |- same _ (try_catch _ _) (try_catch _ _) => apply same_try_catch; [|intros]
  | |- same _ (when _ _) (when _ _) => apply same_when
  | |- same _ (whenS _ _) (whenS _ _) => apply same_whenS
  | |- same _ (forM_ _ _) (forM_ _ _) => apply same_forM_; intros
  | |- same _ (ret _) (ret _) => apply same_ret
  | |- same _ (throw _) (throw _) => apply same_throw
  | |- same _ (gets _) (gets _) => apply same_gets
  | |- same _ (modify _) (modify _) => apply same_modify
  | |- same _ (modify_canonical _) _ => apply same_modify
  | |- same _ (modify_ids _) _ => apply same_modify
  | |- same _ (push_note _) _ => apply same_modify
  | |- same _ (push_http _ _ _) _ => apply same_modify
  | |- same _ (set_matched_on _) _ => apply same_modify
  | |- same _ (json _) _ => apply same_json
  | |- same _ (sleep _) _ => apply same_sleep
  | |- same _ (fetch _ _) (fetch _ _) => apply same_fetch; assumption
  | |- same _ (if ?b then _ else _) _ => destruct b
  | |- same _ (match ?x with _ => _ end) _ => destruct x
  | |- same _ (let _ := _ in _) _ => cbv zeta
  end.

Section SameStage.

Variables env env' : Env.
Variable n0 : nat.
Hypothesis alike :
  forall tr rq, n0 < List.length tr -> net env' tr rq = net env tr rq.

Lemma same_GETjson base path log qs :
  same n0 (GETjson env base path log qs) (GETjson env' base path log qs).
Proof. unfold GETjson. repeat same_step. Qed.

Lemma same_hydrateMBRelease id :
  same n0 (hydrateMBRelease env id) (hydrateMBRelease env' id).
Proof. unfold hydrateMBRelease. repeat same_step. Qed.

Lemma same_mb_relation rel : same n0 (mb_relation rel) (mb_relation rel).
Proof. unfold mb_relation. repeat same_step. Qed.

End SameStage.

(** X15.  An explicit release MBID costs two detail requests.  For a seed
    without barcode whose [mbid] is answered with a release, the MusicBrainz
    stage first requests the release of the MBID and then requests the
    release again, by the identifier found in the answer.  The first answer
    is used for its identifier only: had the first request been answered,
    with the same status, by any other release with the same identifier,
    and everything afterwards alike, the stage would have returned the same
    result, written the same document and sent the same requests. *)
Theorem explicit_mbid_fetched_twice env seed s id r full :
  truthy (Seed.upc seed) = false ->
  Seed.mbid seed = Some id -> nonempty id = true ->
  net env (trace s) (mb_detail_request (Some id)) = Reply r ->
  ok r = true -> body r = BMBRelease full ->
  (exists rest,
      trace (snd (resolveMusicBrainz env seed s))
      = trace s ++ [EvFetch (mb_detail_request (Some id));
                    EvFetch (mb_detail_request (MB.rel_id full))] ++ rest)
  /\ (forall env' r' full',
        (forall tr rq, tr <> trace s -> net env' tr rq = net env tr rq) ->
        net env' (trace s) (mb_detail_request (Some id)) = Reply r' ->
        status r' = status r -> body r' = BMBRelease full' ->
        MB.rel_id full' = MB.rel_id full ->
        resolveMusicBrainz env' seed s = resolveMusicBrainz env seed s).
Proof.
  intros Hupc Hmbid Hne Hnet Hok Hbody. split.
  - apply (@explicit_mbid_run
             (fun tr => exists rest,
                  tr = trace s ++ [EvFetch (mb_detail_request (Some id));
                                   EvFetch (mb_detail_request (MB.rel_id full))]
                         ++ rest))
      with (r := r) (id := id) (full := full); try assumption.
    + intros tr rq _ [rest ->]. exists (rest ++ [EvFetch rq]).
      rewrite <- !app_assoc. reflexivity.
    + intros tr [rest ->]. exists (rest ++ [EvSleep 2000]).
      rewrite <- !app_assoc. reflexivity.
    + exists []. rewrite app_nil_r. reflexivity.
  - intros env' r' full' Halike Hnet' Hst Hbody' Hid.
    assert (Hok' : ok r' = true) by (unfold ok in *; rewrite Hst; exact Hok).
    assert (alike : forall tr rq,
               List.length (trace s) < List.length tr ->
               net env' tr rq = net env tr rq).
    { intros tr rq Hl. apply Halike. intros ->. lia. }
    pose proof (hydrate_replied env (Some id) s Hnet) as E.
    pose proof (hydrate_replied env' (Some id) s Hnet') as E'.
    cbv zeta in E, E'. rewrite Hok, Hbody in E. rewrite Hok', Hbody', Hst in E'.
    cbn [negb as_release] in E, E'.
    unfold nonempty in Hne.
    unfold resolveMusicBrainz at 1. rewrite Hupc, Hmbid.
    cbn [truthy is_set negb andb]. rewrite Hne.
    rewrite (@SeedUse.bind_run _ _ (ret None) _ _ None _ eq_refl).
    rewrite (@SeedUse.bind_run _ _ _ _ _ _ _ E').
    cbn [is_set negb andb].
    rewrite (@SeedUse.bind_run _ _ (ret (Some full')) _ _ (Some full') _ eq_refl).
    rewrite (@SeedUse.bind_run _ _ (gets Out.canonical) _ _ _ _ eq_refl).
    cbn [is_set negb andb].
    rewrite (@SeedUse.bind_run _ _ (ret (Some full')) _ _ (Some full') _ eq_refl).
    rewrite Hid.
    unfold resolveMusicBrainz. rewrite Hupc, Hmbid.
    cbn [truthy is_set negb andb]. rewrite Hne.
    rewrite (@SeedUse.bind_run _ _ (ret None) _ _ None _ eq_refl).
    rewrite (@SeedUse.bind_run _ _ _ _ _ _ _ E).
    cbn [is_set negb andb].
    rewrite (@SeedUse.bind_run _ _ (ret (Some full)) _ _ (Some full) _ eq_refl).
    rewrite (@SeedUse.bind_run _ _ (gets Out.canonical) _ _ _ _ eq_refl).
    cbn [is_set negb andb].
    rewrite (@SeedUse.bind_run _ _ (ret (Some full)) _ _ (Some full) _ eq_refl).
    match goal with
    | |- ?m' ?st = ?m ?st =>
        assert (Hs : same (List.length (trace s)) m m');
          [|apply (Hs st); cbn [trace]; rewrite length_app; simpl; lia]
    end.
    repeat first [ same_step
                 | apply same_mb_relation
                 | apply same_hydrateMBRelease; assumption
                 | apply same_GETjson; assumption ].
Qed.

Lemma explicit_mbid_fetched_twice_witness :
  (exists rest,
      trace (snd (resolveMusicBrainz World.env
                    (Seed.set_mbid (Some "r1") Seed.empty) Examples.fresh))
      = trace Examples.fresh
          ++ [EvFetch (mb_detail_request (Some "r1"));
              EvFetch (mb_detail_request (Some "r1"))] ++ rest)
  /\ resolveMusicBrainz World.other_first
       (Seed.set_mbid (Some "r1") Seed.empty) Examples.fresh
     = resolveMusicBrainz World.env
         (Seed.set_mbid (Some "r1") Seed.empty) Examples.fresh.
Proof.
  destruct (@explicit_mbid_fetched_twice World.env
              (Seed.set_mbid (Some "r1") Seed.empty) Examples.fresh "r1"
              (mkResponse 200 "" (BMBRelease World.release)) World.release
              eq_refl eq_refl eq_refl eq_refl eq_refl eq_refl)
    as [Htwice Honly].
  split; [exact Htwice|].
  apply (Honly World.other_first
           (mkResponse 200 "" (BMBRelease World.reissue)) World.reissue);
    try reflexivity.
  intros tr rq Hne. destruct tr as [|ev tr]; [|reflexivity].
  exfalso. apply Hne. reflexivity.
Defined.

Lemma or_else_none a : truthy (or_else a None) = truthy a.
Proof. unfold or_else. destruct (truthy a) eqn:E; [exact E | reflexivity]. Qed.

(** The MusicBrainz stage for a seed with an explicit MBID and nothing
    else, when the detail request is rejected. *)
Lemma mb_rejected_run env seed s id e :
  truthy (Seed.upc seed) = false ->
  Seed.mbid seed = Some id -> nonempty id = true ->
  truthy (Seed.mb_release_mbid seed) = false ->
  truthy (Seed.artist seed) && truthy (Seed.title seed) = false ->
  Out.canonical (out s) = Canonical.init ->
  net env (trace s) (mb_detail_request (Some id)) = NetFail e ->
  resolveMusicBrainz env seed s
  = (Ok tt,
     mkSt (Out.upd_diagnostics
             (add_note ("musicbrainz release fetch error: " ++ Exn_toString e))
             (out s))
          (trace s ++ [EvFetch (mb_detail_request (Some id))])).
Proof.
  intros Hupc Hmbid Hne Hrel Htext Hcanon Hnet.
  pose proof (hydrate_rejected env (Some id) s Hnet) as E.
  unfold resolveMusicBrainz. rewrite Hupc, Hmbid, Hrel.
  unfold nonempty in Hne. cbn [truthy is_set negb andb]. rewrite Hne.
  rewrite (@SeedUse.bind_run _ _ (ret None) _ _ None _ eq_refl).
  rewrite (@SeedUse.bind_run _ _ _ _ _ _ _ E).
  cbn [is_set negb andb].
  rewrite (@SeedUse.bind_run _ _ (ret None) _ _ None _ eq_refl).
  rewrite (@SeedUse.bind_run _ _ (gets Out.canonical) _ _ _ _ eq_refl).
  cbn [out Out.canonical Out.upd_diagnostics]. rewrite Hcanon.
  cbn [Canonical.artist Canonical.title Canonical.init is_set negb andb].
  rewrite !or_else_none, Htext.
  reflexivity.
Qed.

(** X16.  A MusicBrainz detail request that the network rejects does not
    end the run.  For a seed that holds an explicit release MBID and no
    other key, when the request is rejected with [e] the handler sends no
    other request and finishes: the document holds the single note of the
    rejection, which ends with [String(e)], [ts_done], the default format,
    and no identifier. *)
Theorem musicbrainz_rejection_is_noted env flags seed id e :
  normalizeBarcode (Seed.upc seed) = None ->
  Seed.mbid seed = Some id -> nonempty id = true ->
  truthy (Seed.mb_release_mbid seed) = false ->
  truthy (Seed.artist seed) && truthy (Seed.title seed) = false ->
  net env [EvNow; EvNow] (mb_detail_request (Some id)) = NetFail e ->
  let s := snd (enrich env flags seed (entry env flags)) in
  trace s = [EvNow; EvNow; EvFetch (mb_detail_request (Some id)); EvNow]
  /\ Diagnostics.notes (Out.diagnostics (out s))
     = [("musicbrainz release fetch error: " ++ Exn_toString e)%string]
  /\ is_set (Out.ts_done (out s)) = true
  /\ Out.ids (out s) = Ids.init
  /\ Canonical.format (Out.canonical (out s)) = ["Album"].
Proof.
  intros Hupc Hmbid Hne Hrel Htext Hnet. cbv zeta.
  unfold enrich, try_catch, pipeline.
  rewrite (@SeedUse.bind_run _ _ _ _ _ _ _ (SeedUse.normalizeSeed_run seed _)).
  rewrite Hupc.
  replace (snd (normalizeSeed (Seed.set_upc (Seed.upc seed) Seed.empty)
                  (entry env flags)))
    with (entry env flags)
    by (unfold normalizeSeed; cbn [Seed.upc Seed.set_upc]; rewrite Hupc;
        reflexivity).
  cbn [Seed.upc Seed.set_upc truthy when].
  rewrite (@SeedUse.bind_run _ _ (ret tt) _ _ tt _ eq_refl).
  rewrite (@SeedUse.bind_run _ _ _ _ _ _ _
             (@mb_rejected_run env (Seed.set_upc None seed) (entry env flags)
                id e eq_refl Hmbid Hne Hrel Htext eq_refl Hnet)).
  destruct (String.eqb (images flags) "none") eqn:Ei;
    cbn; repeat split; reflexivity.
Qed.

Lemma musicbrainz_rejection_is_noted_witness :
  Diagnostics.notes
    (Out.diagnostics
       (out (snd (enrich World.offline Examples.flags0
                    (Seed.set_mbid (Some "r1") Seed.empty)
                    (entry World.offline Examples.flags0)))))
  = ["musicbrainz release fetch error: TypeError: fetch failed"]
  /\ Diagnostics.notes
       (Out.diagnostics
          (out (snd (enrich World.silent Examples.flags0
                       (Seed.set_mbid (Some "r1") Seed.empty)
                       (entry World.silent Examples.flags0)))))
     = ["musicbrainz release fetch error: TypeError"].
Proof.
  split.
  - apply (@musicbrainz_rejection_is_noted World.offline Examples.flags0
             (Seed.set_mbid (Some "r1") Seed.empty) "r1"
             (mkExn "TypeError" "fetch failed"));
      reflexivity.
  - apply (@musicbrainz_rejection_is_noted World.silent Examples.flags0
             (Seed.set_mbid (Some "r1") Seed.empty) "r1"
             (mkExn "TypeError" ""));
      reflexivity.
Defined.

(** ** The artist gallery and the flags *)

Lemma clampInt_bounds v (min max dflt : Z) :
  (min <= max)%Z -> (min <= dflt <= max)%Z ->
  (min <= clampInt v min max dflt <= max)%Z.
Proof.
  intros Hmm Hd. unfold clampInt.
  destruct (parseInt10 v) as [n|]; [destruct (isFinite n)|]; lia.
Qed.

Lemma max_images_bounds url :
  1 <= max_images (parseFlags url) <= 50.
Proof.
  unfold parseFlags. cbn [max_images].
  pose proof (@clampInt_bounds (searchParams_get url "max_images") 1 50 12).
  lia.
Qed.

Section Gallery.

Variable fl : Flags.

(** At most [n] artist images, under the flags [fl]. *)
Let K (n : nat) : Out.t -> Prop :=
  fun o => List.length (Wiki.artist_gallery (Out.wiki o)) <= n
           /\ Out.flags o = fl.

Lemma gallery_frame n : Frame (K n).
Proof. constructor; intros; assumption. Qed.

Lemma gallery_discogs_frame n : DiscogsFrame (K n).
Proof. constructor; intros; assumption. Qed.

Lemma gallery_more n o : K n o -> K (S n) o.
Proof. intros [H1 H2]. split; [lia | exact H2]. Qed.

(** A loop whose body adds at most one image adds at most as many as it
    has rounds. *)
Lemma forM_counts A (l : list A) (f : A -> M unit) :
  (forall x n, moves (K n) (K (S n)) (f x)) ->
  forall n, moves (K n) (K (n + List.length l)) (forM_ l f).
Proof.
  intros Hf. induction l as [|x r IH]; intros n; simpl.
  - rewrite Nat.add_0_r. apply moves_ret.
  - apply moves_bind with (Q := K (S n)).
    + apply Hf.
    + intros _. replace (n + S (List.length r)) with (S n + List.length r)
        by lia. apply IH.
    + intros o [H1 H2]. split; [lia | exact H2].
Qed.

Lemma image_round env f n :
  moves (K n) (K (S n))
    (fi <- commonsImageInfo env f ;;
     match fi with
     | Some fi =>
         when (truthy (fi_url fi))
           (push_artist_gallery
              (GalleryItem.mk "wikidata:P18" "image" ("File:" ++ f)
                 (fi_url fi) (fi_width fi) (fi_height fi) (fi_mime fi)
                 (Some (buildImageCredit fi))))
     | None => ret tt
     end).
Proof.
  apply moves_bind with (Q := K n).
  - apply keeps_moves, framed_commonsImageInfo, gallery_frame.
  - intros [fi|]; [|intros s H; apply gallery_more, H].
    apply moves_when; [apply gallery_more|]. intros _ s [H1 H2].
    split; [|exact H2]. cbn. rewrite length_app. cbn. lia.
  - apply gallery_more.
Qed.

Lemma buildImageGalleries_counts env seed :
  moves (K 0) (K (max_images fl)) (buildImageGalleries env seed).
Proof.
  assert (Hup : forall o, K 0 o -> K (max_images fl) o).
  { intros o [H1 H2]. split; [lia | exact H2]. }
  unfold buildImageGalleries.
  apply moves_gets_bind. intros aq.
  apply moves_when; [intros o [H _]; apply Hup, H|]. intros _.
  apply moves_bind with (Q := K 0).
  - apply moves_weaken with (P := K 0) (Q := K 0);
      [intros o [H _]; exact H | auto|].
    apply keeps_moves, framed_fetchWikidataEntity, gallery_frame.
  - intros ent. cbv zeta. apply moves_gets_bind. intros mx.
    intros s [H Hmx].
    match goal with
    | |- K _ (out (snd (forM_ (firstn mx ?files) ?f s))) =>
        pose proof (@forM_counts _ (firstn mx files) f
                      (fun x n => @image_round env x n) 0 s H) as Hc
    end.
    destruct Hc as [Hc1 Hc2]. split; [|exact Hc2].
    destruct H as [_ Hfl]. rewrite Hfl in Hmx. subst mx.
    pose proof (firstn_le_length (max_images fl)
                  (List.flat_map
                     (fun sn => match sn with
                                | Some v => if DataValue_truthy sn
                                            then [DataValue_toString v]
                                            else []
                                | None => []
                                end)
                     match ent with
                     | Some e => match assoc "P18" (WD.claims e) with
                                 | Some c => c
                                 | None => []
                                 end
                     | None => []
                     end)).
    cbn [Nat.add] in Hc1. lia.
  - exact Hup.
Qed.

Lemma pipeline_counts env flags seed :
  moves (K 0) (K (max_images fl)) (pipeline env flags seed).
Proof.
  assert (Hup : forall o, K 0 o -> K (max_images fl) o).
  { intros o [H1 H2]. split; [lia | exact H2]. }
  pose proof (gallery_frame 0) as F0.
  pose proof (gallery_discogs_frame 0) as D0.
  pose proof (gallery_frame (max_images fl)) as F1.
  unfold pipeline.
  apply moves_bind with (Q := K 0);
    [ apply keeps_moves, framed_normalizeSeed; intros; assumption
    | intros seed' | exact Hup ].
  apply moves_bind with (Q := K 0);
    [apply keeps_moves, keeps_when, framed_resolveDiscogsByUPC; assumption
    | intros _ | exact Hup].
  apply moves_bind with (Q := K 0);
    [apply keeps_moves, framed_resolveMusicBrainz, F0 | intros _ | exact Hup].
  apply moves_bind with (Q := K 0);
    [apply keeps_moves, framed_resolveWikidataAndWikipedia, F0
    | intros _ | exact Hup].
  apply moves_bind with (Q := K 0);
    [apply keeps_moves, framed_enrichFromWikipedia, F0 | intros _ | exact Hup].
  apply moves_bind with (Q := K (max_images fl));
    [apply moves_when; [exact Hup | intros _; apply buildImageGalleries_counts]
    | intros _ | auto].
  apply keeps_moves.
  apply keeps_bind; [apply framed_finalizeCanonical, F1 | intros _].
  apply keeps_bind; [apply framed_aggregateDownloadList, F1 | intros _].
  apply framed_stamp_done. intros v o H. exact H.
Qed.

End Gallery.

(** X17.  The flag [max_images] of a request is between 1 and 50, and the
    document sent back never holds more artist images than the flag
    allows, whatever Wikidata and Commons answer. *)
Theorem artist_gallery_bounded env url :
  let doc := js_body (fetch_handler env url) in
  List.length (Wiki.artist_gallery (Out.wiki doc)) <= max_images (parseFlags url)
  /\ 1 <= max_images (parseFlags url) <= 50.
Proof.
  cbv zeta. split; [|apply max_images_bounds].
  unfold fetch_handler, json_response, handle, enrich, try_catch.
  cbn [js_body].
  pose proof (@pipeline_counts (parseFlags url) env (parseFlags url)
                (parseSeed url (searchParams_get url "cmd"))
                (entry env (parseFlags url))) as H.
  destruct (pipeline env (parseFlags url)
              (parseSeed url (searchParams_get url "cmd"))
              (entry env (parseFlags url))) as [[[] | e] s'];
    cbn [snd] in *; apply H; split; try reflexivity; cbn; lia.
Qed.


(** ** The sections of the article and the galleries *)

Section Sections.

Let J : Out.t -> Prop := fun o => sections_ok (Out.wikipedia o).

Lemma dedupe_hits hits :
  List.length hits <= 5 ->
  NoDup (dedupe hits) /\ ~ In "" (dedupe hits)
  /\ List.length (dedupe hits) <= 5.
Proof.
  intros H. destruct (DedupeMore.dedupe_genre_set hits) as [H1 H2].
  pose proof (DedupeMore.dedupe_length hits). repeat split; auto; lia.
Qed.

Ltac sections_split :=
  split; [|split; [|split; [|split]]]; cbn; try assumption.

Lemma sections_frame : Frame J.
Proof.
  constructor; try (intros; assumption).
  - intros rows o Hr (H1 & H2 & H3 & H4 & H5). sections_split.
    intros r E. congruence.
  - intros l o Hl (H1 & H2 & H3 & H4 & H5). sections_split.
    intros r E. injection E as <-. exact Hl.
  - intros l o Hl (H1 & H2 & H3 & H4 & H5). sections_split.
    intros r E. injection E as <-. exact Hl.
  - intros l o Hl (H1 & H2 & H3 & H4 & H5). sections_split.
    intros r E. injection E as <-. exact Hl.
  - intros hits o Hn Hlen (H1 & H2 & H3 & H4 & H5). sections_split.
    intros r E. injection E as <-. apply dedupe_hits, Hlen.
Qed.

Lemma sections_discogs_frame : DiscogsFrame J.
Proof. constructor; intros; assumption. Qed.

End Sections.

(** X18.  The sections of the article in a document sent back are well
    formed, whatever page Wikipedia serves: a track list, a personnel list,
    an awards list or a certifications list that is present is not empty,
    none of the lines of the latter three is empty, and the landmarks are
    at most five phrases, without duplicate and without empty entry. *)
Theorem wikipedia_sections_well_formed env url :
  sections_ok (Out.wikipedia (js_body (fetch_handler env url))).
Proof.
  unfold fetch_handler, json_response. cbn [js_body].
  apply (@framed_handle (fun o => sections_ok (Out.wikipedia o))
           sections_frame).
  - intros; assumption.
  - apply sections_discogs_frame.
  - intros; assumption.
  - intros; assumption.
  - repeat split; cbn; intros; discriminate.
Qed.

Section Galleries.

Lemma urls_from_galleries w u :
  In u (dedupe (collected_urls w)) ->
  u <> ""
  /\ exists it,
       In it (Wiki.article_gallery w ++ Wiki.album_gallery w
                ++ Wiki.artist_gallery w)
       /\ GalleryItem.url it = Some u.
Proof.
  intros H. apply DedupeFacts.dedupe_In in H. destruct H as [H Hne].
  split; [exact Hne|].
  rewrite DedupeFacts.collected_urls_app in H.
  repeat (apply in_app_or in H; destruct H as [H | H]);
    apply DedupeFacts.gallery_urls_In in H;
    destruct H as (_ & it & Hit & Hu); exists it; split; auto;
    repeat (apply in_or_app; auto; right); auto.
Qed.

Lemma galleries_frame : Frame galleries_ok.
Proof.
  constructor; try (intros; assumption).
  - intros it o Hit (H1 & H2 & H3 & H4).
    repeat split; try assumption.
    + cbn. apply Forall_app. split; [exact H1 | constructor; auto].
    + apply H4, H.
    + destruct (H4 u H) as (_ & x & Hx & Hu). exists x. split; [|exact Hu].
      cbn. rewrite <- app_assoc. apply in_app_or in Hx.
      apply in_or_app. destruct Hx as [Hx | Hx]; [left | right]; auto.
      right. exact Hx.
  - intros o (H1 & H2 & H3 & H4).
    repeat split; try assumption.
    + apply DedupeFacts.dedupe_NoDup.
    + apply (urls_from_galleries (Out.wiki o) u H).
    + apply (urls_from_galleries (Out.wiki o) u H).
Qed.

Lemma galleries_discogs_frame : DiscogsFrame galleries_ok.
Proof. constructor; intros; assumption. Qed.

Lemma galleries_artist it o :
  artist_item it -> galleries_ok o ->
  galleries_ok (Out.upd_wiki (add_artist it) o).
Proof.
  intros Hit (H1 & H2 & H3 & H4). repeat split; try assumption.
  - cbn. apply Forall_app. split; [exact H2 | constructor; auto].
  - apply H4, H.
  - destruct (H4 u H) as (_ & x & Hx & Hu). exists x. split; [|exact Hu].
    cbn. rewrite !app_assoc. apply in_or_app. left.
    rewrite <- app_assoc. exact Hx.
Qed.

End Galleries.

(** X19.  The galleries and the download list of a document sent back are
    well formed, whatever the providers answer.  Every item of the article
    gallery is a titled entry of the media list whose URL is not empty and
    not protocol-relative; every item of the artist gallery is a Commons
    file with a non-empty URL; and the download list holds no duplicate and
    only non-empty URLs, each the URL of an item of a gallery. *)
Theorem galleries_well_formed env url :
  galleries_ok (js_body (fetch_handler env url)).
Proof.
  unfold fetch_handler, json_response. cbn [js_body].
  apply (@framed_handle galleries_ok galleries_frame).
  - apply galleries_artist.
  - apply galleries_discogs_frame.
  - intros; assumption.
  - intros; assumption.
  - split; [apply Forall_nil | split; [apply Forall_nil | split]];
      [apply NoDup_nil | intros u []].
Qed.

(** ** Markup *)

Module StripFacts.

(** A greedy repetition of a class under a continuation that fails in
    front of a unit of the class: the repetition takes the whole run, no
    shorter one can be continued. *)
Lemma star_then_outside (R : Type) p body
      (k : cursor -> caps -> option R) :
  (forall c cs k', body c cs k' = rmatch (Chr p) c cs k') ->
  (forall pv a s cs, p a = true -> k (pv, String a s) cs = None) ->
  forall fuel c cs,
    String.length (rest c) <= fuel ->
    star_loop body true fuel c cs k = k (skip_while p (fst c) (rest c)) cs.
Proof.
  intros Hbody Hk fuel; induction fuel as [|fuel IH];
    intros [prev s] cs Hlen; cbn [rest fst snd] in *.
  - destruct s; simpl in *; [reflexivity | lia].
  - cbn [star_loop]. rewrite Hbody.
    destruct s as [|a s]; [reflexivity|].
    cbn [rmatch rest snd skip_while].
    destruct (p a) eqn:Ep; [|reflexivity].
    cbn [rest snd String.length].
    assert (Hlt : (String.length s <? S (String.length s)) = true)
      by (apply Nat.ltb_lt; lia).
    rewrite Hlt.
    rewrite (IH (Some a, s) cs) by (simpl in *; lia).
    cbn [fst snd rest].
    destruct (k (skip_while p (Some a) s) cs) eqn:E; [reflexivity|].
    rewrite (Hk prev a s cs Ep). reflexivity.
Qed.

Lemma skip_not_gt prev s :
  match rest (skip_while not_gt prev s) with
  | String b _ => b = ">"%char
  | EmptyString => True
  end.
Proof.
  revert prev. induction s as [|a s IH]; intros prev; simpl; [exact I|].
  destruct (not_gt a) eqn:E; [apply IH|]. simpl.
  unfold not_gt in E. apply negb_false_iff, Ascii.eqb_eq in E. auto.
Qed.

Lemma match_here_tag prev s :
  match_here re_tag (prev, s)
  = match tag_end s with
    | Some t => Some ((Some ">"%char, t), [])
    | None => None
    end.
Proof.
  unfold match_here, re_tag, plus, tag_end, notc, chr.
  fold not_gt.
  destruct s as [|c s]; [reflexivity|].
  cbn [rmatch rest snd].
  destruct (Ascii.eqb "<" c) eqn:Ec.
  - apply Ascii.eqb_eq in Ec. subst c.
    destruct s as [|a r]; [reflexivity|].
    cbn [rest snd].
    destruct (not_gt a) eqn:Ea; [|reflexivity].
    rewrite (@star_then_outside _ not_gt);
      [ | reflexivity
        | intros pv b t cs Hb; cbn [rest snd];
          unfold not_gt in Hb; apply negb_true_iff in Hb; rewrite Hb;
          reflexivity
        | cbn; lia ].
    cbn [fst rest snd].
    pose proof (skip_not_gt (Some a) r) as Hs.
    rewrite <- (RegexFacts.skip_while_rest not_gt (Some a) r).
    destruct (skip_while not_gt (Some a) r) as [pv [|b t]];
      cbn [rest snd] in *; [reflexivity|].
    subst b. reflexivity.
  - destruct c as [[] [] [] [] [] [] [] []]; try reflexivity.
    discriminate.
Qed.

Lemma drop_while_shorter p s :
  String.length (Str.drop_while p s) <= String.length s.
Proof.
  induction s as [|a s IH]; simpl; [lia|].
  destruct (p a); simpl; lia.
Qed.

Lemma tag_end_shorter s t :
  tag_end s = Some t -> String.length t < String.length s.
Proof.
  unfold tag_end. destruct s as [|c [|a r]]; try discriminate.
  - destruct c as [[] [] [] [] [] [] [] []]; discriminate.
  - destruct c as [[] [] [] [] [] [] [] []]; try discriminate.
    destruct (not_gt a); [|discriminate].
    pose proof (drop_while_shorter not_gt r) as H.
    destruct (Str.drop_while not_gt r) as [|b u]; [discriminate|].
    intros E. injection E as <-. simpl in *. lia.
Qed.

(** One round of the replacement of tags. *)
Lemma strip_step fuel prev s :
  replace_all_from re_tag erase (S fuel) (prev, s)
  = match tag_end s with
    | Some t => replace_all_from re_tag erase fuel (Some ">"%char, t)
    | None =>
        match s with
        | String c r =>
            String c (replace_all_from re_tag erase fuel (Some c, r))
        | EmptyString => ""
        end
    end.
Proof.
  cbn [replace_all_from]. rewrite match_here_tag.
  destruct (tag_end s) as [t|] eqn:E; [|reflexivity].
  apply tag_end_shorter in E. cbn [rest snd erase append].
  apply Nat.ltb_lt in E. rewrite E. reflexivity.
Qed.

(** The replacement depends neither on the fuel left, when there is
    enough, nor on the unit before the cursor. *)
Lemma strip_fuel n : forall s f1 f2 p1 p2,
  String.length s <= n ->
  String.length s < f1 -> String.length s < f2 ->
  replace_all_from re_tag erase f1 (p1, s)
  = replace_all_from re_tag erase f2 (p2, s).
Proof.
  induction n as [|n IH]; intros s f1 f2 p1 p2 Hn H1 H2;
    (destruct f1 as [|f1]; [lia|]); (destruct f2 as [|f2]; [lia|]);
    rewrite !strip_step.
  - destruct s; [|simpl in Hn; lia].
    reflexivity.
  - destruct (tag_end s) as [t|] eqn:E.
    + apply tag_end_shorter in E. apply IH; lia.
    + destruct s as [|c r]; [reflexivity|]. simpl in *.
      f_equal. apply IH; lia.
Qed.

Lemma stripHtml_from fuel prev s :
  String.length s < fuel ->
  replace_all_from re_tag erase fuel (prev, s) = stripHtml s.
Proof.
  intros H. unfold stripHtml, replace_all, start.
  apply (@strip_fuel (String.length s)); lia.
Qed.

Lemma tag_end_plain c r : not_lt c = true -> tag_end (String c r) = None.
Proof.
  unfold not_lt, tag_end. intros H. apply negb_true_iff in H.
  destruct c as [[] [] [] [] [] [] [] []]; try reflexivity. discriminate.
Qed.

Lemma stripHtml_cons c r :
  not_lt c = true -> stripHtml (String c r) = String c (stripHtml r).
Proof.
  intros H. unfold stripHtml at 1, replace_all, start.
  rewrite strip_step, tag_end_plain by exact H.
  rewrite stripHtml_from by (simpl; lia). reflexivity.
Qed.

Lemma drop_to_gt t post :
  Str.forallb not_gt t = true ->
  Str.drop_while not_gt (t ++ String ">" post) = String ">" post.
Proof.
  induction t as [|a t IH]; simpl; [reflexivity|].
  intros H. apply andb_true_iff in H. destruct H as [Ha Ht].
  rewrite Ha. apply IH, Ht.
Qed.

Lemma length_app_string (a b : string) :
  String.length (a ++ b) = String.length a + String.length b.
Proof. induction a as [|c a IH]; simpl; [reflexivity | rewrite IH; lia]. Qed.

Lemma stripHtml_tag t post :
  t <> "" -> Str.forallb not_gt t = true ->
  stripHtml (String "<" (t ++ String ">" post)) = stripHtml post.
Proof.
  intros Hne Ht. destruct t as [|a t]; [congruence|].
  simpl in Ht. apply andb_true_iff in Ht. destruct Ht as [Ha Ht].
  unfold stripHtml at 1, replace_all, start.
  rewrite strip_step. unfold tag_end. cbn [append]. rewrite Ha.
  rewrite drop_to_gt by exact Ht.
  apply stripHtml_from. simpl. rewrite length_app_string. simpl. lia.
Qed.

End StripFacts.

(** X20.  [stripHtml] removes tags and nothing else.  A text without [<]
    comes back unchanged; and in a text whose first [<] opens a tag, one or
    more units other than [>] and then [>], the tag is dropped, the text
    before it is kept, and the rest is stripped in the same way. *)
Theorem stripHtml_removes_tags :
  (forall s, Str.forallb not_lt s = true -> stripHtml s = s)
  /\ (forall pre t post,
         Str.forallb not_lt pre = true ->
         t <> "" -> Str.forallb not_gt t = true ->
         stripHtml (pre ++ String "<" (t ++ String ">" post))
         = (pre ++ stripHtml post)%string).
Proof.
  split.
  - induction s as [|c r IH]; intros H; [reflexivity|].
    simpl in H. apply andb_true_iff in H. destruct H as [Hc Hr].
    rewrite StripFacts.stripHtml_cons by exact Hc. rewrite IH by exact Hr.
    reflexivity.
  - induction pre as [|c r IH]; intros t post H Hne Ht.
    + apply StripFacts.stripHtml_tag; assumption.
    + simpl in H. apply andb_true_iff in H. destruct H as [Hc Hr].
      cbn [append]. rewrite StripFacts.stripHtml_cons by exact Hc.
      rewrite IH by assumption. reflexivity.
Qed.


Lemma stripHtml_removes_tags_witness :
  stripHtml "<i>So What</i>" = "So What".
Proof.
  destruct stripHtml_removes_tags as [Hplain Htag].
  transitivity (stripHtml "So What</i>").
  - apply (Htag "" "i" "So What</i>");
      [reflexivity | discriminate | reflexivity].
  - apply (Htag "So What" "/i" "");
      [reflexivity | discriminate | reflexivity].
Defined.

(** ** The seed *)

Module SeedMore.

Lemma parseToken_query_only seed p :
  query_only (parseToken seed p) = query_only seed.
Proof.
  unfold parseToken. destruct (match_here re_token (start p)) as [[c m]|];
    [|reflexivity].
  cbv zeta.
  repeat match goal with
         | |- context [if ?b then _ else _] => destruct b
         end; reflexivity.
Qed.

Lemma tokens_query_only parts : forall seed,
  query_only (fold_left parseToken parts seed) = query_only seed.
Proof.
  induction parts as [|p r IH]; intros seed; simpl; [reflexivity|].
  rewrite IH. apply parseToken_query_only.
Qed.

End SeedMore.

(** X21.  Four keys of the seed come from the query string only:
    whatever the command holds, [mb_release_mbid], [mb_release_group],
    [mb_artist_id] and [discogs_master_id] of the parsed seed are the query
    parameters of these names.  No token of the command sets them. *)
Theorem parseSeed_query_only_keys url cmd :
  let seed := parseSeed url cmd in
  Seed.mb_release_mbid seed = searchParams_get url "mb_release_mbid"
  /\ Seed.mb_release_group seed = searchParams_get url "mb_release_group"
  /\ Seed.mb_artist_id seed = searchParams_get url "mb_artist_id"
  /\ Seed.discogs_master_id seed = searchParams_get url "discogs_master_id".
Proof.
  cbv zeta. unfold parseSeed. cbv zeta.
  destruct (truthy cmd).
  - match goal with
    | |- context [fold_left parseToken ?parts ?seed] =>
        pose proof (SeedMore.tokens_query_only parts seed) as H
    end.
    unfold query_only in H. cbn [Seed.mb_release_mbid
      Seed.mb_release_group Seed.mb_artist_id Seed.discogs_master_id] in H.
    injection H as H1 H2 H3 H4. auto.
  - repeat split.
Qed.

(** ** The number of requests *)

Section Costs.

Lemma fetches_app tr tr' : fetches (tr ++ tr') = fetches tr + fetches tr'.
Proof. unfold fetches. rewrite filter_app, length_app. reflexivity. Qed.

Lemma costs_weaken n n' A (m : M A) : n <= n' -> costs n m -> costs n' m.
Proof. intros Hn H s. specialize (H s). lia. Qed.

Lemma costs_ret A (a : A) : costs 0 (ret a).
Proof. intros s. simpl. lia. Qed.

Lemma costs_throw A e : costs 0 (@throw A e).
Proof. intros s. simpl. lia. Qed.

Lemma costs_gets A (f : Out.t -> A) : costs 0 (gets f).
Proof. intros s. simpl. lia. Qed.

Lemma costs_modify f : costs 0 (modify f).
Proof. intros s. simpl. lia. Qed.

Lemma costs_json r : costs 0 (json r).
Proof. intros s. unfold json. destruct (body r); simpl; lia. Qed.

Lemma costs_sleep ms : costs 0 (sleep ms).
Proof.
  intros s. simpl. rewrite fetches_app.
  change (fetches [EvSleep ms]) with 0. lia.
Qed.

Lemma costs_now env : costs 0 (now env).
Proof.
  intros s. simpl. rewrite fetches_app. change (fetches [EvNow]) with 0. lia.
Qed.

Lemma costs_fetch env rq : costs 1 (fetch env rq).
Proof.
  intros s. unfold fetch.
  destruct (net env (trace s) rq); simpl; rewrite fetches_app;
    change (fetches [EvFetch rq]) with 1; lia.
Qed.

Lemma costs_bind a b A B (m : M A) (f : A -> M B) :
  costs a m -> (forall x, costs b (f x)) -> costs (a + b) (bind m f).
Proof.
  intros Hm Hf s. unfold bind. specialize (Hm s).
  destruct (m s) as [[x | e] s']; simpl in *; [|lia].
  specialize (Hf x s'). lia.
Qed.

(** A budget of [n] requests, of which [m] takes [c]. *)
Lemma costs_budget c n A B (m : M A) (f : A -> M B) :
  costs c m -> c <= n -> (forall x, costs (n - c) (f x)) ->
  costs n (bind m f).
Proof.
  intros Hm Hc Hf. apply costs_weaken with (n := c + (n - c)); [lia|].
  apply costs_bind; assumption.
Qed.

Lemma costs_try_catch a b A (m : M A) h :
  costs a m -> (forall e, costs b (h e)) -> costs (a + b) (try_catch m h).
Proof.
  intros Hm Hh s. unfold try_catch. specialize (Hm s).
  destruct (m s) as [[x | e] s']; simpl in *; [lia|].
  specialize (Hh e s'). lia.
Qed.

Lemma costs_when n b m : costs n m -> costs n (when b m).
Proof. intros H. destruct b; [exact H|]. intros s. simpl. lia. Qed.

Lemma costs_whenS n c m : costs n m -> costs n (whenS c m).
Proof.
  intros H s. unfold whenS. destruct (c (out s)); [apply H | simpl; lia].
Qed.

Lemma costs_forM_ n A (l : list A) f :
  (forall x, costs n (f x)) -> costs (List.length l * n) (forM_ l f).
Proof.
  intros Hf. induction l as [|x r IH]; simpl; [apply costs_ret|].
  apply costs_bind; [apply Hf | intros _; exact IH].
Qed.

Lemma costs_forM_quiet A (l : list A) f :
  (forall x, costs 0 (f x)) -> costs 0 (forM_ l f).
Proof.
  intros Hf. apply costs_weaken with (n := List.length l * 0); [lia|].
  apply costs_forM_, Hf.
Qed.

(** One step on code that sends no request. *)
Ltac quiet_step :=
  match goal with
  | |- costs _ (bind _ _) => apply (@costs_bind 0 0); [|intros]
  | |- costs _ (try_catch _ _) => apply (@costs_try_catch 0 0); [|intros]
  | |- costs _ (when _ _) => apply costs_when
  | |- costs _ (whenS _ _) => apply costs_whenS
  | |- costs _ (forM_ _ _) => apply costs_forM_quiet; intros
  | |- costs _ (ret _) => apply costs_ret
  | |- costs _ (throw _) => apply costs_throw
  | |- costs _ (gets _) => apply costs_gets
  | |- costs _ (modify _) => apply costs_modify
  | |- costs _ (modify_canonical _) => apply costs_modify
  | |- costs _ (modify_ids _) => apply costs_modify
  | |- costs _ (modify_wikipedia _) => apply costs_modify
  | |- costs _ (push_note _) => apply costs_modify
  | |- costs _ (push_http _ _ _) => apply costs_modify
  | |- costs _ (push_tried _) => apply costs_modify
  | |- costs _ (set_matched_on _) => apply costs_modify
  | |- costs _ (push_article_gallery _) => apply costs_modify
  | |- costs _ (push_artist_gallery _) => apply costs_modify
  | |- costs _ (json _) => apply costs_json
  | |- costs _ (sleep _) => apply costs_sleep
  | |- costs _ (now _) => apply costs_now
  | |- costs _ (if ?b then _ else _) => destruct b
  | |- costs _ (match ?x with _ => _ end) => destruct x
  | |- costs _ (let _ := _ in _) => cbv zeta
  | |- costs 0 _ => solve [eauto]
  end.

(** The share of a piece of code, found from the helpers it calls. *)
Ltac cost_of :=
  first [ solve [repeat quiet_step]
        | solve [eauto]
        | apply costs_weaken with (n := 0); [lia | solve [repeat quiet_step]]
        | apply costs_when; cost_of
        | apply costs_whenS; cost_of
        | match goal with
          | |- costs _ (if ?b then _ else _) => destruct b; cost_of
          end
        | eapply costs_bind; [cost_of | intros; cost_of] ].

(** One step on code with a budget: what the first statement takes is
    taken off the budget of the rest. *)
Ltac budget_step :=
  match goal with
  | |- costs _ (bind _ _) =>
      eapply costs_budget; [cost_of | simpl; lia | intros; simpl Nat.sub]
  | |- costs _ (when _ _) => apply costs_when
  | |- costs _ (whenS _ _) => apply costs_whenS
  | |- costs _ (if ?b then _ else _) => destruct b
  | |- costs _ (match ?x with _ => _ end) => destruct x
  | |- costs _ (let _ := _ in _) => cbv zeta
  | |- costs _ _ =>
      first [ apply costs_weaken with (n := 0);
              [lia | solve [repeat quiet_step]]
            | eapply costs_weaken; [|solve [eauto]]; lia ]
  end.

Lemma costs_GETjson env base path log qs :
  costs 2 (GETjson env base path log qs).
Proof.
  pose proof costs_fetch. unfold GETjson. repeat budget_step.
Qed.

Lemma costs_hydrateMBRelease env id : costs 1 (hydrateMBRelease env id).
Proof.
  pose proof costs_fetch. unfold hydrateMBRelease.
  apply (@costs_try_catch 1 0); [|intros; repeat quiet_step].
  repeat budget_step.
Qed.

Lemma costs_mb_search env q : costs 2 (mb_search env q).
Proof. apply costs_GETjson. Qed.

Lemma costs_sparql env q tag : costs 1 (sparql env q tag).
Proof. pose proof costs_fetch. unfold sparql. repeat budget_step. Qed.

Lemma costs_fetchWikidataEntity env qid :
  costs 2 (fetchWikidataEntity env qid).
Proof.
  pose proof costs_GETjson. unfold fetchWikidataEntity. repeat budget_step.
Qed.

Lemma costs_commonsImageInfo env f : costs 1 (commonsImageInfo env f).
Proof. pose proof costs_fetch. unfold commonsImageInfo. repeat budget_step. Qed.

Lemma costs_normalizeSeed seed : costs 0 (normalizeSeed seed).
Proof. unfold normalizeSeed. repeat quiet_step. Qed.

Lemma costs_resolveDiscogsByUPC env seed :
  costs 2 (resolveDiscogsByUPC env seed).
Proof.
  pose proof costs_GETjson. unfold resolveDiscogsByUPC. repeat budget_step.
Qed.

Lemma costs_mb_barcode_loop env barcodes :
  costs (List.length barcodes * 2) (mb_barcode_loop env barcodes).
Proof.
  induction barcodes as [|bc more IH]; [apply costs_ret|].
  cbn [mb_barcode_loop].
  apply costs_weaken with (n := 2 + List.length more * 2); [simpl; lia|].
  apply costs_bind; [apply costs_mb_search|]. intros search.
  destruct (mb_releases search); [exact IH|].
  apply costs_weaken with (n := 0); [lia | repeat quiet_step].
Qed.

Lemma costs_mb_relation rel : costs 0 (mb_relation rel).
Proof. unfold mb_relation. repeat quiet_step. Qed.

(** The requests after [m;; f], from those after [m]. *)
Lemma costs_from a b A B (m : M A) (f : A -> M B) s :
  fetches (trace (snd (m s))) <= fetches (trace s) + a ->
  (forall x, costs b (f x)) ->
  fetches (trace (snd (bind m f s))) <= fetches (trace s) + (a + b).
Proof.
  intros Hm Hf. unfold bind.
  destruct (m s) as [[x | e] s']; simpl in *; [|lia].
  specialize (Hf x s'). lia.
Qed.

Lemma filter_shorter A (p : A -> bool) l :
  List.length (List.filter p l) <= List.length l.
Proof.
  induction l as [|x l IH]; simpl; [lia|]. destruct (p x); simpl; lia.
Qed.

(** The MusicBrainz stage, when at most two barcodes were recorded. *)
Lemma spends_resolveMusicBrainz env seed :
  spends (fun o =>
            List.length (Diagnostics.tried_barcodes (Out.diagnostics o)) <= 2)
         13 (resolveMusicBrainz env seed).
Proof.
  pose proof costs_hydrateMBRelease. pose proof costs_mb_search.
  pose proof costs_GETjson. pose proof costs_mb_relation.
  intros s Hs. unfold resolveMusicBrainz.
  apply (@costs_from 4 9).
  - destruct (truthy (Seed.upc seed)); [|simpl; lia].
    unfold bind, gets. cbn [fst snd out].
    etransitivity; [apply costs_mb_barcode_loop|].
    pose proof (DedupeMore.dedupe_length
                  (List.filter nonempty
                     (Diagnostics.tried_barcodes (Out.diagnostics (out s))))).
    pose proof (filter_shorter nonempty
                  (Diagnostics.tried_barcodes (Out.diagnostics (out s)))).
    lia.
  - intros mbRel. repeat budget_step.
Qed.

Lemma costs_resolveWikidataAndWikipedia env seed :
  costs 7 (resolveWikidataAndWikipedia env seed).
Proof.
  pose proof costs_sparql. pose proof costs_fetchWikidataEntity.
  unfold resolveWikidataAndWikipedia, sparqlFirstQIDForMBRG,
    sparqlFirstQIDByTitleArtist, sparqlFirstArtistQIDByMBArtist.
  repeat budget_step.
Qed.

Lemma costs_enrichFromWikipedia env seed :
  costs 7 (enrichFromWikipedia env seed).
Proof.
  pose proof costs_GETjson. pose proof costs_fetch.
  unfold enrichFromWikipedia, extractTracklistFromHTML,
    extractPersonnelFromHTML, extractAwardsFromHTML,
    extractLandmarksFromHTML, extractCertificationsFromHTML.
  repeat budget_step.
Qed.

Lemma costs_spends J n A (m : M A) : costs n m -> spends J n m.
Proof. intros H s _. apply H. Qed.

Lemma spends_bind (J : Out.t -> Prop) a b A B (m : M A) (f : A -> M B) :
  keeps J m -> spends J a m -> (forall x, spends J b (f x)) ->
  spends J (a + b) (bind m f).
Proof.
  intros Hk Hm Hf s Hs. unfold bind. specialize (Hm s Hs).
  specialize (Hk s Hs).
  destruct (m s) as [[x | e] s']; simpl in *; [|lia].
  specialize (Hf x s' Hk). lia.
Qed.

Lemma spends_when (J : Out.t -> Prop) n b m :
  spends J n m -> spends J n (when b m).
Proof. intros H. destruct b; [exact H|]. intros s _. simpl. lia. Qed.

(** The image stage: the entity of the artist, then one request for each
    of the files kept. *)
Lemma spends_buildImageGalleries mx env seed :
  spends (fun o => max_images (Out.flags o) = mx) (2 + mx)
         (buildImageGalleries env seed).
Proof.
  unfold buildImageGalleries.
  apply (@spends_bind _ 0 (2 + mx));
    [apply keeps_gets | apply costs_spends, costs_gets | intros aq].
  apply spends_when.
  apply spends_bind;
    [ apply log_fetchWikidataEntity; intros; assumption
    | apply costs_spends, costs_fetchWikidataEntity | intros ent ].
  cbv zeta. intros s Hs. unfold bind at 1, gets at 1. cbn [fst snd].
  rewrite Hs.
  match goal with
  | |- context [forM_ (firstn mx ?files) ?f] =>
      pose proof (@costs_forM_ 1 _ (firstn mx files) f) as Hc;
      pose proof (firstn_le_length mx files) as Hl
  end.
  etransitivity; [apply Hc|].
  - intros f. pose proof costs_commonsImageInfo. repeat budget_step.
  - nia.
Qed.

Lemma spends_weaken (J J' : Out.t -> Prop) n n' A (m : M A) :
  (forall o, J o -> J' o) -> n' <= n -> spends J' n' m -> spends J n m.
Proof. intros HJ Hn H s Hs. specialize (H s (HJ _ Hs)). lia. Qed.

(** [normalizeSeed] returns, sends nothing and records at most two
    barcodes. *)
Lemma normalizeSeed_quiet seed s :
  exists seed' s',
    normalizeSeed seed s = (Ok seed', s')
    /\ trace s' = trace s
    /\ Out.flags (out s') = Out.flags (out s)
    /\ (Diagnostics.tried_barcodes (Out.diagnostics (out s)) = [] ->
        List.length (Diagnostics.tried_barcodes (Out.diagnostics (out s')))
        <= 2).
Proof.
  unfold normalizeSeed. cbn [Seed.upc Seed.set_upc].
  destruct (truthy (normalizeBarcode (Seed.upc seed)));
    [destruct (String.length (tmpl (normalizeBarcode (Seed.upc seed))) =? 12)|];
    cbn [when andb]; unfold bind, push_tried, modify, ret;
    cbn [fst snd out trace];
    do 2 eexists; (split; [reflexivity|]);
    cbn [out trace Out.flags Out.upd_diagnostics Out.diagnostics
         Diagnostics.tried_barcodes Diagnostics.set_tried_barcodes];
    repeat split; intros ->; simpl; lia.
Qed.

Section Budget.

Variable mx : nat.

Let J : Out.t -> Prop :=
  fun o =>
    List.length (Diagnostics.tried_barcodes (Out.diagnostics o)) <= 2
    /\ max_images (Out.flags o) = mx.

Lemma budget_frame : Frame J.
Proof.
  constructor; try (intros; assumption).
  intros l e o H. destruct l; exact H.
Qed.

Lemma budget_discogs_frame : DiscogsFrame J.
Proof. constructor; intros; assumption. Qed.

(** The stages after [normalizeSeed], in the order of the handler. *)
Lemma spends_stages env flags seed :
  spends J (31 + mx)
    (when (truthy (Seed.upc seed)) (resolveDiscogsByUPC env seed) ;;
     resolveMusicBrainz env seed ;;
     resolveWikidataAndWikipedia env seed ;;
     enrichFromWikipedia env seed ;;
     when (negb (String.eqb (images flags) "none"))
          (buildImageGalleries env seed) ;;
     finalizeCanonical ;;
     aggregateDownloadList ;;
     stamp_done env).
Proof.
  pose proof budget_frame as F. pose proof budget_discogs_frame as D.
  apply (@spends_bind J 2 (29 + mx));
    [ apply keeps_when, framed_resolveDiscogsByUPC; assumption
    | apply costs_spends, costs_when, costs_resolveDiscogsByUPC
    | intros _ ].
  apply (@spends_bind J 13 (16 + mx));
    [ apply framed_resolveMusicBrainz, F
    | apply spends_weaken with (J' := fun o =>
        List.length (Diagnostics.tried_barcodes (Out.diagnostics o)) <= 2)
        (n' := 13);
      [intros o [H _]; exact H | lia | apply spends_resolveMusicBrainz]
    | intros _ ].
  apply (@spends_bind J 7 (9 + mx));
    [ apply framed_resolveWikidataAndWikipedia, F
    | apply costs_spends, costs_resolveWikidataAndWikipedia
    | intros _ ].
  apply (@spends_bind J 7 (2 + mx));
    [ apply framed_enrichFromWikipedia, F
    | apply costs_spends, costs_enrichFromWikipedia
    | intros _ ].
  apply spends_weaken with (J' := J) (n' := (2 + mx) + 0);
    [auto | lia |].
  apply (@spends_bind J (2 + mx) 0);
    [ apply keeps_when, framed_buildImageGalleries;
      [exact F | intros; assumption]
    | apply spends_when;
      apply spends_weaken
        with (J' := fun o => max_images (Out.flags o) = mx)
             (n' := 2 + mx);
      [intros o [_ H]; exact H | lia | apply spends_buildImageGalleries]
    | intros _ ].
  apply costs_spends. unfold finalizeCanonical, aggregateDownloadList,
    stamp_done.
  repeat quiet_step.
Qed.

End Budget.

End Costs.

(** X22.  One request to the handler makes the script send at most
    [31 + max_images] requests to the providers, hence never more than 81,
    whatever they answer and whatever the request holds: two for Discogs,
    thirteen for MusicBrainz, seven for Wikidata, seven for Wikipedia, two
    for the entity of the artist and one for each image kept, the retry of
    a throttled request included. *)
Theorem request_budget env url :
  fetches (trace (handle env (parseFlags url) url))
  <= 31 + max_images (parseFlags url)
  /\ fetches (trace (handle env (parseFlags url) url)) <= 81.
Proof.
  assert (H : fetches (trace (handle env (parseFlags url) url))
              <= 31 + max_images (parseFlags url)).
  { unfold handle, enrich, try_catch, pipeline.
    destruct (normalizeSeed_quiet
                (parseSeed url (searchParams_get url "cmd"))
                (entry env (parseFlags url)))
      as (seed' & s' & E & Htr & Hfl & Htried).
    rewrite (@SeedUse.bind_run _ _ _ _ _ _ _ E).
    pose proof (@spends_stages (max_images (parseFlags url)) env
                  (parseFlags url) seed' s') as Hs.
    rewrite Htr in Hs. change (fetches (trace (entry env (parseFlags url))))
      with 0 in Hs.
    assert (HJ : List.length
                   (Diagnostics.tried_barcodes (Out.diagnostics (out s'))) <= 2
                 /\ max_images (Out.flags (out s'))
                    = max_images (parseFlags url))
      by (split; [apply Htried; reflexivity | rewrite Hfl; reflexivity]).
    specialize (Hs HJ). cbv beta.
    match type of Hs with
    | fetches (trace (snd ?r)) <= _ => destruct r as [[[] | e] s'']
    end; cbn [snd trace push_note modify] in *; exact Hs. }
  split; [exact H|].
  pose proof (max_images_bounds url). lia.
Qed.


(** ** What a Discogs hit decides *)

Section Ends.

(** Code that returns: it leads from [P] to [Q] and does not throw. *)
Let never : Out.t -> Prop := fun _ => False.

Lemma sets_ret (P : Out.t -> Prop) A (a : A) : ends P P never (ret a).
Proof. intros s H. exact H. Qed.

Lemma sets_modify (P Q : Out.t -> Prop) f :
  (forall o, P o -> Q (f o)) -> ends P Q never (modify f).
Proof. intros H s Hs. apply H, Hs. Qed.

Lemma sets_bind (P Q R : Out.t -> Prop) A B (m : M A) (f : A -> M B) :
  ends P Q never m -> (forall a, ends Q R never (f a)) ->
  ends P R never (bind m f).
Proof.
  intros Hm Hf s Hs. unfold bind. specialize (Hm s Hs).
  destruct (m s) as [[a | e] s']; simpl in *; [|contradiction].
  apply Hf, Hm.
Qed.

Lemma sets_when (P Q : Out.t -> Prop) b m :
  (b = true -> ends P Q never m) -> (b = false -> forall o, P o -> Q o) ->
  ends P Q never (when b m).
Proof.
  intros Hm Hs. destruct b; [apply Hm; reflexivity|].
  intros s H. apply (Hs eq_refl), H.
Qed.

Lemma sets_whenS (P Q : Out.t -> Prop) c m :
  ends (fun o => P o /\ c o = true) Q never m ->
  (forall o, P o -> c o = false -> Q o) ->
  ends P Q never (whenS c m).
Proof.
  intros Hm Hs s H. unfold whenS.
  destruct (c (out s)) eqn:E; [apply (Hm s); auto | apply Hs; assumption].
Qed.

Lemma sets_weaken (P P' Q Q' : Out.t -> Prop) A (m : M A) :
  (forall o, P' o -> P o) -> (forall o, Q o -> Q' o) ->
  ends P Q never m -> ends P' Q' never m.
Proof.
  intros HP HQ H s Hs. specialize (H s (HP _ Hs)).
  destruct (fst (m s)); [apply HQ, H | exact H].
Qed.

Lemma sets_at (P Q : Out.t -> Prop) (m : M unit) s :
  ends P Q never m -> P (out s) ->
  fst (m s) = Ok tt /\ Q (out (snd (m s))).
Proof.
  intros H Hs. specialize (H s Hs).
  destruct (m s) as [[[] | e] s']; simpl in *; [auto | contradiction].
Qed.

(** Code that returns and keeps [P]. *)
Ltac keep :=
  match goal with
  | |- ends ?J _ _ (bind _ _) =>
      apply sets_bind with (Q := J); [keep | intros; keep]
  | |- ends _ _ _ (ret _) => apply sets_ret
  | |- ends _ _ _ (when _ _) =>
      apply sets_when; [intros _; keep | intros _ o H; exact H]
  | |- ends ?J _ _ (whenS _ _) =>
      apply sets_whenS;
      [ apply sets_weaken with (P := J) (Q := J);
        [intros o [H _]; exact H | intros o H; exact H | keep]
      | intros o H _; exact H ]
  | |- ends _ _ _ (if ?b then _ else _) => destruct b; keep
  | |- ends _ _ _ (let _ := _ in _) => cbv zeta; keep
  | |- ends _ _ _ (modify_canonical _) =>
      apply sets_modify; intros o H; exact H
  | |- ends _ _ _ (modify_ids _) =>
      apply sets_modify; intros o H; exact H
  | |- ends _ _ _ (modify _) =>
      apply sets_modify; intros o H; exact H
  end.

(** The statements that keep [P], up to the first that does not. *)
Ltac keep_on P :=
  repeat (apply sets_bind with (Q := P); [solve [keep] | intros _]).

Section Hit.

Variables (env : Env) (seed : Seed.t) (bc : string) (r : Response).
Variables (hit : Discogs.Hit) (more : list Discogs.Hit) (s : St).
Hypothesis Hupc : Seed.upc seed = Some bc.
Hypothesis Hne : nonempty bc = true.
Hypothesis Hnet : net env (trace s) (discogs_request bc) = Reply r.
Hypothesis Hok : ok r = true.
Hypothesis Hbody : body r = BDiscogsSearch (hit :: more).
Hypothesis Hinit : Out.canonical (out s) = Canonical.init.

Lemma ok_not_throttled : status r <> 429.
Proof.
  unfold ok in Hok. apply andb_true_iff in Hok. destruct Hok as [_ H].
  apply Nat.leb_le in H. lia.
Qed.

Lemma discogs_search_run :
  GETjson env "https://api.discogs.com" "/database/search" DiscogsHttp
    (form_urlencode [("type", "release"); ("barcode", bc);
                     ("per_page", "1"); ("page", "1")]) s
  = (Ok (Some (BDiscogsSearch (hit :: more))),
     mkSt (Out.upd_diagnostics
             (Diagnostics.push_http DiscogsHttp
                (first_entry "/database/search"
                   (form_urlencode [("type", "release"); ("barcode", bc);
                                    ("per_page", "1"); ("page", "1")])
                   (status r)))
             (out s))
          (trace s ++ [EvFetch (discogs_request bc)])).
Proof.
  rewrite (@FetchFacts.GETjson_direct env _ _ _ _ s r Hnet
             ok_not_throttled).
  rewrite Hok, Hbody. reflexivity.
Qed.

(** The stage up to the first write. *)
Ltac enter_hit :=
  unfold resolveDiscogsByUPC; rewrite Hupc; unfold nonempty in Hne;
  cbn [truthy tmpl]; rewrite Hne; cbn [negb];
  rewrite (@SeedUse.bind_run _ _ _ _ _ _ _ discogs_search_run);
  cbn [doc_truthy discogs_results negb].

(** From the document of [s], the stage returns and leads to [Q]. *)
Ltac from_init P Q :=
  enter_hit;
  match goal with
  | |- fst (?m ?st) = Ok tt /\ _ => apply (@sets_at P Q m st)
  end; [|cbn; rewrite ?Hinit; reflexivity];
  keep_on P.

(** A write guarded by the value of the hit and the field being
    empty. *)
Ltac guarded_write Ht :=
  apply sets_whenS;
  [ apply sets_modify; intros o _; reflexivity
  | let o := fresh "o" in let H := fresh "H" in let G := fresh "G" in
    intros o H G; exfalso; cbv beta in H; rewrite Ht, H in G;
    discriminate G ].

Lemma discogs_hit_label :
  label_truthy (Discogs.label hit) = true ->
  fst (resolveDiscogsByUPC env seed s) = Ok tt
  /\ Canonical.label
       (Out.canonical (out (snd (resolveDiscogsByUPC env seed s))))
     = Discogs.label hit.
Proof.
  intros Ht.
  from_init (fun o : Out.t => Canonical.label (Out.canonical o) = None)
            (fun o : Out.t => Canonical.label (Out.canonical o)
                              = Discogs.label hit).
  apply sets_bind
    with (Q := fun o : Out.t => Canonical.label (Out.canonical o)
                                = Discogs.label hit);
    [guarded_write Ht | intros _; keep].
Qed.

Lemma discogs_hit_year :
  scalar_truthy (Discogs.year hit) = true ->
  fst (resolveDiscogsByUPC env seed s) = Ok tt
  /\ Canonical.year
       (Out.canonical (out (snd (resolveDiscogsByUPC env seed s))))
     = Some (scalar_string (Discogs.year hit)).
Proof.
  intros Ht.
  from_init (fun o : Out.t => Canonical.year (Out.canonical o) = None)
            (fun o : Out.t => Canonical.year (Out.canonical o)
                              = Some (scalar_string (Discogs.year hit))).
  apply sets_bind
    with (Q := fun o : Out.t => Canonical.year (Out.canonical o)
                                = Some (scalar_string (Discogs.year hit)));
    [guarded_write Ht | intros _; keep].
Qed.

Lemma discogs_hit_cover_url :
  truthy (Discogs.thumb hit) = true ->
  fst (resolveDiscogsByUPC env seed s) = Ok tt
  /\ Canonical.cover_url
       (Out.canonical (out (snd (resolveDiscogsByUPC env seed s))))
     = Discogs.thumb hit.
Proof.
  intros Ht.
  from_init (fun o : Out.t => Canonical.cover_url (Out.canonical o) = None)
            (fun o : Out.t => Canonical.cover_url (Out.canonical o)
                              = Discogs.thumb hit).
  apply sets_bind
    with (Q := fun o : Out.t => Canonical.cover_url (Out.canonical o)
                                = Discogs.thumb hit);
    [guarded_write Ht | intros _; keep].
Qed.

Lemma discogs_hit_country :
  truthy (Discogs.country hit) = true ->
  fst (resolveDiscogsByUPC env seed s) = Ok tt
  /\ Canonical.country
       (Out.canonical (out (snd (resolveDiscogsByUPC env seed s))))
     = Discogs.country hit.
Proof.
  intros Ht.
  from_init (fun o : Out.t => Canonical.country (Out.canonical o) = None)
            (fun o : Out.t => Canonical.country (Out.canonical o)
                              = Discogs.country hit).
  apply sets_bind
    with (Q := fun o : Out.t => Canonical.country (Out.canonical o)
                                = Discogs.country hit);
    [|intros _; keep].
  rewrite Ht. apply sets_modify. intros o _. reflexivity.
Qed.

Lemma discogs_hit_upc :
  fst (resolveDiscogsByUPC env seed s) = Ok tt
  /\ Canonical.upc
       (Out.canonical (out (snd (resolveDiscogsByUPC env seed s))))
     = Some bc.
Proof.
  from_init (fun o : Out.t => Canonical.upc (Out.canonical o) = None)
            (fun o : Out.t => Canonical.upc (Out.canonical o) = Some bc).
  apply sets_when; [intros _ | discriminate].
  apply sets_modify. intros o _. reflexivity.
Qed.

Lemma discogs_hit_release_id :
  scalar_truthy (Discogs.hit_id hit) = true ->
  fst (resolveDiscogsByUPC env seed s) = Ok tt
  /\ Ids.discogs_release_id
       (Out.ids (out (snd (resolveDiscogsByUPC env seed s))))
     = Some (mkIdRef (Some (scalar_string (Discogs.hit_id hit)))
               ("https://www.discogs.com/release/"
                  ++ scalar_string (Discogs.hit_id hit))).
Proof.
  intros Ht. enter_hit.
  match goal with
  | |- fst (?m ?st) = Ok tt /\ _ =>
      apply (@sets_at (fun _ => True)
               (fun o => Ids.discogs_release_id (Out.ids o)
                         = Some (mkIdRef (Some (scalar_string (Discogs.hit_id hit)))
                                   ("https://www.discogs.com/release/"
                                      ++ scalar_string (Discogs.hit_id hit)))) m st)
  end; [|exact I].
  apply sets_bind
    with (Q := fun o => Ids.discogs_release_id (Out.ids o)
                        = Some (mkIdRef (Some (scalar_string (Discogs.hit_id hit)))
                                  ("https://www.discogs.com/release/"
                                     ++ scalar_string (Discogs.hit_id hit))));
    [|intros _; keep].
  rewrite Ht. apply sets_modify. intros o _. reflexivity.
Qed.

End Hit.

End Ends.

(** The decimal form of a number is never empty, and a truthy scalar
    prints as a non-empty string. *)
Lemma string_of_nat_nonempty n : Str.is_empty (string_of_nat n) = false.
Proof.
  unfold string_of_nat, NilZero.string_of_uint.
  destruct (Nat.to_uint n); reflexivity.
Qed.

Lemma scalar_string_truthy v :
  scalar_truthy v = true -> truthy (Some (scalar_string v)) = true.
Proof.
  destruct v as [[n | t]|]; simpl; intros H; try discriminate.
  - rewrite string_of_nat_nonempty. reflexivity.
  - exact H.
Qed.

Section Precedence.

Variable Q : Out.t -> Prop.
Hypothesis F : Frame Q.
Hypothesis G : forall it o,
    artist_item it -> Q o -> Q (Out.upd_wiki (add_artist it) o).
Hypothesis T : forall v o, Q o -> Q (Out.set_ts_done v o).

(** What the Discogs stage has established when it returns is still
    there in the document sent back. *)
Lemma kept_after_discogs env flags seed bc :
  normalizeBarcode (Seed.upc seed) = Some bc ->
  (forall s,
      trace s = [EvNow; EvNow] ->
      Out.canonical (out s) = Canonical.init ->
      fst (resolveDiscogsByUPC env (Seed.set_upc (Some bc) seed) s) = Ok tt
      /\ Q (out (snd (resolveDiscogsByUPC env
                        (Seed.set_upc (Some bc) seed) s)))) ->
  Q (out (snd (enrich env flags seed (entry env flags)))).
Proof.
  intros Hbc Hstage.
  destruct (normalizeSeed_quiet seed (entry env flags))
    as (seed' & s1 & E & Htr & _ & _).
  assert (Hseed : seed' = Seed.set_upc (Some bc) seed).
  { rewrite SeedUse.normalizeSeed_run in E. rewrite Hbc in E.
    congruence. }
  assert (Hcan : Out.canonical (out s1) = Canonical.init).
  { pose proof (@framed_normalizeSeed
                  (fun o => Out.canonical o = Canonical.init) seed
                  (fun bc o H => H) (entry env flags) eq_refl) as H.
    rewrite E in H. exact H. }
  subst seed'.
  destruct (Hstage s1 Htr Hcan) as [Hok HQ].
  unfold enrich, try_catch, pipeline.
  rewrite (@SeedUse.bind_run _ _ _ _ _ _ _ E).
  cbn [Seed.upc Seed.set_upc].
  rewrite (SeedFacts.normalizeBarcode_truthy _ Hbc). cbn [when].
  destruct (resolveDiscogsByUPC env (Seed.set_upc (Some bc) seed) s1)
    as [[[] | e] s2] eqn:E2; [|discriminate Hok].
  cbn [fst snd] in HQ.
  rewrite (@SeedUse.bind_run _ _ _ _ _ _ _ E2).
  assert (Hrest : keeps Q
            (resolveMusicBrainz env (Seed.set_upc (Some bc) seed) ;;
             resolveWikidataAndWikipedia env (Seed.set_upc (Some bc) seed) ;;
             enrichFromWikipedia env (Seed.set_upc (Some bc) seed) ;;
             when (negb (String.eqb (images flags) "none"))
                  (buildImageGalleries env (Seed.set_upc (Some bc) seed)) ;;
             finalizeCanonical ;;
             aggregateDownloadList ;;
             stamp_done env)).
  { apply keeps_bind; [apply framed_resolveMusicBrainz, F | intros _].
    apply keeps_bind;
      [apply framed_resolveWikidataAndWikipedia, F | intros _].
    apply keeps_bind; [apply framed_enrichFromWikipedia, F | intros _].
    apply keeps_bind;
      [apply keeps_when, framed_buildImageGalleries; assumption | intros _].
    apply keeps_bind; [apply framed_finalizeCanonical, F | intros _].
    apply keeps_bind; [apply framed_aggregateDownloadList, F | intros _].
    apply framed_stamp_done, T. }
  specialize (Hrest s2 HQ).
  match type of Hrest with
  | Q (out (snd ?run)) => destruct run as [[[] | e] s3]
  end; cbn [snd] in *; [exact Hrest|].
  apply (fr_note F), Hrest.
Qed.

End Precedence.

(** X23.  What Discogs says wins.  For a seed with a usable barcode whose
    Discogs search is answered with a hit, the document sent back holds the
    barcode as [canonical.upc], and holds the country, the label, the year
    and the thumbnail of the hit as [country], [label], [year] and
    [cover_url], each when the hit has it, and the release of the hit as
    [ids.discogs_release_id]: whatever MusicBrainz, Wikidata and Wikipedia
    answer afterwards, and also when a later stage throws. *)
Theorem discogs_takes_precedence env flags seed bc r hit more :
  normalizeBarcode (Seed.upc seed) = Some bc ->
  net env [EvNow; EvNow] (discogs_request bc) = Reply r ->
  ok r = true ->
  body r = BDiscogsSearch (hit :: more) ->
  let doc := out (snd (enrich env flags seed (entry env flags))) in
  Canonical.upc (Out.canonical doc) = Some bc
  /\ (truthy (Discogs.country hit) = true ->
      Canonical.country (Out.canonical doc) = Discogs.country hit)
  /\ (label_truthy (Discogs.label hit) = true ->
      Canonical.label (Out.canonical doc) = Discogs.label hit)
  /\ (scalar_truthy (Discogs.year hit) = true ->
      Canonical.year (Out.canonical doc) = Some (scalar_string (Discogs.year hit)))
  /\ (truthy (Discogs.thumb hit) = true ->
      Canonical.cover_url (Out.canonical doc) = Discogs.thumb hit)
  /\ (scalar_truthy (Discogs.hit_id hit) = true ->
      Ids.discogs_release_id (Out.ids doc)
      = Some (mkIdRef (Some (scalar_string (Discogs.hit_id hit)))
                ("https://www.discogs.com/release/"
                   ++ scalar_string (Discogs.hit_id hit)))).
Proof.
  intros Hbc Hnet Hok Hbody. cbv zeta.
  pose proof (SeedFacts.normalizeBarcode_truthy _ Hbc) as Hne.
  assert (Hat : forall s, trace s = [EvNow; EvNow] ->
                net env (trace s) (discogs_request bc) = Reply r)
    by (intros s ->; exact Hnet).
  split; [|split; [|split; [|split; [|split]]]].
  - refine (@kept_after_discogs
              (fun o => Canonical.upc (Out.canonical o) = Some bc)
              _ _ _ env flags seed bc Hbc _);
      [frame_by_conversion | frame_by_conversion | frame_by_conversion |].
    intros s Htr Hcan.
    apply (@discogs_hit_upc env _ bc r hit more s); auto.
  - intros Ht. destruct (@country_frames _ Ht) as (F & T).
    apply (@kept_after_discogs _ F (tf_artist_gallery T) (tf_ts_done T))
      with (bc := bc); [assumption|].
    intros s Htr Hcan.
    apply (@discogs_hit_country env _ bc r hit more s); auto.
  - intros Ht. destruct (@label_frames _ Ht) as (F & _ & T).
    apply (@kept_after_discogs _ F (tf_artist_gallery T) (tf_ts_done T))
      with (bc := bc); [assumption|].
    intros s Htr Hcan.
    apply (@discogs_hit_label env _ bc r hit more s); auto.
  - intros Ht.
    destruct (@year_frames _ (scalar_string_truthy _ Ht)) as (F & _ & T).
    apply (@kept_after_discogs _ F (tf_artist_gallery T) (tf_ts_done T))
      with (bc := bc); [assumption|].
    intros s Htr Hcan.
    apply (@discogs_hit_year env _ bc r hit more s); auto.
  - intros Ht. destruct (@cover_url_frames _ Ht) as (F & _ & T).
    apply (@kept_after_discogs _ F (tf_artist_gallery T) (tf_ts_done T))
      with (bc := bc); [assumption|].
    intros s Htr Hcan.
    apply (@discogs_hit_cover_url env _ bc r hit more s); auto.
  - intros Ht.
    refine (@kept_after_discogs
              (fun o => Ids.discogs_release_id (Out.ids o)
                        = Some (mkIdRef (Some (scalar_string (Discogs.hit_id hit)))
                                  ("https://www.discogs.com/release/"
                                     ++ scalar_string (Discogs.hit_id hit))))
              _ _ _ env flags seed bc Hbc _);
      [frame_by_conversion | frame_by_conversion | frame_by_conversion |].
    + intros v o _ H G. rewrite H in G. discriminate G.
    + intros s Htr Hcan.
      apply (@discogs_hit_release_id env _ bc r hit more s); auto.
Qed.

Lemma discogs_takes_precedence_witness :
  Canonical.label
    (Out.canonical
       (out (snd (enrich World.env Examples.flags0
                    (Seed.set_upc (Some "888751119215") Seed.empty)
                    (entry World.env Examples.flags0)))))
  = Some (LabelNames ["Columbia"]).
Proof.
  destruct (@discogs_takes_precedence World.env Examples.flags0
              (Seed.set_upc (Some "888751119215") Seed.empty)
              "888751119215"
              (mkResponse 200 "" (BDiscogsSearch [World.hit]))
              World.hit [] eq_refl eq_refl eq_refl eq_refl)
    as (_ & _ & H & _).
  apply H. reflexivity.
Defined.
Section Identifiers.

Lemma ids_frame : Frame ids_ok.
Proof.
  constructor; try (intros; assumption);
    intros v o Hv (H1 & H2 & H3 & H4 & H5 & H6 & H7 & H8);
    repeat split; assumption.
Qed.

Lemma ids_discogs_frame : DiscogsFrame ids_ok.
Proof.
  constructor; try (intros; assumption);
    intros v o Hv (H1 & H2 & H3 & H4 & H5 & H6 & H7 & H8);
    repeat split; assumption.
Qed.

End Identifiers.

(** X24.  Every identifier of a document sent back links to the page of
    its kind, whatever the providers answer: the URL of a Discogs release
    or master, of a MusicBrainz release, release group or artist and of a
    Wikidata item is the site's prefix followed by the identifier itself,
    and the URL of the Wikipedia article is the prefix followed by the
    title, as it is or percent-encoded. *)
Theorem identifier_urls_well_formed env url :
  ids_ok (js_body (fetch_handler env url)).
Proof.
  unfold fetch_handler, json_response. cbn [js_body].
  apply (@framed_handle ids_ok ids_frame).
  - intros; assumption.
  - apply ids_discogs_frame.
  - intros; assumption.
  - intros; assumption.
  - repeat split; intros x E; discriminate E.
Qed.
(** ** The barcodes that MusicBrainz is searched for *)

Module SearchFacts.

Lemma forallb_app p a b :
  Str.forallb p (a ++ b)%string = Str.forallb p a && Str.forallb p b.
Proof.
  induction a as [|c a IH]; simpl; [reflexivity|].
  rewrite IH, andb_assoc. reflexivity.
Qed.

Lemma app_assoc_string (a b c : string) :
  ((a ++ b) ++ c = a ++ (b ++ c))%string.
Proof. induction a as [|x a IH]; simpl; [|rewrite IH]; reflexivity. Qed.

Lemma encode_with_app keep sp a b :
  encode_with keep sp (a ++ b)%string
  = (encode_with keep sp a ++ encode_with keep sp b)%string.
Proof.
  induction a as [|c a IH]; simpl; [reflexivity|].
  rewrite IH, app_assoc_string. reflexivity.
Qed.

Lemma encode_digits keep sp bc :
  (forall c, is_digit c = true -> keep c = true) ->
  Str.forallb is_digit bc = true -> encode_with keep sp bc = bc.
Proof.
  intros Hk. induction bc as [|c bc IH]; simpl; [reflexivity|].
  intros H. apply andb_true_iff in H. destruct H as [Hc Hr].
  rewrite (Hk c Hc), (IH Hr). reflexivity.
Qed.

(** The URL of the search for a barcode of digits. *)
Lemma mb_barcode_url bc :
  Str.forallb is_digit bc = true ->
  rq_url (mb_barcode_request bc)
  = ("https://musicbrainz.org/ws/2/release/?query=barcode%3A" ++ bc
       ++ "&fmt=json")%string.
Proof.
  intros H. unfold mb_barcode_request, form_urlencode.
  cbn [rq_url GET List.map fst snd Str.join].
  rewrite encode_with_app, (@encode_digits _ "+" bc); [reflexivity | | exact H].
  intros c Hc. unfold is_alnum. rewrite Hc, orb_true_r. reflexivity.
Qed.

Lemma drop_prefix_app p s : drop_prefix p (p ++ s)%string = Some s.
Proof.
  induction p as [|a p IH]; simpl; [reflexivity|].
  rewrite Ascii.eqb_refl. exact IH.
Qed.

Lemma drop_prefix_inv p : forall s r,
  drop_prefix p s = Some r -> s = (p ++ r)%string.
Proof.
  induction p as [|a p IH]; intros s r H; simpl in *.
  - congruence.
  - destruct s as [|b s]; [discriminate|].
    destruct (Ascii.eqb a b) eqn:E; [|discriminate].
    apply Ascii.eqb_eq in E. subst b. rewrite (IH _ _ H). reflexivity.
Qed.

Lemma digits_before_fmt_app bc :
  Str.forallb is_digit bc = true ->
  digits_before_fmt (bc ++ "&fmt=json") = Some bc.
Proof.
  induction bc as [|c bc IH]; intros H; [reflexivity|].
  simpl in H. apply andb_true_iff in H. destruct H as [Hc Hr].
  cbn [append digits_before_fmt]. rewrite Hc, (IH Hr). reflexivity.
Qed.

Lemma digits_before_fmt_inv s : forall bc,
  digits_before_fmt s = Some bc ->
  s = (bc ++ "&fmt=json")%string /\ Str.forallb is_digit bc = true.
Proof.
  induction s as [|c s IH]; intros bc H; [discriminate|].
  cbn [digits_before_fmt] in H.
  destruct (is_digit c) eqn:Hc.
  - destruct (digits_before_fmt s) as [t|] eqn:E; [|discriminate].
    injection H as <-. destruct (IH t eq_refl) as [-> Ht].
    split; [reflexivity | simpl; rewrite Hc; exact Ht].
  - destruct (String.eqb (String c s) "&fmt=json") eqn:E; [|discriminate].
    injection H as <-. apply String.eqb_eq in E. split; [exact E | reflexivity].
Qed.

Lemma searched_barcode_request bc :
  Str.forallb is_digit bc = true ->
  searched_barcode (mb_barcode_request bc) = Some bc.
Proof.
  intros H. unfold searched_barcode. rewrite (@mb_barcode_url bc H).
  rewrite drop_prefix_app. apply digits_before_fmt_app, H.
Qed.

(** The URL of a request that searches for a barcode. *)
Lemma searched_barcode_inv rq bc :
  searched_barcode rq = Some bc ->
  rq_url rq
  = ("https://musicbrainz.org/ws/2/release/?query=barcode%3A" ++ bc
       ++ "&fmt=json")%string
  /\ Str.forallb is_digit bc = true.
Proof.
  unfold searched_barcode. intros H.
  destruct (drop_prefix _ (rq_url rq)) as [rest|] eqn:E; [|discriminate].
  apply drop_prefix_inv in E. apply digits_before_fmt_inv in H.
  destruct H as [-> Hd]. split; assumption.
Qed.


Lemma barcode_searches_app a b :
  barcode_searches (a ++ b) = barcode_searches a ++ barcode_searches b.
Proof. apply flat_map_app. Qed.

(** What one request adds to the barcodes searched. *)
Lemma barcode_searches_fetch tr rq :
  barcode_searches (tr ++ [EvFetch rq])
  = barcode_searches tr
      ++ match searched_barcode rq with Some bc => [bc] | None => [] end.
Proof.
  rewrite barcode_searches_app. unfold barcode_searches at 2.
  cbn [flat_map]. rewrite app_nil_r. reflexivity.
Qed.

Lemma barcode_searches_other tr ev :
  match ev with EvFetch _ => False | _ => True end ->
  barcode_searches (tr ++ [ev]) = barcode_searches tr.
Proof.
  intros H. rewrite barcode_searches_app.
  destruct ev; [contradiction| |]; apply app_nil_r.
Qed.

(** [GETjson] sends its request once, or twice around a pause. *)
Lemma GETjson_events env base path log qs s :
  let ev := EvFetch (GET (GETjson_url base path qs) JSON_H) in
  let tr := trace (snd (GETjson env base path log qs s)) in
  tr = trace s ++ [ev] \/ tr = trace s ++ [ev; EvSleep 2000; ev].
Proof.
  cbv zeta. unfold GETjson. fold (GETjson_url base path qs).
  unfold bind, fetch, push_http, modify, sleep, ret. cbn [out trace].
  destruct (net env (trace s) _) as [e | r]; [left; reflexivity|].
  cbn [out trace].
  destruct (status r =? 429).
  - right. cbn [out trace].
    destruct (net env _ _) as [e | r2]; cbn [out trace snd];
      [rewrite <- !app_assoc; reflexivity|].
    destruct (negb (ok r2)); cbn [snd trace];
      [rewrite <- !app_assoc; reflexivity|].
    unfold json. destruct (body r2); cbn; rewrite <- !app_assoc; reflexivity.
  - left. destruct (ok r); cbn [snd trace]; [|reflexivity].
    unfold json. destruct (body r); reflexivity.
Qed.


Lemma forallb_weaken (p q : ascii -> bool) s :
  (forall c, p c = true -> q c = true) ->
  Str.forallb p s = true -> Str.forallb q s = true.
Proof.
  intros Hpq. induction s as [|c s IH]; simpl; [reflexivity|].
  intros H. apply andb_true_iff in H. destruct H as [Hc Hs].
  rewrite (Hpq c Hc), (IH Hs). reflexivity.
Qed.

Lemma digit_is_not x :
  is_digit x = false -> forall a, is_digit a = true ->
  negb (Ascii.eqb a x) = true.
Proof.
  intros Hx a Ha. destruct (Ascii.eqb a x) eqn:E; [|reflexivity].
  apply Ascii.eqb_eq in E. congruence.
Qed.

(** A character that is no digit and occurs neither before nor after
    the digits. *)
Lemma without_char x pre bc suf :
  is_digit x = false ->
  Str.forallb (other_than x) pre = true ->
  Str.forallb (other_than x) suf = true ->
  Str.forallb is_digit bc = true ->
  Str.forallb (other_than x) (pre ++ bc ++ suf) = true.
Proof.
  intros Hx Hp Hs Hd. rewrite !forallb_app, Hp, Hs.
  rewrite (@forallb_weaken is_digit (other_than x) bc (@digit_is_not x Hx) Hd).
  reflexivity.
Qed.

Lemma with_char x a b :
  Str.forallb (other_than x) b = false ->
  Str.forallb (other_than x) (a ++ b) = false.
Proof. intros H. rewrite forallb_app, H. apply andb_false_r. Qed.

(** The detail request of a release is no search: its URL ends with the
    parameter [inc]. *)
Lemma detail_is_no_search id : searched_barcode (mb_detail_request id) = None.
Proof.
  destruct (searched_barcode (mb_detail_request id)) as [bc|] eqn:E;
    [|reflexivity].
  apply searched_barcode_inv in E. destruct E as [E Hd].
  apply (f_equal (drop_prefix "https://musicbrainz.org/ws/2/release/")) in E.
  unfold mb_detail_request in E. cbn [rq_url GET] in E.
  change ("https://musicbrainz.org/ws/2/release/?query=barcode%3A" ++ bc
            ++ "&fmt=json")%string
    with ("https://musicbrainz.org/ws/2/release/"
            ++ ("?query=barcode%3A" ++ bc ++ "&fmt=json"))%string in E.
  rewrite !drop_prefix_app in E. injection E as E.
  match type of E with
  | ?l = ?r =>
      assert (Hl : Str.forallb (other_than "p") l = false)
        by (apply with_char; reflexivity);
      assert (Hr : Str.forallb (other_than "p") r = true)
        by exact (@without_char "p" "?query=barcode%3A" bc "&fmt=json"
                    eq_refl eq_refl eq_refl Hd)
  end.
  rewrite E in Hl. congruence.
Qed.

(** The search by title and artist is no search for a barcode: its
    query holds the [+] of an encoded space. *)
Lemma text_search_is_no_search title artist :
  searched_barcode
    (GET (GETjson_url "https://musicbrainz.org/ws/2" "/release/"
            (form_urlencode [("query", (title ++ " AND artist:" ++ artist)%string);
                             ("fmt", "json")]))
         JSON_H) = None.
Proof.
  match goal with |- ?x = None => destruct x as [bc|] eqn:E end;
    [|reflexivity].
  apply searched_barcode_inv in E. destruct E as [E Hd].
  unfold GETjson_url, form_urlencode in E.
  cbn [rq_url GET List.map fst snd Str.join] in E.
  rewrite encode_with_app in E.
  apply (f_equal (drop_prefix "https://musicbrainz.org/ws/2/release/?query="))
    in E.
  match type of E with
  | _ = ?r =>
      change r with (drop_prefix "https://musicbrainz.org/ws/2/release/?query="
                       ("https://musicbrainz.org/ws/2/release/?query="
                          ++ ("barcode%3A" ++ bc ++ "&fmt=json"))) in E
  end.
  rewrite drop_prefix_app in E.
  match type of E with
  | ?l = _ =>
      change l
        with (Some ((encode_with
                       (fun c : ascii => is_alnum c || one_of "*-._" c) "+"
                       title
                     ++ encode_with
                          (fun c : ascii => is_alnum c || one_of "*-._" c) "+"
                          (" AND artist:" ++ artist))
                    ++ "&fmt=json")%string) in E
  end.
  injection E as E.
  match type of E with
  | ?l = ?r =>
      assert (Hl : Str.forallb (other_than "+") l = false)
        by (rewrite !forallb_app;
            match goal with
            | |- ?a && ?b && ?c = false =>
                change b with false; apply andb_false_iff; left;
                apply andb_false_r
            end);
      assert (Hr : Str.forallb (other_than "+") r = true)
        by exact (@without_char "+" "barcode%3A" bc "&fmt=json"
                    eq_refl eq_refl eq_refl Hd)
  end.
  rewrite E in Hl. congruence.
Qed.

(** The requests for the release group and for the artist are no
    searches. *)
Lemma group_is_no_search id :
  searched_barcode
    (GET (GETjson_url "https://musicbrainz.org/ws/2"
            ("/release-group/" ++ id) "fmt=json") JSON_H) = None.
Proof. reflexivity. Qed.

Lemma artist_is_no_search id :
  searched_barcode
    (GET (GETjson_url "https://musicbrainz.org/ws/2"
            ("/artist/" ++ id) "fmt=json") JSON_H) = None.
Proof. reflexivity. Qed.

End SearchFacts.

Section Searched.

Import SearchFacts.

(** The barcodes searched so far. *)
Variable L : list string.
Let P := fun tr : list Event => barcode_searches tr = L.

Lemma quiet_fetch env rq :
  searched_barcode rq = None -> traces P (fetch env rq).
Proof.
  intros Hn s H. unfold P, fetch in *.
  destruct (net env (trace s) rq); cbn [snd trace];
    rewrite barcode_searches_fetch, Hn, app_nil_r; exact H.
Qed.

Lemma quiet_sleep : forall tr, P tr -> P (tr ++ [EvSleep 2000]).
Proof.
  intros tr H. unfold P. rewrite barcode_searches_other; [exact H | exact I].
Qed.

Lemma quiet_GETjson env base path log qs :
  searched_barcode (GET (GETjson_url base path qs) JSON_H) = None ->
  traces P (GETjson env base path log qs).
Proof.
  intros Hn s H. unfold P in *.
  destruct (GETjson_events env base path log qs s) as [-> | ->].
  - rewrite barcode_searches_fetch, Hn, app_nil_r. exact H.
  - change [EvFetch (GET (GETjson_url base path qs) JSON_H); EvSleep 2000;
            EvFetch (GET (GETjson_url base path qs) JSON_H)]
      with ([EvFetch (GET (GETjson_url base path qs) JSON_H)]
              ++ [EvSleep 2000]
              ++ [EvFetch (GET (GETjson_url base path qs) JSON_H)]).
    rewrite !app_assoc, barcode_searches_fetch, Hn, app_nil_r.
    rewrite barcode_searches_other by exact I.
    rewrite barcode_searches_fetch, Hn, app_nil_r. exact H.
Qed.

Lemma quiet_hydrateMBRelease env id : traces P (hydrateMBRelease env id).
Proof.
  intros s H. unfold P in *. rewrite hydrateMBRelease_trace.
  rewrite barcode_searches_fetch, detail_is_no_search, app_nil_r. exact H.
Qed.

(** One step of a proof that a program searches for no barcode. *)
Ltac quiet_step :=
  match goal with
  | |- traces _ (bind _ _) => apply traces_bind; [|intros]
  | |- traces _ (when _ _) => apply traces_when
  | |- traces _ (whenS _ _) => apply traces_whenS
  | |- traces _ (forM_ _ _) => apply traces_forM_; intros
  | |- traces _ (ret _) => apply traces_ret
  | |- traces _ (throw _) => apply traces_throw
  | |- traces _ (gets _) => apply traces_gets
  | |- traces _ (modify _) => apply traces_modify
  | |- traces _ (modify_canonical _) => apply traces_modify
  | |- traces _ (modify_ids _) => apply traces_modify
  | |- traces _ (set_matched_on _) => apply traces_modify
  | |- traces _ (hydrateMBRelease _ _) => apply quiet_hydrateMBRelease
  | |- traces _ (mb_search _ _) =>
      apply quiet_GETjson, text_search_is_no_search
  | |- traces _ (GETjson _ _ ("/release-group/" ++ _) _ _) =>
      apply quiet_GETjson, group_is_no_search
  | |- traces _ (GETjson _ _ ("/artist/" ++ _) _ _) =>
      apply quiet_GETjson, artist_is_no_search
  | |- traces _ (if ?b then _ else _) => destruct b
  | |- traces _ (match ?x with _ => _ end) => destruct x
  | |- traces _ (let _ := _ in _) => cbv zeta
  end.

Lemma quiet_mb_relation rel : traces P (mb_relation rel).
Proof. unfold mb_relation. repeat quiet_step. Qed.

(** What follows the barcode loop in [resolveMusicBrainz] searches for
    no barcode. *)
Lemma searches_after_loop env seed s :
  P (trace
       (snd ((if truthy (Seed.upc seed)
              then
                barcodes <- gets (fun o =>
                  dedupe (List.filter nonempty
                            (Diagnostics.tried_barcodes (Out.diagnostics o)))) ;;
                mb_barcode_loop env barcodes
              else ret None) s))) ->
  P (trace (snd (resolveMusicBrainz env seed s))).
Proof.
  intros H. unfold resolveMusicBrainz.
  apply (@traces_from P); [exact H|].
  intros mbRel. pose proof quiet_mb_relation. repeat quiet_step; auto.
Qed.

End Searched.

Module LoopFacts.

Import SearchFacts.

(** One search for a barcode: one request, or two around a pause. *)
Lemma search_events env bc s :
  Str.forallb is_digit bc = true ->
  exists n,
    (n = 1 \/ n = 2)
    /\ barcode_searches (trace (snd (mb_search env ("barcode:" ++ bc) s)))
       = barcode_searches (trace s) ++ repeat bc n.
Proof.
  intros Hd. unfold mb_search.
  pose proof (@searched_barcode_request bc Hd) as Hs.
  destruct (GETjson_events env "https://musicbrainz.org/ws/2" "/release/"
              MbHttp
              (form_urlencode [("query", ("barcode:" ++ bc)%string);
                               ("fmt", "json")]) s) as [E | E];
    rewrite E;
    change (GET (GETjson_url "https://musicbrainz.org/ws/2" "/release/"
                   (form_urlencode [("query", ("barcode:" ++ bc)%string);
                                    ("fmt", "json")])) JSON_H)
      with (mb_barcode_request bc).
  - exists 1. split; [left; reflexivity|].
    rewrite barcode_searches_fetch, Hs. reflexivity.
  - exists 2. split; [right; reflexivity|].
    change [EvFetch (mb_barcode_request bc); EvSleep 2000;
            EvFetch (mb_barcode_request bc)]
      with ([EvFetch (mb_barcode_request bc)] ++ [EvSleep 2000]
              ++ [EvFetch (mb_barcode_request bc)]).
    rewrite !app_assoc, barcode_searches_fetch, Hs.
    rewrite barcode_searches_other by exact I.
    rewrite barcode_searches_fetch, Hs, <- app_assoc. reflexivity.
Qed.

(** The loop over one barcode. *)
Lemma loop_one env bc s :
  Str.forallb is_digit bc = true ->
  exists n,
    (n = 1 \/ n = 2)
    /\ barcode_searches (trace (snd (mb_barcode_loop env [bc] s)))
       = barcode_searches (trace s) ++ repeat bc n.
Proof.
  intros Hd. destruct (@search_events env bc s Hd) as (n & Hn & E).
  exists n. split; [exact Hn|]. rewrite <- E.
  cbn [mb_barcode_loop]. unfold bind.
  destruct (mb_search env ("barcode:" ++ bc) s) as [[search | e] s1];
    [|reflexivity].
  destruct (mb_releases search); reflexivity.
Qed.

(** The loop over two barcodes: the second is searched when, and only
    when, the search for the first returns without a release. *)
Lemma loop_two env a b s :
  Str.forallb is_digit a = true -> Str.forallb is_digit b = true ->
  exists n m,
    barcode_searches (trace (snd (mb_barcode_loop env [a; b] s)))
    = barcode_searches (trace s) ++ repeat a n ++ repeat b m
    /\ (n = 1 \/ n = 2) /\ m <= 2
    /\ (1 <= m <-> found_nothing (fst (mb_search env ("barcode:" ++ a) s))
                   = true).
Proof.
  intros Ha Hb. destruct (@search_events env a s Ha) as (n & Hn & E).
  cbn [mb_barcode_loop]. unfold bind at 1.
  destruct (mb_search env ("barcode:" ++ a) s) as [[search | e] s1] eqn:Es;
    cbn [fst snd found_nothing] in *.
  - destruct (mb_releases search) as [|first more] eqn:Er; cbn [is_nil].
    + destruct (@loop_one env b s1 Hb) as (m & Hm & E2).
      exists n, m. cbn [mb_barcode_loop] in E2. rewrite E2, E, <- app_assoc.
      repeat split; auto; lia.
    + exists n, 0. cbn [repeat]. rewrite app_nil_r.
      split; [exact E|]. split; [exact Hn|]. split; [lia|].
      split; [lia | discriminate].
  - exists n, 0. cbn [repeat]. rewrite app_nil_r.
    split; [exact E|]. split; [exact Hn|]. split; [lia|].
    split; [lia | discriminate].
Qed.

End LoopFacts.

Lemma normalizeBarcode_all_digits b d :
  normalizeBarcode b = Some d -> Str.forallb is_digit d = true.
Proof.
  destruct b as [b|]; [|discriminate].
  rewrite normalizeBarcode_digits. cbv zeta.
  destruct (Str.is_empty (Str.filter is_digit b)); [discriminate|].
  intros H. injection H as <-.
  apply canonical_digits_digits, StrFacts.forallb_filter.
Qed.

(** C5.  [normalizeSeed], entered with no barcode tried yet, records the
    canonical barcode [d] of the input: when [d] has exactly 12 digits,
    exactly the two variants [d] and then zero-padded [0d]; when it has
    exactly 13 digits, exactly [d].  [resolveMusicBrainz], run on the
    normalised seed in any state that holds this record, and whatever the
    providers answer, searches MusicBrainz for these barcodes in the order
    of the record and for no other barcode: first for [d], with one request,
    or two when the first is answered 429; then for [0d], in the same way,
    when [d] has 12 digits and the search for [d] returned without a
    release, and not otherwise. *)
Theorem normalizeSeed_tried_barcodes env (seed : Seed.t) (s : St) (d : string) :
  Diagnostics.tried_barcodes (Out.diagnostics (out s)) = [] ->
  normalizeBarcode (Seed.upc seed) = Some d ->
  let seed' := Seed.set_upc (Some d) seed in
  let tried := Diagnostics.tried_barcodes
                 (Out.diagnostics (out (snd (normalizeSeed seed s)))) in
  fst (normalizeSeed seed s) = Ok seed'
  /\ (String.length d = 12 -> tried = [d; String "0" d])
  /\ (String.length d = 13 -> tried = [d])
  /\ (forall s',
        Diagnostics.tried_barcodes (Out.diagnostics (out s')) = tried ->
        exists n m,
          barcode_searches (trace (snd (resolveMusicBrainz env seed' s')))
          = barcode_searches (trace s')
              ++ repeat d n ++ repeat (String "0" d) m
          /\ (n = 1 \/ n = 2) /\ m <= 2
          /\ (String.length d = 12 ->
              (1 <= m <->
               found_nothing (fst (mb_search env ("barcode:" ++ d) s')) = true))
          /\ (String.length d = 13 -> m = 0)).
Proof.
  intros Hinit Hd seed' tried.
  pose proof (SeedFacts.normalizeBarcode_truthy _ Hd) as Ht.
  pose proof (normalizeBarcode_all_digits _ Hd) as Hdig.
  assert (Hne : d <> "") by (destruct d; [discriminate | congruence]).
  assert (Hrun : normalizeSeed seed s
                 = (Ok (Seed.set_upc (Some d) seed),
                    mkSt (Out.upd_diagnostics
                            (Diagnostics.set_tried_barcodes
                               (if String.length d =? 12
                                then [d; String "0" d] else [d]))
                            (out s))
                         (trace s))).
  { unfold normalizeSeed. rewrite Hd. cbn [Seed.upc Seed.set_upc tmpl].
    rewrite Ht. cbn [andb when].
    unfold bind, push_tried, modify, ret. cbn [out trace].
    destruct (String.length d =? 12) eqn:E12; cbn [when].
    - apply Nat.eqb_eq in E12.
      unfold padStart0. cbn [append String.length]. rewrite E12.
      cbn [Nat.sub zeros append]. cbn [out trace].
      unfold Out.upd_diagnostics, Diagnostics.set_tried_barcodes.
      cbn. rewrite Hinit. reflexivity.
    - unfold Out.upd_diagnostics, Diagnostics.set_tried_barcodes.
      cbn. rewrite Hinit. reflexivity. }
  assert (Htried : tried = if String.length d =? 12
                           then [d; String "0" d] else [d]).
  { unfold tried. rewrite Hrun. reflexivity. }
  split; [rewrite Hrun; reflexivity|].
  split; [|split].
  - intros H12. rewrite Htried, H12. reflexivity.
  - intros H13. rewrite Htried, H13. reflexivity.
  - intros s' Hs'.
    assert (Hloop : forall l,
               dedupe (List.filter nonempty tried) = l ->
               (if truthy (Seed.upc seed')
                then
                  barcodes <- gets (fun o =>
                    dedupe (List.filter nonempty
                              (Diagnostics.tried_barcodes (Out.diagnostics o)))) ;;
                  mb_barcode_loop env barcodes
                else ret None) s'
               = mb_barcode_loop env l s').
    { intros l <-. unfold seed'. cbn [Seed.upc Seed.set_upc]. rewrite Ht.
      unfold bind, gets. rewrite Hs'. reflexivity. }
    destruct (String.length d =? 12) eqn:E12.
    + apply Nat.eqb_eq in E12.
      assert (H0 : Str.forallb is_digit (String "0" d) = true)
        by (cbn [Str.forallb]; rewrite Hdig; reflexivity).
      destruct (@LoopFacts.loop_two env d (String "0" d) s' Hdig H0)
        as (n & m & E & Hn & Hm & Hiff).
      exists n, m. split; [|repeat split; try tauto; try lia].
      * apply searches_after_loop. rewrite (Hloop [d; String "0" d]); [exact E|].
        rewrite Htried.
        rewrite SeedFacts.filter_nonempty_pair, SeedFacts.dedupe_pair
          by assumption.
        reflexivity.
    + apply Nat.eqb_neq in E12.
      destruct (@LoopFacts.loop_one env d s' Hdig) as (n & Hn & E).
      exists n, 0. cbn [repeat]. rewrite app_nil_r.
      split; [|repeat split; try tauto; try lia].
      apply searches_after_loop. rewrite (Hloop [d]); [exact E|].
      rewrite Htried. destruct d; [contradiction | reflexivity].
Qed.

Lemma normalizeSeed_tried_barcodes_witness :
  Diagnostics.tried_barcodes
    (Out.diagnostics
       (out (snd (normalizeSeed (Seed.set_upc (Some "0 12345-678905") Seed.empty)
                                Examples.fresh))))
  = ["012345678905"; "0012345678905"]
  /\ Diagnostics.tried_barcodes
       (Out.diagnostics
          (out (snd (normalizeSeed
                       (Seed.set_upc (Some "0012345678905") Seed.empty)
                       Examples.fresh))))
     = ["0012345678905"]
  /\ (exists n m,
         barcode_searches
           (trace (snd (resolveMusicBrainz Examples.nothing_found
                          (Seed.set_upc (Some "012345678905") Seed.empty)
                          (snd (normalizeSeed
                                  (Seed.set_upc (Some "0 12345-678905")
                                                Seed.empty)
                                  Examples.fresh)))))
         = repeat "012345678905" n ++ repeat "0012345678905" m
         /\ 1 <= n /\ 1 <= m)
  /\ (exists n,
         barcode_searches
           (trace (snd (resolveMusicBrainz World.env
                          (Seed.set_upc (Some "012345678905") Seed.empty)
                          (snd (normalizeSeed
                                  (Seed.set_upc (Some "0 12345-678905")
                                                Seed.empty)
                                  Examples.fresh)))))
         = repeat "012345678905" n).
Proof.
  destruct (@normalizeSeed_tried_barcodes Examples.nothing_found
              (Seed.set_upc (Some "0 12345-678905") Seed.empty)
              Examples.fresh "012345678905" eq_refl eq_refl)
    as (_ & H12 & _ & Hnone).
  destruct (@normalizeSeed_tried_barcodes World.env
              (Seed.set_upc (Some "0 12345-678905") Seed.empty)
              Examples.fresh "012345678905" eq_refl eq_refl)
    as (_ & _ & _ & Hfound).
  destruct (@normalizeSeed_tried_barcodes Examples.nothing_found
              (Seed.set_upc (Some "0012345678905") Seed.empty)
              Examples.fresh "0012345678905" eq_refl eq_refl)
    as (_ & _ & H13 & _).
  split; [apply H12; reflexivity|].
  split; [apply H13; reflexivity|].
  split.
  - destruct (Hnone _ eq_refl) as (n & m & E & Hn & _ & Hiff & _).
    exists n, m. split; [exact E|].
    split; [destruct Hn; lia | apply Hiff; reflexivity].
  - destruct (Hfound _ eq_refl) as (n & m & E & _ & _ & Hiff & _).
    exists n. destruct m as [|m].
    + etransitivity; [exact E|].
      change (barcode_searches
                (trace (snd (normalizeSeed
                               (Seed.set_upc (Some "0 12345-678905") Seed.empty)
                               Examples.fresh))))
        with (@nil string).
      cbn [app repeat]. apply app_nil_r.
    + assert (H : 1 <= S m) by lia.
      apply (proj1 (Hiff eq_refl)) in H. discriminate H.
Defined.
